(** * append-to-json-file: the buffered JSON-array writer

    A shallow embedding of [JappendWriter] (the buffered writer), of the text
    helpers of [utils.ts], of the [jappend] convenience wrapper and of the
    in-memory file handle the unit tests run against, followed by the
    properties of the writer.

    Conventions of the embedding.
    - A JavaScript string and the content of a file are both [list ascii]: the
      embedding identifies the bytes of a [Buffer] with the code units of the
      string [buffer.toString()] yields.  That identification is exact for
      7-bit content; the theorems that scan an arbitrary file tail carry the
      hypothesis that the tail window is 7-bit.
    - An entry is represented by the JSON tree that [JSON.stringify] prints
      for it; numbers and strings are kept as their literal text, so that no
      floating point arithmetic is involved.
    - [async] code is a coroutine: a value of [Await] is the [await] at which
      [ensureAllIsFlushed] is suspended together with its live local
      variables, and the environment resumes it with the result of the
      awaited file operation. *)

From Stdlib Require Import Ascii String List Bool Arith ZArith Lia.
Import ListNotations.

Set Warnings "-register-all".

Local Open Scope char_scope.
Local Open Scope list_scope.

(* ================================================================== *)
(** * Strings *)

Definition str : Type := list ascii.

Definition chars (s : string) : str := list_ascii_of_string s.

(** The class [\s] of a JavaScript regular expression, which is also what
    [String.prototype.trim] strips, restricted to code units below 256. *)
Definition isSpace (c : ascii) : bool :=
  (c =? "009") || (c =? "010") || (c =? "011") || (c =? "012") ||
  (c =? "013") || (c =? " ") || (c =? "160").

Definition is7bit (c : ascii) : bool := (nat_of_ascii c <? 128)%nat.

Fixpoint dropWhile (p : ascii -> bool) (s : str) : str :=
  match s with
  | [] => []
  | c :: r => if p c then dropWhile p r else s
  end.

Fixpoint span (p : ascii -> bool) (s : str) : str * str :=
  match s with
  | [] => ([], [])
  | c :: r => if p c then let (a, b) := span p r in (c :: a, b) else ([], s)
  end.

(** [text.trim()] *)
Definition trim (s : str) : str :=
  rev (dropWhile isSpace (rev (dropWhile isSpace s))).

(** [text.slice(a, b)] for [0 <= a] and [0 <= b]. *)
Definition slice (s : str) (a b : nat) : str := firstn (b - a) (skipn a s).

Fixpoint lastIndexOf_go (c : ascii) (s : str) (i acc : Z) : Z :=
  match s with
  | [] => acc
  | x :: r => lastIndexOf_go c r (i + 1) (if (x =? c) then i else acc)
  end.

(** [text.lastIndexOf(c)], [-1] when [c] does not occur. *)
Definition lastIndexOf (c : ascii) (s : str) : Z := lastIndexOf_go c s 0 (-1).

(** [' '.repeat(n)] *)
Definition spaces (n : nat) : str := repeat " " n.

Definition str_eqb (a b : str) : bool :=
  if list_eq_dec ascii_dec a b then true else false.

(* ------------------------------------------------------------------ *)
(** ** utils.ts *)

Definition removeFirstAndLastBrackets (text : str) : str :=
  trim (slice text 1 (length text - 1)).

(** The loop [for (let i = lastBracketIndex - 1; i >= 0; i--)], [k] being
    [i + 1]: it stops at a missing character and at the first character that
    is not white space. *)
Fixpoint countLoop (fileTail : str) (k : nat) : nat :=
  match k with
  | O => O
  | S i =>
      match nth_error fileTail i with
      | None => O
      | Some character =>
          if isSpace character then S (countLoop fileTail i) else O
      end
  end.

Definition countNewLinesAndSpacesBeforeLastBracket
           (fileTail : str) (lastBracketIndex : Z) (pretty : bool) : Z :=
  if pretty then Z.of_nat (countLoop fileTail (Z.to_nat lastBracketIndex))
  else 0%Z.

(* ================================================================== *)
(** * JSON *)

(** The tree [JSON.stringify] prints: a number is its literal, a string the
    escaped text between its quotes. *)
Inductive json : Type :=
| JNull
| JTrue
| JFalse
| JNumber (literal : str)
| JString (body : str)
| JArray (items : list json)
| JObject (members : list (str * json)).

(* ------------------------------------------------------------------ *)
(** ** Lexical rules (RFC 8259) *)

Definition isJsonWs (c : ascii) : bool :=
  (c =? " ") || (c =? "009") || (c =? "010") || (c =? "013").

Definition isDigit (c : ascii) : bool :=
  let n := nat_of_ascii c in ((48 <=? n) && (n <=? 57))%nat.

Definition isHex (c : ascii) : bool :=
  let n := nat_of_ascii c in
  (((48 <=? n) && (n <=? 57)) || ((65 <=? n) && (n <=? 70)) ||
   ((97 <=? n) && (n <=? 102)))%nat.

Definition isNumChar (c : ascii) : bool :=
  isDigit c || (c =? "-") || (c =? "+") || (c =? ".") || (c =? "e") || (c =? "E").

(** The states of the automaton of a JSON number: an optional minus sign, an
    integer part without leading zero, an optional fraction and an optional
    exponent. *)
Inductive NumState : Type :=
| NStart | NMinus | NZero | NInt | NDot | NFrac | NExp | NExpSign | NExpDigits.

Definition numStep (q : NumState) (c : ascii) : option NumState :=
  match q with
  | NStart =>
      if c =? "-" then Some NMinus
      else if c =? "0" then Some NZero
      else if isDigit c then Some NInt else None
  | NMinus =>
      if c =? "0" then Some NZero
      else if isDigit c then Some NInt else None
  | NZero =>
      if c =? "." then Some NDot
      else if (c =? "e") || (c =? "E") then Some NExp else None
  | NInt =>
      if isDigit c then Some NInt
      else if c =? "." then Some NDot
      else if (c =? "e") || (c =? "E") then Some NExp else None
  | NDot => if isDigit c then Some NFrac else None
  | NFrac =>
      if isDigit c then Some NFrac
      else if (c =? "e") || (c =? "E") then Some NExp else None
  | NExp =>
      if (c =? "+") || (c =? "-") then Some NExpSign
      else if isDigit c then Some NExpDigits else None
  | NExpSign => if isDigit c then Some NExpDigits else None
  | NExpDigits => if isDigit c then Some NExpDigits else None
  end.

Definition numFinal (q : NumState) : bool :=
  match q with
  | NZero | NInt | NFrac | NExpDigits => true
  | _ => false
  end.

Fixpoint numRun (q : NumState) (s : str) : bool :=
  match s with
  | [] => numFinal q
  | c :: r => match numStep q c with Some q' => numRun q' r | None => false end
  end.

Definition number_ok (literal : str) : bool :=
  forallb isNumChar literal && numRun NStart literal.

(** Scanning the body of a string, after its opening quote. *)
Inductive StrState : Type :=
| SPlain | SEscape | SHex (remaining : nat).

Fixpoint scanString (q : StrState) (s : str) : option (str * str) :=
  match s with
  | [] => None
  | c :: r =>
      match q with
      | SPlain =>
          if c =? "034" then Some ([], r)
          else if c =? "\" then
            match scanString SEscape r with
            | Some (b, r') => Some (c :: b, r')
            | None => None
            end
          else if (nat_of_ascii c <? 32)%nat then None
          else
            match scanString SPlain r with
            | Some (b, r') => Some (c :: b, r')
            | None => None
            end
      | SEscape =>
          if (c =? "034") || (c =? "\") || (c =? "/") || (c =? "b") ||
             (c =? "f") || (c =? "n") || (c =? "r") || (c =? "t") then
            match scanString SPlain r with
            | Some (b, r') => Some (c :: b, r')
            | None => None
            end
          else if c =? "u" then
            match scanString (SHex 3) r with
            | Some (b, r') => Some (c :: b, r')
            | None => None
            end
          else None
      | SHex k =>
          if isHex c then
            match scanString (match k with O => SPlain | S k' => SHex k' end) r with
            | Some (b, r') => Some (c :: b, r')
            | None => None
            end
          else None
      end
  end.

(** [body] is the text of a string between its quotes. *)
Definition string_ok (body : str) : bool :=
  match scanString SPlain (body ++ ["034"]) with
  | Some (b, []) => str_eqb b body
  | _ => false
  end.

Fixpoint stripPrefix (p s : str) : option str :=
  match p, s with
  | [], _ => Some s
  | a :: p', b :: s' => if a =? b then stripPrefix p' s' else None
  | _ :: _, [] => None
  end.

(* ------------------------------------------------------------------ *)
(** ** [JSON.parse] *)

Fixpoint skipWs (s : str) : str :=
  match s with
  | [] => []
  | c :: r => if isJsonWs c then skipWs r else s
  end.

(** The next character is [c]. *)
Definition expect (c : ascii) (s : str) : option str :=
  match s with
  | x :: r => if x =? c then Some r else None
  | [] => None
  end.

Fixpoint parseValue (fuel : nat) (s : str) {struct fuel} : option (json * str) :=
  match fuel with
  | O => None
  | S f =>
      match s with
      | [] => None
      | c :: r =>
          if c =? "034" then
            match scanString SPlain r with
            | Some (b, r') => Some (JString b, r')
            | None => None
            end
          else if c =? "[" then
            match expect "]" (skipWs r) with
            | Some r' => Some (JArray [], r')
            | None =>
                match parseElements f (skipWs r) with
                | Some (vs, r') => Some (JArray vs, r')
                | None => None
                end
            end
          else if c =? "{" then
            match expect "}" (skipWs r) with
            | Some r' => Some (JObject [], r')
            | None =>
                match parseMembers f (skipWs r) with
                | Some (ms, r') => Some (JObject ms, r')
                | None => None
                end
            end
          else if c =? "t" then
            match stripPrefix (chars "true") s with
            | Some r' => Some (JTrue, r')
            | None => None
            end
          else if c =? "f" then
            match stripPrefix (chars "false") s with
            | Some r' => Some (JFalse, r')
            | None => None
            end
          else if c =? "n" then
            match stripPrefix (chars "null") s with
            | Some r' => Some (JNull, r')
            | None => None
            end
          else if isNumChar c then
            let (literal, r') := span isNumChar s in
            if number_ok literal then Some (JNumber literal, r') else None
          else None
      end
  end

with parseElements (fuel : nat) (s : str) {struct fuel} : option (list json * str) :=
  match fuel with
  | O => None
  | S f =>
      match parseValue f s with
      | Some (v, r) =>
          match expect "," (skipWs r) with
          | Some r1 =>
              match parseElements f (skipWs r1) with
              | Some (vs, r2) => Some (v :: vs, r2)
              | None => None
              end
          | None =>
              match expect "]" (skipWs r) with
              | Some r1 => Some ([v], r1)
              | None => None
              end
          end
      | None => None
      end
  end

with parseMembers (fuel : nat) (s : str) {struct fuel}
  : option (list (str * json) * str) :=
  match fuel with
  | O => None
  | S f =>
      match expect "034" s with
      | Some s0 =>
          match scanString SPlain s0 with
          | Some (k, r0) =>
              match expect ":" (skipWs r0) with
              | Some r1 =>
                  match parseValue f (skipWs r1) with
                  | Some (v, r) =>
                      match expect "," (skipWs r) with
                      | Some r2 =>
                          match parseMembers f (skipWs r2) with
                          | Some (ms, r3) => Some ((k, v) :: ms, r3)
                          | None => None
                          end
                      | None =>
                          match expect "}" (skipWs r) with
                          | Some r2 => Some ([(k, v)], r2)
                          | None => None
                          end
                      end
                  | None => None
                  end
              | None => None
              end
          | None => None
          end
      | None => None
      end
  end.

(** [JSON.parse(text)]: [None] stands for the [SyntaxError]. *)
Definition JSON_parse (text : str) : option json :=
  match parseValue (2 * length text + 2) (skipWs text) with
  | Some (v, r) => match skipWs r with [] => Some v | _ => None end
  | None => None
  end.

(* ------------------------------------------------------------------ *)
(** ** [JSON.stringify(value, null, indent)] *)

Definition quote (body : str) : str := "034" :: body ++ ["034"].

Fixpoint join (sep : str) (parts : list str) : str :=
  match parts with
  | [] => []
  | [p] => p
  | p :: ps => p ++ sep ++ join sep ps
  end.

Definition isEmpty (s : str) : bool := match s with [] => true | _ => false end.

(** SerializeJSONProperty of ECMA-262, [indent] being the current
    indentation and [gap] the text one level adds. *)
Fixpoint serialize (gap indent : str) (v : json) {struct v} : str :=
  match v with
  | JNull => chars "null"
  | JTrue => chars "true"
  | JFalse => chars "false"
  | JNumber literal => literal
  | JString body => quote body
  | JArray items =>
      match items with
      | [] => chars "[]"
      | _ =>
          let stepback := indent in
          let indent := indent ++ gap in
          let partial := map (serialize gap indent) items in
          if isEmpty gap then "[" :: join [","] partial ++ ["]"]
          else
            "[" :: "010" :: indent ++ join ("," :: "010" :: indent) partial
                ++ "010" :: stepback ++ ["]"]
      end
  | JObject members =>
      match members with
      | [] => chars "{}"
      | _ =>
          let stepback := indent in
          let indent := indent ++ gap in
          let partial :=
            map (fun m : str * json =>
                   let (k, x) := m in
                   quote k ++ ":" :: (if isEmpty gap then [] else [" "])
                     ++ serialize gap indent x) members in
          if isEmpty gap then "{" :: join [","] partial ++ ["}"]
          else
            "{" :: "010" :: indent ++ join ("," :: "010" :: indent) partial
                ++ "010" :: stepback ++ ["}"]
      end
  end.

(** A numeric [space] argument is clamped to ten. *)
Definition JSON_stringify (value : json) (indent : nat) : str :=
  serialize (spaces (Nat.min 10 indent)) [] value.

(** The trees [JSON.stringify] can print: the literal of a number and the
    body of a string follow the lexical rules. *)
Fixpoint wf_json (v : json) : bool :=
  match v with
  | JNumber literal => number_ok literal
  | JString body => string_ok body
  | JArray items => forallb wf_json items
  | JObject members =>
      forallb (fun m : str * json => let (k, x) := m in string_ok k && wf_json x)
              members
  | _ => true
  end.

(* ------------------------------------------------------------------ *)
(** ** The grammar of JSON texts *)

Definition ws (w : str) : Prop := forallb isJsonWs w = true.

(** [Text t v]: [t], without white space around it, is a JSON text of [v]. *)
Inductive Text : str -> json -> Prop :=
| T_null : Text (chars "null") JNull
| T_true : Text (chars "true") JTrue
| T_false : Text (chars "false") JFalse
| T_number literal :
    number_ok literal = true -> Text literal (JNumber literal)
| T_string body :
    string_ok body = true -> Text (quote body) (JString body)
| T_array_empty w :
    ws w -> Text ("[" :: w ++ ["]"]) (JArray [])
| T_array w1 t w2 vs :
    ws w1 -> Items t vs -> ws w2 -> Text ("[" :: w1 ++ t ++ w2 ++ ["]"]) (JArray vs)
| T_object_empty w :
    ws w -> Text ("{" :: w ++ ["}"]) (JObject [])
| T_object w1 t w2 ms :
    ws w1 -> Members t ms -> ws w2 -> Text ("{" :: w1 ++ t ++ w2 ++ ["}"]) (JObject ms)

with Items : str -> list json -> Prop :=
| I_one t v : Text t v -> Items t [v]
| I_cons t v w1 w2 ts vs :
    Text t v -> ws w1 -> ws w2 -> Items ts vs ->
    Items (t ++ w1 ++ "," :: w2 ++ ts) (v :: vs)

with Members : str -> list (str * json) -> Prop :=
| M_one k w1 w2 t v :
    string_ok k = true -> ws w1 -> ws w2 -> Text t v ->
    Members (quote k ++ w1 ++ ":" :: w2 ++ t) [(k, v)]
| M_cons k w1 w2 t v w3 w4 ts ms :
    string_ok k = true -> ws w1 -> ws w2 -> Text t v ->
    ws w3 -> ws w4 -> Members ts ms ->
    Members (quote k ++ w1 ++ ":" :: w2 ++ t ++ w3 ++ "," :: w4 ++ ts)
            ((k, v) :: ms).

Scheme Text_mut := Minimality for Text Sort Prop
  with Items_mut := Minimality for Items Sort Prop
  with Members_mut := Minimality for Members Sort Prop.

Combined Scheme Text_Items_Members_ind from Text_mut, Items_mut, Members_mut.

(** [Document t v]: the file content [t] is a JSON text of [v]. *)
Definition Document (t : str) (v : json) : Prop :=
  exists w1 c w2, t = w1 ++ c ++ w2 /\ ws w1 /\ Text c v /\ ws w2.

(* ================================================================== *)
(** * Regular expressions *)

(** The fragment the writer uses: a character class, a starred character
    class and the end of input [$]. *)
Inductive Atom : Type :=
| AClass (p : ascii -> bool)
| AStar (p : ascii -> bool)
| AEnd.

Fixpoint matchHere (re : list Atom) (s : str) {struct re} : bool :=
  match re with
  | [] => true
  | AClass p :: re' =>
      match s with
      | c :: r => p c && matchHere re' r
      | [] => false
      end
  | AStar p :: re' =>
      (fix star (s : str) : bool :=
         matchHere re' s ||
         match s with
         | c :: r => p c && star r
         | [] => false
         end) s
  | AEnd :: re' =>
      match s with
      | [] => matchHere re' []
      | _ :: _ => false
      end
  end.

(** [re.test(s)]: a match may start at any index. *)
Fixpoint regexTest (re : list Atom) (s : str) : bool :=
  matchHere re s ||
  match s with
  | [] => false
  | _ :: r => regexTest re r
  end.

(** [/[^\s[]\s*]$/] *)
Definition commaRegex : list Atom :=
  [ AClass (fun c => negb (isSpace c || (c =? "[")));
    AStar isSpace;
    AClass (fun c => c =? "]");
    AEnd ].

(* ================================================================== *)
(** * JappendWriter: options *)

Inductive Threshold : Type :=
| Finite (n : nat)
| Infinity.

(** The interface [WriterOptions], every property optional; [fileOpen] is
    the file system of the state machine below. *)
Record WriterOptions : Type := {
  opt_bufferFlushThreshold : option Threshold;
  opt_pretty : option bool;
  opt_indent : option nat;
  opt_initArray : option bool
}.

(** [Required<WriterOptions>] *)
Record RequiredOptions : Type := {
  bufferFlushThreshold : Threshold;
  pretty : bool;
  indent : nat;
  initArray : bool
}.

Definition orElse {A : Type} (o : option A) (d : A) : A :=
  match o with Some a => a | None => d end.

Definition convertOptions (options : WriterOptions) : RequiredOptions :=
  let pretty := orElse (opt_pretty options) true in
  {| pretty := pretty;
     indent := if pretty then orElse (opt_indent options) 2 else 0;
     initArray := orElse (opt_initArray options) true;
     bufferFlushThreshold := orElse (opt_bufferFlushThreshold options) (Finite 1) |}.

(** [validationOptions]: [true] when the constructor does not throw.  An
    indentation is a [nat] here, hence a non-negative integer. *)
Definition validationOptions (filePath : str) (options : WriterOptions) : bool :=
  negb (isEmpty (trim filePath)) &&
  match opt_bufferFlushThreshold options with
  | Some (Finite n) => (1 <=? n)%nat
  | _ => true
  end.

(** The object a caller passes to the constructor.  The documentation of the
    package ('Fire-and-Forget Mode' and the list of [WriterOptions] in the
    README, release 1.2.0 in the change log) and [benchmark.ts] give it a
    further property, [suppressThresholdFlushErrors]; a JavaScript object may
    carry it.  [validationOptions] and [convertOptions] read the properties
    of [WriterOptions] and no other. *)
Record OptionsObject : Type := {
  writerOptions : WriterOptions;
  suppressThresholdFlushErrors : option bool
}.

(** [new JappendWriter(filePath, options)]: the value of [this.options]. *)
Definition constructorOptions (options : OptionsObject) : RequiredOptions :=
  convertOptions (writerOptions options).

(** [isFull], given the length of the buffer. *)
Definition isFull (options : RequiredOptions) (bufferLength : nat) : bool :=
  match bufferFlushThreshold options with
  | Finite n => (n <=? bufferLength)%nat
  | Infinity => false
  end.

(* ------------------------------------------------------------------ *)
(** ** The tail scanner and the insertion builder *)

Record TailScan : Type := {
  fileTail : str;
  lastBracketIndex : Z;
  trimmedFileTail : str;
  readPosition : nat
}.

(** What [readFileTail] computes from the bytes it has read. *)
Definition scanTail (buffer : str) (readPosition : nat) : TailScan :=
  let fileTail := buffer in
  {| fileTail := fileTail;
     lastBracketIndex := lastIndexOf "]" fileTail;
     trimmedFileTail := trim fileTail;
     readPosition := readPosition |}.

Definition shouldInsertComma (trimmedFileTail : str) : bool :=
  regexTest commaRegex trimmedFileTail.

Definition maybeNewLine (options : RequiredOptions) : str :=
  if pretty options then ["010"] else [].

Definition maybeIndentation (options : RequiredOptions) : str :=
  if pretty options then spaces (indent options) else [].

Definition jsonString (options : RequiredOptions) (dataToWrite : list json) : str :=
  removeFirstAndLastBrackets (JSON_stringify (JArray dataToWrite) (indent options)).

Record Insertion : Type := {
  insertion : str;
  truncatePosition : Z
}.

Definition buildInsertion (options : RequiredOptions) (dataToWrite : list json)
           (scan : TailScan) : Insertion :=
  {| insertion :=
       (if shouldInsertComma (trimmedFileTail scan) then [","] else [])
         ++ maybeNewLine options ++ maybeIndentation options
         ++ jsonString options dataToWrite ++ maybeNewLine options ++ ["]"];
     truncatePosition :=
       (Z.of_nat (readPosition scan) + lastBracketIndex scan
        - countNewLinesAndSpacesBeforeLastBracket
            (fileTail scan) (lastBracketIndex scan) (pretty options))%Z |}.

(* ================================================================== *)
(** * The file system *)

Inductive Error : Type :=
| ENOENT              (* [fileOpen]: no such file or directory *)
| NotAJsonArray       (* 'The file does not contain a valid JSON array. ...' *)
| PositionOutOfBounds (* the in-memory handle, [write] past the end *)
| IoError (code : nat). (* any other rejection of a file operation *)

Definition Handle : Type := nat.

Inductive IoCall : Type :=
| CallOpen (flags : str)
| CallStat (h : Handle)
| CallRead (h : Handle) (length position : nat)
| CallWrite (h : Handle) (data : str) (position : option Z)
| CallTruncate (h : Handle) (length : Z)
| CallClose (h : Handle).

(** One file, the one at [filePath]: its content ([None] when the file does
    not exist), the handles that are open, and the calls made so far, oldest
    first. *)
Record FileSystem : Type := {
  content : option str;
  openHandles : list Handle;
  nextHandle : Handle;
  calls : list IoCall
}.

Definition bytes (fsys : FileSystem) : str := orElse (content fsys) [].

Definition logCall (c : IoCall) (fsys : FileSystem) : FileSystem :=
  {| content := content fsys;
     openHandles := openHandles fsys;
     nextHandle := nextHandle fsys;
     calls := calls fsys ++ [c] |}.

Definition setContent (text : str) (fsys : FileSystem) : FileSystem :=
  {| content := Some text;
     openHandles := openHandles fsys;
     nextHandle := nextHandle fsys;
     calls := calls fsys |}.

(** [fs.open(path, flags)]: ['a+'] creates a missing file, ['r+'] rejects
    with ENOENT. *)
Definition fs_open (flags : str) (fsys : FileSystem) : FileSystem * Handle + Error :=
  let opened (text : str) :=
    inl ({| content := Some text;
            openHandles := nextHandle fsys :: openHandles fsys;
            nextHandle := S (nextHandle fsys);
            calls := calls fsys |}, nextHandle fsys) in
  match content fsys with
  | Some text => opened text
  | None => if str_eqb flags (chars "a+") then opened [] else inr ENOENT
  end.

(** [stat().size] *)
Definition fs_size (fsys : FileSystem) : nat := length (bytes fsys).

(** [Buffer.alloc(length)] filled by [read(buffer, 0, length, position)],
    then [buffer.toString()].  The bytes of the buffer are taken for the
    characters of the string: exact when the bytes read are 7-bit, which the
    theorems that depend on what is read assume. *)
Definition fs_read (length position : nat) (fsys : FileSystem) : str :=
  let data := slice (bytes fsys) position (position + length) in
  firstn length (data ++ repeat zero length).

(** [write(data, position)]; a missing position is the end of the file. *)
Definition fs_write (data : str) (position : option Z) (fsys : FileSystem)
  : FileSystem + Error :=
  let text := bytes fsys in
  let position := orElse position (Z.of_nat (length text)) in
  if ((position <? 0) || (Z.of_nat (length text) <? position))%Z then
    inr PositionOutOfBounds
  else
    let p := Z.to_nat position in
    inl (setContent (firstn p text ++ data ++ skipn (p + length data) text) fsys).

(** [truncate(length)], which is [content.slice(0, length)]. *)
Definition fs_truncate (len : Z) (fsys : FileSystem) : FileSystem :=
  let text := bytes fsys in
  let stop := if (len <? 0)%Z then Z.max (Z.of_nat (length text) + len) 0 else len in
  setContent (firstn (Z.to_nat stop) text) fsys.

Definition fs_close (h : Handle) (fsys : FileSystem) : FileSystem :=
  {| content := content fsys;
     openHandles := remove Nat.eq_dec h (openHandles fsys);
     nextHandle := nextHandle fsys;
     calls := calls fsys |}.

(* ================================================================== *)
(** * JappendWriter: the state machine *)

Definition Promise : Type := nat.

Inductive Outcome : Type :=
| Fulfilled
| Rejected (error : Error).

(** Where [ensureAllIsFlushed] is suspended, with its local variables
    [dataToWrite] and [fileHandle]. *)
Inductive Await : Type :=
| AwaitOpen (dataToWrite : list json) (fileHandle : option Handle)
| AwaitStat (dataToWrite : list json) (fileHandle : Handle)
| AwaitRead (dataToWrite : list json) (fileHandle : Handle)
            (bufferSize readPosition : nat)
| AwaitWriteInit (dataToWrite : list json) (fileHandle : Handle)
| AwaitTruncate (dataToWrite : list json) (fileHandle : Handle) (patch : Insertion)
| AwaitWrite (dataToWrite : list json) (fileHandle : Handle) (patch : Insertion)
| AwaitClose (fileHandle : Handle) (thrown : option Error)
| Returned (result : Outcome).

(** The writer and its environment.  [flushPromise] is defined from the call
    of [flush] that starts a cycle until the [then]/[catch] callback of that
    call runs; it carries the state of the cycle it follows.  [settled] is
    the outcome of the promises [flush] has returned. *)
Record State : Type := {
  buffer : list json;
  flushPromise : option (Promise * Await);
  isShutdown : bool;
  fsys : FileSystem;
  settled : list (Promise * Outcome);
  nextPromise : Promise
}.

Definition setBuffer (b : list json) (st : State) : State :=
  {| buffer := b; flushPromise := flushPromise st; isShutdown := isShutdown st;
     fsys := fsys st; settled := settled st; nextPromise := nextPromise st |}.

Definition setFsys (f : FileSystem) (st : State) : State :=
  {| buffer := buffer st; flushPromise := flushPromise st; isShutdown := isShutdown st;
     fsys := f; settled := settled st; nextPromise := nextPromise st |}.

Definition setShutdown (b : bool) (st : State) : State :=
  {| buffer := buffer st; flushPromise := flushPromise st; isShutdown := b;
     fsys := fsys st; settled := settled st; nextPromise := nextPromise st |}.

Definition setFlushPromise (p : option (Promise * Await)) (st : State) : State :=
  {| buffer := buffer st; flushPromise := p; isShutdown := isShutdown st;
     fsys := fsys st; settled := settled st; nextPromise := nextPromise st |}.

Definition call (c : IoCall) (st : State) : State := setFsys (logCall c (fsys st)) st.

Definition openFlags (options : RequiredOptions) : str :=
  if initArray options then chars "a+" else chars "r+".

(** The test of [while (this.buffer.length > 0)]: another iteration splices
    the buffer and opens the file; otherwise the loop ends and [finally]
    closes the handle [fileHandle] holds. *)
Definition loopTest (options : RequiredOptions) (fileHandle : option Handle)
           (st : State) : State * Await :=
  match buffer st with
  | _ :: _ =>
      let dataToWrite := buffer st in
      (call (CallOpen (openFlags options)) (setBuffer [] st),
       AwaitOpen dataToWrite fileHandle)
  | [] =>
      match fileHandle with
      | Some h => (call (CallClose h) st, AwaitClose h None)
      | None => (st, Returned Fulfilled)
      end
  end.

(** An exception inside [try]: [catch] puts [dataToWrite] back in front of
    the buffer, then [finally] closes the handle [fileHandle] holds. *)
Definition throwInTry (dataToWrite : list json) (fileHandle : option Handle)
           (error : Error) (st : State) : State * Await :=
  let st := setBuffer (dataToWrite ++ buffer st) st in
  match fileHandle with
  | Some h => (call (CallClose h) st, AwaitClose h (Some error))
  | None => (st, Returned (Rejected error))
  end.

(** [ensureAllIsFlushed], up to its first [await]. *)
Definition ensureAllIsFlushed (options : RequiredOptions) (st : State)
  : State * Await :=
  match buffer st with
  | [] => (st, Returned Fulfilled)
  | _ :: _ => loopTest options None st
  end.

(** [ensureAllIsFlushed] from the [await] [a] to the next one, the awaited
    operation having been rejected with [fault] or else carried out. *)
Definition resume (options : RequiredOptions) (a : Await) (fault : option Error)
           (st : State) : State * Await :=
  match a with
  | AwaitOpen dataToWrite previous =>
      match fault with
      | Some e => throwInTry dataToWrite previous e st
      | None =>
          match fs_open (openFlags options) (fsys st) with
          | inr e => throwInTry dataToWrite previous e st
          | inl (f, h) => (call (CallStat h) (setFsys f st), AwaitStat dataToWrite h)
          end
      end
  | AwaitStat dataToWrite h =>
      match fault with
      | Some e => throwInTry dataToWrite (Some h) e st
      | None =>
          let size := fs_size (fsys st) in
          let bufferSize := Nat.min size 50 in
          let readPosition := size - bufferSize in
          (call (CallRead h bufferSize readPosition) st,
           AwaitRead dataToWrite h bufferSize readPosition)
      end
  | AwaitRead dataToWrite h bufferSize readPosition =>
      match fault with
      | Some e => throwInTry dataToWrite (Some h) e st
      | None =>
          let scan := scanTail (fs_read bufferSize readPosition (fsys st)) readPosition in
          if isEmpty (trimmedFileTail scan) && initArray options then
            (call (CallWrite h (JSON_stringify (JArray dataToWrite) (indent options)) None) st,
             AwaitWriteInit dataToWrite h)
          else if (lastBracketIndex scan =? -1)%Z then
            throwInTry dataToWrite (Some h) NotAJsonArray st
          else
            let patch := buildInsertion options dataToWrite scan in
            (call (CallTruncate h (truncatePosition patch)) st,
             AwaitTruncate dataToWrite h patch)
      end
  | AwaitWriteInit dataToWrite h =>
      match fault with
      | Some e => throwInTry dataToWrite (Some h) e st
      | None =>
          match fs_write (JSON_stringify (JArray dataToWrite) (indent options)) None (fsys st) with
          | inr e => throwInTry dataToWrite (Some h) e st
          | inl f => loopTest options (Some h) (setFsys f st)
          end
      end
  | AwaitTruncate dataToWrite h patch =>
      match fault with
      | Some e => throwInTry dataToWrite (Some h) e st
      | None =>
          (call (CallWrite h (insertion patch) (Some (truncatePosition patch)))
                (setFsys (fs_truncate (truncatePosition patch) (fsys st)) st),
           AwaitWrite dataToWrite h patch)
      end
  | AwaitWrite dataToWrite h patch =>
      match fault with
      | Some e => throwInTry dataToWrite (Some h) e st
      | None =>
          match fs_write (insertion patch) (Some (truncatePosition patch)) (fsys st) with
          | inr e => throwInTry dataToWrite (Some h) e st
          | inl f => loopTest options (Some h) (setFsys f st)
          end
      end
  | AwaitClose h thrown =>
      match fault with
      | Some e => (st, Returned (Rejected e))
      | None =>
          (setFsys (fs_close h (fsys st)) st,
           Returned (match thrown with Some e => Rejected e | None => Fulfilled end))
      end
  | Returned result => (st, Returned result)
  end.

(** [flush({ shutdown })]; the promise it returns follows [flushPromise]. *)
Definition flush (options : RequiredOptions) (shutdown : bool) (st : State)
  : State * Promise :=
  match flushPromise st with
  | Some (p, _) => (if shutdown then setShutdown true st else st, p)
  | None =>
      let st := if shutdown then setShutdown true st else st in
      let (st, a) := ensureAllIsFlushed options st in
      let p := nextPromise st in
      ({| buffer := buffer st; flushPromise := Some (p, a);
          isShutdown := isShutdown st; fsys := fsys st;
          settled := settled st; nextPromise := S p |}, p)
  end.

(** [append(newData)]: [None] is [undefined]. *)
Definition append (options : RequiredOptions) (newData : json) (st : State)
  : State * option Promise :=
  if isShutdown st then (st, None)
  else
    let st := setBuffer (buffer st ++ [newData]) st in
    if isFull options (length (buffer st)) then
      let (st, p) := flush options false st in (st, Some p)
    else (st, None).

(** What can happen to a writer: a call of [append], a call of [flush], the
    file operation the cycle awaits completes (or is rejected with [fault]),
    or the [then]/[catch] callback installed by [flush] runs. *)
Inductive Event : Type :=
| Append (newData : json)
| Flush (shutdown : bool)
| Settle (fault : option Error)
| Reaction.

Definition step (options : RequiredOptions) (st : State) (ev : Event) : State :=
  match ev with
  | Append newData => fst (append options newData st)
  | Flush shutdown => fst (flush options shutdown st)
  | Settle fault =>
      match flushPromise st with
      | Some (p, a) =>
          let (st, a) := resume options a fault st in
          setFlushPromise (Some (p, a)) st
      | None => st
      end
  | Reaction =>
      match flushPromise st with
      | Some (p, Returned result) =>
          {| buffer := buffer st; flushPromise := None;
             isShutdown := isShutdown st; fsys := fsys st;
             settled := (p, result) :: settled st;
             nextPromise := nextPromise st |}
      | _ => st
      end
  end.

Definition run (options : RequiredOptions) (st : State) (evs : list Event) : State :=
  fold_left (step options) evs st.

(** A new writer on a file system. *)
Definition newWriter (f : FileSystem) : State :=
  {| buffer := []; flushPromise := None; isShutdown := false;
     fsys := f; settled := []; nextPromise := 0 |}.

Definition newFileSystem (text : option str) : FileSystem :=
  {| content := text; openHandles := []; nextHandle := 0; calls := [] |}.

(** [jappend(filePath, newData, options)]: a writer of threshold one, whose
    [append] is awaited. *)
Definition jappend (options : WriterOptions) (newData : json) (f : FileSystem)
  : State * option Promise :=
  append (convertOptions
            {| opt_bufferFlushThreshold := Some (Finite 1);
               opt_pretty := opt_pretty options;
               opt_indent := opt_indent options;
               opt_initArray := opt_initArray options |})
         newData (newWriter f).

Definition outcomeOf (p : Promise) (st : State) : option Outcome :=
  match find (fun x => Nat.eqb (fst x) p) (settled st) with
  | Some (_, o) => Some o
  | None => None
  end.

Definition isWrite (c : IoCall) : bool :=
  match c with CallWrite _ _ _ => true | _ => false end.

Definition isOpen (c : IoCall) : bool :=
  match c with CallOpen _ => true | _ => false end.

Definition writeCalls (st : State) : nat := length (filter isWrite (calls (fsys st))).
Definition openCalls (st : State) : nat := length (filter isOpen (calls (fsys st))).

(** The operations succeed one after the other, [n] times. *)
Definition settleAll (options : RequiredOptions) (n : nat) (st : State) : State :=
  run options st (repeat (Settle None) n).

(* ================================================================== *)
(** * Notions used by the statements *)

(** The tails for which the regular expression of [buildInsertion] matches:
    a character that is neither white space nor an opening bracket, then
    white space only, then the closing bracket that ends the tail. *)
Definition endsInElement (trimmedFileTail : str) : Prop :=
  exists pre c w,
    trimmedFileTail = pre ++ c :: w ++ ["]"] /\
    isSpace c = false /\ c <> "[" /\ forallb isSpace w = true.

(** What [buildInsertion] writes after the optional comma. *)
Definition insertionBody (options : RequiredOptions) (dataToWrite : list json) : str :=
  maybeNewLine options ++ maybeIndentation options
    ++ jsonString options dataToWrite ++ maybeNewLine options ++ ["]"].

(** The [dataToWrite] of a cycle suspended inside [try]. *)
Definition inTry (a : Await) : option (list json) :=
  match a with
  | AwaitOpen d _ | AwaitStat d _ | AwaitRead d _ _ _ | AwaitWriteInit d _
  | AwaitTruncate d _ _ | AwaitWrite d _ _ => Some d
  | AwaitClose _ _ | Returned _ => None
  end.

(** The exception a cycle is about to reject with, once [catch] has run. *)
Definition thrown (a : Await) : option Error :=
  match a with
  | AwaitClose _ (Some e) => Some e
  | Returned (Rejected e) => Some e
  | _ => None
  end.

(** Promise identifiers are handed out in increasing order. *)
Definition promisesFresh (st : State) : Prop :=
  (forall p o, In (p, o) (settled st) -> p < nextPromise st) /\
  (forall p a, flushPromise st = Some (p, a) -> p < nextPromise st).

Definition isAppend (ev : Event) : bool :=
  match ev with Append _ => true | _ => false end.

(* ------------------------------------------------------------------ *)
(** ** Sample inputs *)

(** The entry [{ test: [n] }] of the unit tests. *)
Definition sampleEntry (n : string) : json :=
  JObject [(chars "test", JArray [JNumber (chars n)])].

(** The default options with the given threshold. *)
Definition sampleOptions (threshold : Threshold) : RequiredOptions :=
  convertOptions {| opt_bufferFlushThreshold := Some threshold;
                    opt_pretty := None; opt_indent := None; opt_initArray := None |}.

(** An empty array on disk, one entry queued, [flush] called, the five
    operations on the file succeed, then [close] is rejected. *)
Definition closeFailureRun : State :=
  run (sampleOptions (Finite 5)) (newWriter (newFileSystem (Some (chars "[]"))))
      [Append (sampleEntry "1"); Flush false;
       Settle None; Settle None; Settle None; Settle None; Settle None;
       Settle (Some (IoError 0)); Reaction].

(** No file on disk, one entry queued, [flush] called once, a second entry
    appended while [open] is pending, every operation succeeds. *)
Definition appendDuringFlushRun : State :=
  run (sampleOptions (Finite 5)) (newWriter (newFileSystem None))
      [Append (sampleEntry "1"); Flush false; Settle None;
       Append (sampleEntry "2");
       Settle None; Settle None; Settle None;
       Settle None; Settle None; Settle None; Settle None; Settle None;
       Settle None; Reaction].

(** The options of the fire-and-forget example of the documentation and of
    [benchmark.ts], with the threshold at one. *)
Definition fireAndForget : OptionsObject :=
  {| writerOptions := {| opt_bufferFlushThreshold := Some (Finite 1);
                         opt_pretty := None; opt_indent := None;
                         opt_initArray := None |};
     suppressThresholdFlushErrors := Some true |}.

(** A writer made with those options on a file that holds an empty array:
    [append] is called once, the [open] of the flush it triggers is rejected,
    the callback of [flush] runs. *)
Definition fireAndForgetRun : State :=
  run (constructorOptions fireAndForget)
      (newWriter (newFileSystem (Some (chars "[]"))))
      [Append (sampleEntry "1"); Settle (Some (IoError 0)); Reaction].

(** [jappend] with [initArray: false], the operations on the file succeed
    one after the other, then the callback of [flush] runs. *)
Definition jappendNoInit (options : WriterOptions) (newData : json) (f : FileSystem)
  : State :=
  let o := convertOptions
             {| opt_bufferFlushThreshold := Some (Finite 1);
                opt_pretty := opt_pretty options;
                opt_indent := opt_indent options;
                opt_initArray := Some false |} in
  step o (settleAll o 4
            (fst (jappend {| opt_bufferFlushThreshold := opt_bufferFlushThreshold options;
                             opt_pretty := opt_pretty options;
                             opt_indent := opt_indent options;
                             opt_initArray := Some false |} newData f)))
       Reaction.

(** How many file operations a cycle that is not interrupted still awaits,
    at most. *)
Definition rank (a : Await) : nat :=
  match a with
  | AwaitOpen _ _ => 6
  | AwaitStat _ _ => 5
  | AwaitRead _ _ _ _ => 4
  | AwaitTruncate _ _ _ => 3
  | AwaitWriteInit _ _ | AwaitWrite _ _ _ => 2
  | AwaitClose _ _ => 1
  | Returned _ => 0
  end.

(** The calls a first iteration has made when it is suspended at [a], the
    cycle having started with [w] calls of [write] and [o] calls of [open]
    in the log, and nothing having been appended since. *)
Definition firstIteration (w o : nat) (a : Await) (st : State) : Prop :=
  match a with
  | AwaitOpen _ None | AwaitStat _ _ | AwaitRead _ _ _ _ | AwaitTruncate _ _ _ =>
      buffer st = [] /\ writeCalls st = w /\ openCalls st = S o
  | AwaitWriteInit _ _ | AwaitWrite _ _ _ | AwaitClose _ None | Returned Fulfilled =>
      buffer st = [] /\ writeCalls st = S w /\ openCalls st = S o
  | AwaitClose _ (Some _) | Returned (Rejected _) => True
  | AwaitOpen _ (Some _) => False
  end.

(** An empty array on disk and one entry queued. *)
Definition oneQueued : State :=
  fst (append (sampleOptions (Finite 5)) (sampleEntry "1")
              (newWriter (newFileSystem (Some (chars "[]"))))).

(** [flush] called twice on [oneQueued], the cycle left to run. *)
Definition flushedTwice : State :=
  let o := sampleOptions (Finite 5) in
  step o (settleAll o 6 (fst (flush o false (fst (flush o false oneQueued))))) Reaction.

(* ------------------------------------------------------------------ *)
(** ** Shapes of texts *)

(** The characters a JSON text cannot start with. *)
Definition notStart (c : ascii) : bool :=
  isSpace c || isJsonWs c || (c =? "]") || (c =? "}") || (c =? ",") || (c =? ":").

(** The characters a JSON text cannot end with. *)
Definition notEnd (c : ascii) : bool := isSpace c || (c =? "[").

(** [s] is empty or starts with a character outside the class [p]. *)
Definition stops (p : ascii -> bool) (s : str) : Prop :=
  match s with
  | [] => True
  | c :: _ => p c = false
  end.

(** [t] starts and ends as a JSON text does. *)
Definition wellEnded (t : str) : Prop :=
  (exists c t', t = c :: t' /\ notStart c = false) /\
  (exists t' d, t = t' ++ [d] /\ notEnd d = false).

(* ------------------------------------------------------------------ *)
(** ** The tail scanner, on a file whose operations succeed *)

(** [readFileTail(fileHandle)]: [stat], [read] of the last fifty bytes at
    most, then the scan.  The indices of the scan are those of the decoded
    string, which the code adds to the byte offset [readPosition]; they are
    byte counts when the window is 7-bit, the case the theorems on the scan
    of an arbitrary file are stated for. *)
Definition readFileTail (f : FileSystem) : TailScan :=
  let size := fs_size f in
  let bufferSize := Nat.min size 50 in
  let readPosition := size - bufferSize in
  scanTail (fs_read bufferSize readPosition f) readPosition.

(** The file system that holds [text]. *)
Definition fileWith (text : str) : FileSystem := newFileSystem (Some text).

(** What [truncate(truncatePosition)] followed by
    [write(insertion, truncatePosition)] leave of a file that held [text]. *)
Definition patchedContent (options : RequiredOptions) (dataToWrite : list json)
           (text : str) : str :=
  let patch := buildInsertion options dataToWrite (readFileTail (fileWith text)) in
  firstn (Z.to_nat (truncatePosition patch)) text ++ insertion patch.

(* ------------------------------------------------------------------ *)
(** ** A whole cycle *)

(** [write] and [truncate] on the content alone. *)
Definition writeText (data : str) (position : option Z) (text : str) : str + Error :=
  let position := orElse position (Z.of_nat (length text)) in
  if ((position <? 0) || (Z.of_nat (length text) <? position))%Z then
    inr PositionOutOfBounds
  else
    let p := Z.to_nat position in
    inl (firstn p text ++ data ++ skipn (p + length data) text).

Definition truncateText (len : Z) (text : str) : str :=
  bytes (fs_truncate len (fileWith text)).

(** How a cycle ends when nothing is appended and no operation is rejected
    from outside, from the write on: the outcome, the content of the file and
    the queue. *)
Definition afterWrite (d : list json) (data : str) (position : option Z)
           (text : option str) (b : list json) : Outcome * option str * list json :=
  match writeText data position (orElse text []) with
  | inl t => (Fulfilled, Some t, b)
  | inr e => (Rejected e, text, d ++ b)
  end.

(** The same from the scan on. *)
Definition afterRead (options : RequiredOptions) (d : list json)
           (bufferSize readPosition : nat) (text : option str) (b : list json)
  : Outcome * option str * list json :=
  let scan := scanTail (fs_read bufferSize readPosition (newFileSystem text)) readPosition in
  if isEmpty (trimmedFileTail scan) && initArray options then
    afterWrite d (JSON_stringify (JArray d) (indent options)) None text b
  else if (lastBracketIndex scan =? -1)%Z then (Rejected NotAJsonArray, text, d ++ b)
  else
    let patch := buildInsertion options d scan in
    afterWrite d (insertion patch) (Some (truncatePosition patch))
               (Some (truncateText (truncatePosition patch) (orElse text []))) b.

Definition afterOpen (options : RequiredOptions) (d : list json)
           (text : option str) (b : list json) : Outcome * option str * list json :=
  let size := length (orElse text []) in
  afterRead options d (Nat.min size 50) (size - Nat.min size 50) text b.

(** The same from any point of the cycle. *)
Definition finish (options : RequiredOptions) (a : Await) (text : option str)
           (b : list json) : Outcome * option str * list json :=
  match a with
  | AwaitOpen d _ =>
      match text with
      | Some _ => afterOpen options d text b
      | None =>
          if initArray options then afterOpen options d (Some []) b
          else (Rejected ENOENT, None, d ++ b)
      end
  | AwaitStat d _ => afterOpen options d text b
  | AwaitRead d _ bufferSize readPosition =>
      afterRead options d bufferSize readPosition text b
  | AwaitWriteInit d _ =>
      afterWrite d (JSON_stringify (JArray d) (indent options)) None text b
  | AwaitTruncate d _ patch =>
      afterWrite d (insertion patch) (Some (truncatePosition patch))
                 (Some (truncateText (truncatePosition patch) (orElse text []))) b
  | AwaitWrite d _ patch =>
      afterWrite d (insertion patch) (Some (truncatePosition patch)) text b
  | AwaitClose _ None => (Fulfilled, text, b)
  | AwaitClose _ (Some e) => (Rejected e, text, b)
  | Returned result => (result, text, b)
  end.

(** [flush] on an idle writer, then six operations that succeed, then the
    callback of [flush]. *)
Definition flushAndSettle (options : RequiredOptions) (st : State) : State :=
  step options (settleAll options 6 (fst (flush options false st))) Reaction.

(** The options under which the writer reproduces the format of
    [JSON.stringify]: pretty with an indentation from one to ten, or not
    pretty with the indentation [convertOptions] then gives, zero. *)
Definition formatsLikeStringify (options : RequiredOptions) : Prop :=
  (pretty options = true /\ 1 <= indent options <= 10) \/
  (pretty options = false /\ indent options = 0).

(** The items of a serialized array, as [join] puts them together. *)
Definition itemsText (indent : nat) (dataToWrite : list json) : str :=
  let gap := spaces (Nat.min 10 indent) in
  join (if isEmpty gap then [","] else "," :: "010" :: gap)
       (map (serialize gap gap) dataToWrite).

(* ------------------------------------------------------------------ *)
(** ** Sample states *)

(** An idle writer whose queue holds [batch], on a file that holds [text]
    ([None]: no file). *)
Definition queued (batch : list json) (text : option str) : State :=
  setBuffer batch (newWriter (newFileSystem text)).

(** The default options: pretty, indentation two, auto-initialization. *)
Definition defaults : RequiredOptions := sampleOptions (Finite 1).

(* ------------------------------------------------------------------ *)
(** ** [jappend], awaited *)

(** The options [jappend] gives its writer. *)
Definition jappendOptions (options : WriterOptions) : RequiredOptions :=
  convertOptions {| opt_bufferFlushThreshold := Some (Finite 1);
                    opt_pretty := opt_pretty options;
                    opt_indent := opt_indent options;
                    opt_initArray := opt_initArray options |}.

(** [await jappend(filePath, newData, options)] on a file that holds [text]:
    the operations on the file succeed one after the other, then the
    callback of [flush] runs. *)
Definition jappendAwaited (options : WriterOptions) (newData : json)
           (text : option str) : State :=
  let o := jappendOptions options in
  step o (settleAll o 6 (fst (jappend options newData (newFileSystem text)))) Reaction.

(** One awaited [jappend] per entry, each on the file the former left. *)
Definition jappendEach (options : WriterOptions) (entries : list json)
           (text : option str) : option str :=
  fold_left (fun text newData => content (fsys (jappendAwaited options newData text)))
            entries text.

(* ------------------------------------------------------------------ *)
(** ** The entries a writer still has to write *)

(** The batch of the cycle while it is inside [try], then the queue. *)
Definition pending (st : State) : list json :=
  match flushPromise st with
  | Some (_, a) => orElse (inTry a) [] ++ buffer st
  | None => buffer st
  end.

(** What an event adds to the queue. *)
Definition acceptedBy (st : State) (ev : Event) : list json :=
  match ev with
  | Append newData => if isShutdown st then [] else [newData]
  | _ => []
  end.

Fixpoint accepted (options : RequiredOptions) (st : State) (evs : list Event)
  : list json :=
  match evs with
  | [] => []
  | ev :: evs => acceptedBy st ev ++ accepted options (step options st ev) evs
  end.

(** The entries a step puts in the file: the batch of the cycle when the
    write the cycle awaits ([write] of the serialized batch, or [write] of
    the insertion) is carried out by the file system, and nothing in every
    other case (another operation, a write that is rejected or fails). *)
Definition writes (options : RequiredOptions) (a : Await) (fault : option Error)
           (f : FileSystem) : list json :=
  match fault, a with
  | None, AwaitWriteInit d _ =>
      match fs_write (JSON_stringify (JArray d) (indent options)) None f with
      | inl _ => d
      | inr _ => []
      end
  | None, AwaitWrite d _ patch =>
      match fs_write (insertion patch) (Some (truncatePosition patch)) f with
      | inl _ => d
      | inr _ => []
      end
  | _, _ => []
  end.

Definition writtenAt (options : RequiredOptions) (st : State) (ev : Event) : list json :=
  match ev, flushPromise st with
  | Settle fault, Some (_, a) => writes options a fault (fsys st)
  | _, _ => []
  end.

(** The entries written during a run, in the order of the writes. *)
Fixpoint writtenIn (options : RequiredOptions) (st : State) (evs : list Event)
  : list json :=
  match evs with
  | [] => []
  | ev :: evs => writtenAt options st ev ++ writtenIn options (step options st ev) evs
  end.

(** The arguments of the calls of [append], in the order of the calls. *)
Definition appended (evs : list Event) : list json :=
  flat_map (fun ev => match ev with Append newData => [newData] | _ => [] end) evs.

Definition shuts (ev : Event) : bool :=
  match ev with Flush true => true | _ => false end.

(* ------------------------------------------------------------------ *)
(** ** The handle of a cycle *)

(** The handles that are open while a cycle that opens the file once is
    suspended at [a]: those that were open before it started, [base], and
    the one the cycle holds in [fileHandle], which is [next], the handle the
    file system had not yet handed out. *)
Definition holdsOneHandle (base : list Handle) (next : Handle) (a : Await)
           (f : FileSystem) : Prop :=
  (forall h, In h base -> h < next) /\
  match a with
  | AwaitOpen _ None => openHandles f = base /\ nextHandle f = next
  | AwaitOpen _ (Some _) => False
  | AwaitStat _ h | AwaitRead _ h _ _ | AwaitWriteInit _ h
  | AwaitTruncate _ h _ | AwaitWrite _ h _ | AwaitClose h _ =>
      openHandles f = h :: base /\ h = next /\ nextHandle f = S next
  | Returned _ => openHandles f = base /\ nextHandle f <= S next
  end.

(* ------------------------------------------------------------------ *)
(** ** A cycle whose write is rejected *)

(** [flush] is called; [open], [stat], [read] and [truncate] succeed; the
    write of the patch is rejected with [e]; [close] succeeds and the
    callback of [flush] runs. *)
Definition writeRejected (options : RequiredOptions) (e : Error) (st : State) : State :=
  run options (settleAll options 4 (fst (flush options false st)))
      [Settle (Some e); Settle None; Reaction].

(* ------------------------------------------------------------------ *)
(** ** An entry appended while the write is pending *)

(** [flush] is called; [open], [stat], [read] and [truncate] succeed;
    [append(newData)] is called while the write of the patch is pending; the
    write succeeds, the loop goes round again and its six operations
    succeed; the callback of [flush] runs. *)
Definition appendDuringWrite (options : RequiredOptions) (newData : json)
           (st : State) : State :=
  let writing := settleAll options 4 (fst (flush options false st)) in
  let appended := fst (append options newData writing) in
  step options (settleAll options 6 (step options appended (Settle None))) Reaction.

(* ------------------------------------------------------------------ *)
(** ** A cycle that fails before it writes *)

(** How many operations a cycle suspended inside [try] has behind it. *)
Definition depth (a : Await) : nat :=
  match a with
  | AwaitOpen _ _ => 0
  | AwaitStat _ _ => 1
  | AwaitRead _ _ _ _ => 2
  | AwaitTruncate _ _ _ | AwaitWriteInit _ _ => 3
  | AwaitWrite _ _ _ => 4
  | AwaitClose _ _ | Returned _ => 0
  end.

(** A cycle on the batch [d] that has not touched the bytes [text] of the
    file: it is inside [try] with at most [j] operations behind it and the
    queue is empty, or it has thrown and the batch is back in the queue. *)
Definition untouched (d : list json) (text : str) (j : nat) (a : Await) (s : State)
  : Prop :=
  bytes (fsys s) = text /\
  ((inTry a = Some d /\ buffer s = [] /\ depth a <= j) \/
   (thrown a <> None /\ buffer s = d)).

(** [flush] is called, [k] operations succeed, the next one is rejected with
    [e], [close] succeeds and the callback of [flush] runs. *)
Definition rejectedAfter (options : RequiredOptions) (k : nat) (e : Error)
           (st : State) : State :=
  run options (settleAll options k (fst (flush options false st)))
      [Settle (Some e); Settle None; Reaction].

(* ================================================================== *)
(** * Properties of the regular expression *)

Lemma matchHere_star (p : ascii -> bool) (re : list Atom) (s : str) :
  matchHere (AStar p :: re) s =
  matchHere re s ||
  match s with
  | c :: r => p c && matchHere (AStar p :: re) r
  | [] => false
  end.
Proof. destruct s; reflexivity. Qed.

Lemma matchHere_bracket_end (s : str) :
  matchHere [AClass (fun c => c =? "]"); AEnd] s = true <-> s = ["]"].
Proof.
  split.
  - destruct s as [|c [|d r]]; simpl; try discriminate.
    + rewrite andb_true_r. intro H. apply Ascii.eqb_eq in H. now subst.
    + rewrite andb_false_r. discriminate.
  - intros ->. reflexivity.
Qed.

Lemma matchHere_spaces_bracket (s : str) :
  matchHere [AStar isSpace; AClass (fun c => c =? "]"); AEnd] s = true <->
  exists w, s = w ++ ["]"] /\ forallb isSpace w = true.
Proof.
  induction s as [|c r IH].
  - split; [discriminate|]. intros (w & H & _). now destruct w.
  - rewrite matchHere_star. rewrite orb_true_iff, andb_true_iff.
    rewrite matchHere_bracket_end, IH. split.
    + intros [H | [Hc (w & -> & Hw)]].
      * exists []. now rewrite H.
      * exists (c :: w). simpl. now rewrite Hc, Hw.
    + intros (w & H & Hw). destruct w as [|d w]; simpl in *.
      * left. exact H.
      * right. injection H as -> ->. apply andb_true_iff in Hw as [Hd Hw].
        split; [exact Hd|]. now exists w.
Qed.

Lemma matchHere_commaRegex (s : str) :
  matchHere commaRegex s = true <->
  exists c w, s = c :: w ++ ["]"] /\ isSpace c = false /\ c <> "[" /\
              forallb isSpace w = true.
Proof.
  unfold commaRegex. destruct s as [|c r].
  - split; [discriminate|]. now intros (c & w & H & _).
  - change (matchHere (AClass ?p :: ?re) (c :: r)) with (p c && matchHere re r).
    rewrite andb_true_iff, matchHere_spaces_bracket, negb_true_iff, orb_false_iff.
    split.
    + intros [[Hs Hb] (w & -> & Hw)]. exists c, w. repeat split; auto.
      intros ->. discriminate.
    + intros (c' & w & H & Hs & Hb & Hw). injection H as <- ->.
      repeat split; auto.
      * apply Ascii.eqb_neq. exact Hb.
      * now exists w.
Qed.

Lemma regexTest_commaRegex (s : str) :
  regexTest commaRegex s = true <->
  exists pre c w, s = pre ++ c :: w ++ ["]"] /\ isSpace c = false /\ c <> "[" /\
                  forallb isSpace w = true.
Proof.
  induction s as [|x r IH].
  - split; [discriminate|]. intros (pre & c & w & H & _). now destruct pre.
  - change (regexTest commaRegex (x :: r))
      with (matchHere commaRegex (x :: r) || regexTest commaRegex r).
    rewrite orb_true_iff, matchHere_commaRegex, IH. split.
    + intros [(c & w & H & Hc) | (pre & c & w & -> & Hc)].
      * exists [], c, w. now split.
      * exists (x :: pre), c, w. now split.
    + intros (pre & c & w & H & Hc). destruct pre as [|y pre]; simpl in H.
      * left. now exists c, w.
      * right. injection H as -> ->. now exists pre, c, w.
Qed.

(** C7. The insertion starts with a separating comma exactly when the
    trimmed tail ends in a character that is neither white space nor [[],
    followed (after optional white space, as in a pretty-printed file) by the
    closing bracket; the tail "[1,2]" receives the comma, the tail "[]" does
    not. *)
Theorem buildInsertion_comma :
  forall (options : RequiredOptions) (dataToWrite : list json) (scan : TailScan),
    (endsInElement (trimmedFileTail scan) <->
     insertion (buildInsertion options dataToWrite scan)
     = "," :: insertionBody options dataToWrite) /\
    (~ endsInElement (trimmedFileTail scan) <->
     insertion (buildInsertion options dataToWrite scan)
     = insertionBody options dataToWrite) /\
    (forall fileTail, trim fileTail = chars "[1,2]" ->
       insertion (buildInsertion options dataToWrite (scanTail fileTail 0))
       = "," :: insertionBody options dataToWrite) /\
    (forall fileTail, trim fileTail = chars "[]" ->
       insertion (buildInsertion options dataToWrite (scanTail fileTail 0))
       = insertionBody options dataToWrite).
Proof.
  intros options dataToWrite scan.
  assert (Hlen : forall b : str, "," :: b <> b).
  { intros b H. apply (f_equal (@length ascii)) in H. simpl in H. lia. }
  unfold buildInsertion, insertionBody, shouldInsertComma; simpl.
  repeat split.
  - intros H. apply regexTest_commaRegex in H. now rewrite H.
  - intros H. apply regexTest_commaRegex.
    destruct (regexTest commaRegex (trimmedFileTail scan)); [reflexivity|].
    simpl in H. symmetry in H. now apply Hlen in H.
  - intros H. destruct (regexTest commaRegex (trimmedFileTail scan)) eqn:E; [|reflexivity].
    apply regexTest_commaRegex in E. contradiction.
  - intros H E. apply regexTest_commaRegex in E. rewrite E in H. now apply Hlen in H.
  - intros fileTail E. rewrite E. reflexivity.
  - intros fileTail E. rewrite E. reflexivity.
Qed.

(* ================================================================== *)
(** * Properties of the state machine *)

Lemma step_settle (options : RequiredOptions) (st : State) (p : Promise)
      (a : Await) (fault : option Error) :
  flushPromise st = Some (p, a) ->
  step options st (Settle fault) =
  setFlushPromise (Some (p, snd (resume options a fault st)))
                  (fst (resume options a fault st)).
Proof.
  intros H. unfold step. rewrite H. now destruct (resume options a fault st).
Qed.

Lemma run_app (options : RequiredOptions) (st : State) (evs1 evs2 : list Event) :
  run options st (evs1 ++ evs2) = run options (run options st evs1) evs2.
Proof. apply fold_left_app. Qed.

Lemma loopTest_frame (options : RequiredOptions) (fh : option Handle) (st : State) :
  let r := fst (loopTest options fh st) in
  flushPromise r = flushPromise st /\ isShutdown r = isShutdown st /\
  settled r = settled st /\ nextPromise r = nextPromise st.
Proof. unfold loopTest. destruct (buffer st), fh; simpl; auto. Qed.

Lemma throwInTry_frame (d : list json) (fh : option Handle) (e : Error) (st : State) :
  let r := fst (throwInTry d fh e st) in
  flushPromise r = flushPromise st /\ isShutdown r = isShutdown st /\
  settled r = settled st /\ nextPromise r = nextPromise st /\
  buffer r = d ++ buffer st /\ content (fsys r) = content (fsys st) /\
  thrown (snd (throwInTry d fh e st)) = Some e.
Proof. unfold throwInTry. destruct fh; simpl; auto 10. Qed.

Lemma resume_frame (options : RequiredOptions) (a : Await) (fault : option Error)
      (st : State) :
  let r := fst (resume options a fault st) in
  flushPromise r = flushPromise st /\ isShutdown r = isShutdown st /\
  settled r = settled st /\ nextPromise r = nextPromise st.
Proof.
  destruct a; simpl; destruct fault; simpl; unfold throwInTry, loopTest;
    repeat (match goal with
            | |- context [match ?x with _ => _ end] => destruct x eqn:?
            end; simpl);
    auto.
Qed.

(** A call of [flush] while a cycle is pending changes nothing but the
    latch. *)
Lemma flush_pending (options : RequiredOptions) (shutdown : bool) (st : State)
      (p : Promise) (a : Await) :
  flushPromise st = Some (p, a) ->
  flush options shutdown st = (if shutdown then setShutdown true st else st, p).
Proof. intros H. unfold flush. now rewrite H. Qed.

Lemma flush_flushPromise (options : RequiredOptions) (shutdown : bool) (st : State) :
  exists a, flushPromise (fst (flush options shutdown st))
            = Some (snd (flush options shutdown st), a).
Proof.
  unfold flush. destruct (flushPromise st) as [[p a]|] eqn:E.
  - exists a. destruct shutdown; simpl; exact E.
  - destruct (ensureAllIsFlushed options _) as [st' a]. simpl. now exists a.
Qed.

Lemma ensureAllIsFlushed_frame (options : RequiredOptions) (st : State) :
  let r := fst (ensureAllIsFlushed options st) in
  flushPromise r = flushPromise st /\ isShutdown r = isShutdown st /\
  settled r = settled st /\ nextPromise r = nextPromise st.
Proof.
  unfold ensureAllIsFlushed. destruct (buffer st) eqn:E; simpl; auto.
  pose proof (loopTest_frame options None st) as L. exact L.
Qed.

Lemma flush_fresh (options : RequiredOptions) (shutdown : bool) (st : State) :
  promisesFresh st -> promisesFresh (fst (flush options shutdown st)).
Proof.
  intros [Hs Hf]. unfold flush. destruct (flushPromise st) as [[p a]|] eqn:E.
  - destruct shutdown; split; simpl; auto; rewrite E; exact Hf.
  - pose proof (ensureAllIsFlushed_frame options
                  (if shutdown then setShutdown true st else st)) as F.
    destruct (ensureAllIsFlushed options _) as [st' a]. simpl in *.
    destruct F as (_ & _ & F3 & F4).
    assert (nextPromise st' = nextPromise st /\ settled st' = settled st) as [N S']
      by (destruct shutdown; simpl in *; auto).
    split; simpl.
    + intros p o H. rewrite S' in H. apply Hs in H. lia.
    + intros p a' H. injection H as <- _. lia.
Qed.

Lemma step_fresh (options : RequiredOptions) (st : State) (ev : Event) :
  promisesFresh st -> promisesFresh (step options st ev).
Proof.
  intros H. destruct ev as [newData|shutdown|fault|]; simpl.
  - unfold append. destruct (isShutdown st); [exact H|].
    set (st1 := setBuffer _ st).
    assert (H1 : promisesFresh st1) by exact H.
    destruct (isFull _ _); [|exact H1].
    pose proof (flush_fresh options false st1 H1) as F.
    now destruct (flush options false st1).
  - now apply flush_fresh.
  - destruct (flushPromise st) as [[p a]|] eqn:E; [|exact H].
    pose proof (resume_frame options a fault st) as (F1 & _ & F3 & F4).
    destruct (resume options a fault st) as [st' a']. simpl in *.
    destruct H as [Hs Hf]. split; simpl.
    + intros q o Hq. rewrite F3 in Hq. rewrite F4. eauto.
    + intros q b Hq. injection Hq as <- _. rewrite F4. eauto.
  - destruct (flushPromise st) as [[p [| | | | | | |result]]|] eqn:E; try exact H.
    destruct H as [Hs Hf]. split; simpl.
    + intros q o [Hq|Hq]; [injection Hq as <- _|]; eauto.
    + discriminate.
Qed.

Lemma outcomeOf_cons (p q : Promise) (o : Outcome) (st st' : State) :
  settled st' = (q, o) :: settled st ->
  outcomeOf p st' = if Nat.eqb q p then Some o else outcomeOf p st.
Proof.
  intros H. unfold outcomeOf. rewrite H. simpl. now destruct (Nat.eqb q p).
Qed.

Lemma outcomeOf_fresh (p : Promise) (st : State) :
  (forall q o, In (q, o) (settled st) -> q < p) -> outcomeOf p st = None.
Proof.
  intros H. unfold outcomeOf.
  destruct (find (fun x => Nat.eqb (fst x) p) (settled st)) as [[q o]|] eqn:E;
    [|reflexivity].
  apply find_some in E as [Hin Heq]. simpl in Heq.
  apply Nat.eqb_eq in Heq. subst q. apply H in Hin. lia.
Qed.

(** A settled promise keeps its outcome. *)
Lemma step_outcome_stable (options : RequiredOptions) (st : State) (ev : Event)
      (p : Promise) (o : Outcome) :
  promisesFresh st -> p < nextPromise st ->
  (forall a, flushPromise st <> Some (p, a)) ->
  outcomeOf p st = Some o ->
  outcomeOf p (step options st ev) = Some o /\
  p < nextPromise (step options st ev) /\
  (forall a, flushPromise (step options st ev) <> Some (p, a)).
Proof.
  intros Hfresh Hlt Hnot Ho.
  assert (Hflush : forall shutdown st1,
             settled st1 = settled st -> nextPromise st1 = nextPromise st ->
             flushPromise st1 = flushPromise st ->
             let r := fst (flush options shutdown st1) in
             outcomeOf p r = Some o /\ p < nextPromise r /\
             (forall a, flushPromise r <> Some (p, a))).
  { intros shutdown st1 S1 N1 F1. unfold flush. rewrite F1.
    destruct (flushPromise st) as [[q b]|] eqn:E.
    - destruct shutdown; simpl; unfold outcomeOf in *; simpl; rewrite ?S1, ?N1, ?F1, ?E;
        repeat split; auto.
    - pose proof (ensureAllIsFlushed_frame options
                    (if shutdown then setShutdown true st1 else st1)) as F.
      destruct (ensureAllIsFlushed options _) as [st' a']. simpl in *.
      destruct F as (_ & _ & F3 & F4).
      assert (nextPromise st' = nextPromise st /\ settled st' = settled st) as [N S']
        by (destruct shutdown; simpl in *; split; congruence).
      unfold outcomeOf in *. simpl. rewrite S'. repeat split; auto; try lia.
      intros a H. injection H as H _. lia. }
  destruct ev as [newData|shutdown|fault|]; simpl.
  - unfold append. destruct (isShutdown st); [auto|].
    destruct (isFull _ _).
    + specialize (Hflush false (setBuffer (buffer st ++ [newData]) st) eq_refl eq_refl eq_refl).
      now destruct (flush options false _).
    + simpl. auto.
  - apply Hflush; reflexivity.
  - destruct (flushPromise st) as [[q a]|] eqn:E;
      [|repeat split; auto; rewrite E; discriminate].
    pose proof (resume_frame options a fault st) as (F1 & _ & F3 & F4).
    destruct (resume options a fault st) as [st' a']. simpl in *.
    unfold outcomeOf in *. simpl. rewrite F3, F4. repeat split; auto.
    intros b H. injection H as -> _. now apply (Hnot a).
  - destruct (flushPromise st) as [[q [| | | | | | |result]]|] eqn:E;
      try (repeat split; auto; rewrite E; auto; fail).
    unfold outcomeOf in *. simpl.
    destruct (Nat.eqb q p) eqn:Q.
    + apply Nat.eqb_eq in Q. subst q. now destruct (Hnot (Returned result)).
    + repeat split; auto. discriminate.
Qed.

Lemma run_fresh (options : RequiredOptions) (evs : list Event) (st : State) :
  promisesFresh st -> promisesFresh (run options st evs).
Proof.
  revert st. induction evs as [|e evs IH]; intros st H; simpl; auto.
  apply IH. now apply step_fresh.
Qed.

Lemma run_outcome_stable (options : RequiredOptions) (evs : list Event) (st : State)
      (p : Promise) (o : Outcome) :
  promisesFresh st -> p < nextPromise st ->
  (forall a, flushPromise st <> Some (p, a)) ->
  outcomeOf p st = Some o ->
  outcomeOf p (run options st evs) = Some o /\
  p < nextPromise (run options st evs) /\
  (forall a, flushPromise (run options st evs) <> Some (p, a)).
Proof.
  revert st. induction evs as [|e evs IH]; intros st A C D B; simpl; auto.
  destruct (step_outcome_stable options st e p o A C D B) as (B' & C' & D').
  apply IH; auto. now apply step_fresh.
Qed.

(** The promise a call of [flush] returns settles with the result of the
    cycle it follows, whatever happens meanwhile: as long as the cycle is
    pending the promise is pending, and once it is settled its outcome is the
    one [ensureAllIsFlushed] returned. *)
Lemma promise_follows_cycle (options : RequiredOptions) (evs : list Event) :
  forall (st : State) (p : Promise) (a : Await),
    promisesFresh st -> flushPromise st = Some (p, a) -> outcomeOf p st = None ->
    let st' := run options st evs in
    (exists a', flushPromise st' = Some (p, a') /\ outcomeOf p st' = None) \/
    (exists o evs1 evs2,
        evs = evs1 ++ Reaction :: evs2 /\
        flushPromise (run options st evs1) = Some (p, Returned o) /\
        outcomeOf p st' = Some o /\
        p < nextPromise st' /\ forall b, flushPromise st' <> Some (p, b)).
Proof.
  induction evs as [|ev evs IH] using rev_ind; intros st p a Hfresh Hp Hnone; simpl.
  - left. now exists a.
  - rewrite run_app. simpl.
    pose proof (run_fresh options evs st Hfresh) as Hfresh'.
    destruct (IH st p a Hfresh Hp Hnone)
      as [(a' & Ha' & Hn)|(o & evs1 & evs2 & -> & Hret & Ho & Hlt & Hnot)].
    + set (s := run options st evs) in *.
      destruct ev as [newData|shutdown|fault|]; simpl.
      * left. unfold append. destruct (isShutdown s); [now exists a'|].
        destruct (isFull _ _).
        -- rewrite (flush_pending options false _ p a') by exact Ha'. simpl.
           now exists a'.
        -- simpl. now exists a'.
      * left. rewrite (flush_pending options shutdown _ p a') by exact Ha'.
        exists a'. destruct shutdown; simpl; auto.
      * left. rewrite Ha'.
        pose proof (resume_frame options a' fault s) as (_ & _ & F3 & _).
        destruct (resume options a' fault s) as [s' b]. simpl in *.
        exists b. split; [reflexivity|]. unfold outcomeOf in *. simpl. now rewrite F3.
      * rewrite Ha'. destruct a' as [| | | | | | |result]; try (left; eauto; fail).
        right. exists result, evs, []. destruct Hfresh' as [Hs Hf].
        repeat split; simpl; auto.
        -- unfold outcomeOf. simpl. now rewrite Nat.eqb_refl.
        -- eauto.
        -- discriminate.
    + right. exists o, evs1, (evs2 ++ [ev]). split; [now rewrite <- app_assoc|].
      split; [exact Hret|].
      exact (step_outcome_stable options _ ev p o Hfresh' Hlt Hnot Ho).
Qed.

(** The states a writer reaches from its construction keep the promise of
    a pending cycle unsettled. *)
Lemma pending_unsettled (options : RequiredOptions) (f : FileSystem) (evs : list Event) :
  let st := run options (newWriter f) evs in
  promisesFresh st /\
  forall p a, flushPromise st = Some (p, a) -> outcomeOf p st = None.
Proof.
  assert (F0 : promisesFresh (newWriter f)) by (split; simpl; [tauto|discriminate]).
  split; [now apply run_fresh|].
  induction evs as [|ev evs IH] using rev_ind; [discriminate|].
  intros p a. rewrite run_app. simpl.
  pose proof (run_fresh options evs _ F0) as Hfresh.
  set (s := run options (newWriter f) evs) in *.
  assert (Hflush : forall shutdown s1,
             settled s1 = settled s -> nextPromise s1 = nextPromise s ->
             flushPromise s1 = flushPromise s ->
             flushPromise (fst (flush options shutdown s1)) = Some (p, a) ->
             outcomeOf p (fst (flush options shutdown s1)) = None).
  { intros shutdown s1 S1 N1 F1. unfold flush. rewrite F1.
    destruct (flushPromise s) as [[q b]|] eqn:E.
    - specialize (IH q b eq_refl). unfold outcomeOf in *.
      destruct shutdown; simpl; rewrite F1, S1; intros H; injection H as <- _; exact IH.
    - pose proof (ensureAllIsFlushed_frame options
                    (if shutdown then setShutdown true s1 else s1)) as F.
      destruct (ensureAllIsFlushed options _) as [s' a']. simpl in *.
      destruct F as (_ & _ & F3 & F4).
      assert (nextPromise s' = nextPromise s /\ settled s' = settled s) as [N S']
        by (destruct shutdown; simpl in *; split; congruence).
      intros H. injection H as <- _. apply outcomeOf_fresh. simpl. rewrite S', N.
      apply Hfresh. }
  destruct ev as [newData|shutdown|fault|]; simpl.
  - unfold append. destruct (isShutdown s); [apply IH|].
    destruct (isFull _ _).
    + specialize (Hflush false (setBuffer (buffer s ++ [newData]) s) eq_refl eq_refl eq_refl).
      now destruct (flush options false _).
    + simpl. apply IH.
  - apply Hflush; reflexivity.
  - destruct (flushPromise s) as [[q b]|] eqn:E; [|now rewrite E].
    pose proof (resume_frame options b fault s) as (_ & _ & F3 & _).
    destruct (resume options b fault s) as [s' b']. simpl in *.
    intros H. injection H as <- _. specialize (IH q b eq_refl).
    unfold outcomeOf in *. simpl. now rewrite F3.
  - destruct (flushPromise s) as [[q b]|] eqn:E; [|rewrite E; discriminate].
    destruct b;
      try (rewrite E; intros H; inversion H; subst; eapply IH; reflexivity).
    simpl. discriminate.
Qed.

(** The promise of a pending cycle: once [ensureAllIsFlushed] has returned
    [Rejected e] and the callback of [flush] has run, the promise is rejected
    with [e]; and whenever the promise is settled, its outcome is the result
    the cycle returned. *)
Lemma promise_delivers (options : RequiredOptions) (f : FileSystem)
      (history : list Event) (p : Promise) (a : Await) :
  let st := run options (newWriter f) history in
  flushPromise st = Some (p, a) ->
  forall future : list Event,
    (forall e future',
        flushPromise (run options st future) = Some (p, Returned (Rejected e)) ->
        outcomeOf p (run options st (future ++ Reaction :: future')) = Some (Rejected e)) /\
    (forall o,
        outcomeOf p (run options st future) = Some o ->
        exists evs1 evs2,
          future = evs1 ++ Reaction :: evs2 /\
          flushPromise (run options st evs1) = Some (p, Returned o)).
Proof.
  intros st Hp future.
  destruct (pending_unsettled options f history) as [Hfresh Hun].
  fold st in Hfresh, Hun. specialize (Hun p a Hp).
  pose proof (promise_follows_cycle options future st p a Hfresh Hp Hun) as H.
  simpl in H. split.
  - intros e future' Hret. rewrite run_app. simpl.
    destruct H as [(a' & Ha' & Hn)|(o & evs1 & evs2 & _ & _ & _ & _ & Hnot)];
      [|now apply Hnot in Hret].
    pose proof (run_fresh options future st Hfresh) as [Hs Hf].
    rewrite Hret.
    apply run_outcome_stable.
    + split; simpl; [|discriminate].
      intros q o [E|E]; [injection E as <- _|]; eauto.
    + simpl. eauto.
    + simpl. discriminate.
    + unfold outcomeOf. simpl. now rewrite Nat.eqb_refl.
  - intros o Ho.
    destruct H as [(a' & Ha' & Hn)|(o' & evs1 & evs2 & E & Hret & Ho' & _)];
      [congruence|].
    exists evs1, evs2. split; [exact E|]. congruence.
Qed.


(* ------------------------------------------------------------------ *)
(** ** The shutdown latch *)

Lemma resume_latch (options : RequiredOptions) (a : Await) (fault : option Error)
      (b : bool) (st : State) :
  resume options a fault (setShutdown b st)
  = (setShutdown b (fst (resume options a fault st)), snd (resume options a fault st)).
Proof.
  destruct a; simpl; destruct fault; simpl; unfold throwInTry, loopTest; simpl;
    repeat (match goal with
            | |- context [match ?x with _ => _ end] => destruct x eqn:?
            end; simpl);
    reflexivity.
Qed.

Lemma flush_latch (options : RequiredOptions) (shutdown : bool) (st : State) :
  flush options shutdown (setShutdown true st)
  = (setShutdown true (fst (flush options shutdown st)),
     snd (flush options shutdown st)).
Proof.
  unfold flush. simpl. destruct (flushPromise st) as [[p a]|].
  - now destruct shutdown.
  - unfold ensureAllIsFlushed, loopTest.
    destruct shutdown; simpl; destruct (buffer st); reflexivity.
Qed.

Lemma step_latch (options : RequiredOptions) (st : State) (ev : Event) :
  isAppend ev = false ->
  step options (setShutdown true st) ev = setShutdown true (step options st ev).
Proof.
  destruct ev as [newData|shutdown|fault|]; [discriminate| | |]; intros _; simpl.
  - now rewrite flush_latch.
  - destruct (flushPromise st) as [[p a]|]; [|reflexivity].
    rewrite resume_latch. now destruct (resume options a fault st).
  - destruct (flushPromise st) as [[p []]|]; reflexivity.
Qed.

Lemma flush_idle_nonempty (options : RequiredOptions) (shutdown : bool) (st : State) :
  flushPromise st = None -> buffer st <> [] ->
  flush options shutdown st
  = ({| buffer := [];
        flushPromise := Some (nextPromise st, AwaitOpen (buffer st) None);
        isShutdown := shutdown || isShutdown st;
        fsys := logCall (CallOpen (openFlags options)) (fsys st);
        settled := settled st;
        nextPromise := S (nextPromise st) |}, nextPromise st).
Proof.
  intros H1 H2. unfold flush, ensureAllIsFlushed, loopTest. rewrite H1.
  destruct shutdown; simpl; destruct (buffer st); try contradiction; reflexivity.
Qed.

Lemma flush_idle_empty (options : RequiredOptions) (shutdown : bool) (st : State) :
  flushPromise st = None -> buffer st = [] ->
  flush options shutdown st
  = ({| buffer := [];
        flushPromise := Some (nextPromise st, Returned Fulfilled);
        isShutdown := shutdown || isShutdown st;
        fsys := fsys st;
        settled := settled st;
        nextPromise := S (nextPromise st) |}, nextPromise st).
Proof.
  intros H1 H2. unfold flush, ensureAllIsFlushed. rewrite H1.
  destruct shutdown; simpl; rewrite H2; simpl; rewrite ?H2; reflexivity.
Qed.


(* ------------------------------------------------------------------ *)
(** ** One cycle at a time *)

Lemma fs_open_calls (flags : str) (f f' : FileSystem) (h : Handle) :
  fs_open flags f = inl (f', h) ->
  calls f' = calls f /\ h = nextHandle f /\
  openHandles f' = h :: openHandles f /\ nextHandle f' = S h /\
  content f' = Some (bytes f).
Proof.
  unfold fs_open, bytes. destruct (content f) as [text|].
  - intros H. injection H as <- <-. simpl. auto.
  - destruct (str_eqb flags (chars "a+")); [|discriminate].
    intros H. injection H as <- <-. simpl. auto.
Qed.

Lemma fs_write_calls (data : str) (position : option Z) (f f' : FileSystem) :
  fs_write data position f = inl f' ->
  calls f' = calls f /\ openHandles f' = openHandles f /\
  nextHandle f' = nextHandle f.
Proof.
  unfold fs_write. destruct (_ || _); [discriminate|].
  intros H. injection H as <-. simpl. auto.
Qed.

Lemma writeCalls_log (c : IoCall) (f : FileSystem) :
  length (filter isWrite (calls (logCall c f)))
  = length (filter isWrite (calls f)) + (if isWrite c then 1 else 0).
Proof. simpl. rewrite filter_app, length_app. simpl. now destruct (isWrite c). Qed.

Lemma openCalls_log (c : IoCall) (f : FileSystem) :
  length (filter isOpen (calls (logCall c f)))
  = length (filter isOpen (calls f)) + (if isOpen c then 1 else 0).
Proof. simpl. rewrite filter_app, length_app. simpl. now destruct (isOpen c). Qed.

Lemma calls_call (c : IoCall) (st : State) :
  buffer (call c st) = buffer st /\
  writeCalls (call c st) = writeCalls st + (if isWrite c then 1 else 0) /\
  openCalls (call c st) = openCalls st + (if isOpen c then 1 else 0).
Proof.
  unfold writeCalls, openCalls. simpl. rewrite !filter_app, !length_app. simpl.
  now destruct (isWrite c), (isOpen c).
Qed.

Lemma calls_setFsys (f : FileSystem) (st : State) :
  calls f = calls (fsys st) ->
  buffer (setFsys f st) = buffer st /\
  writeCalls (setFsys f st) = writeCalls st /\
  openCalls (setFsys f st) = openCalls st.
Proof. intros H. unfold writeCalls, openCalls. simpl. now rewrite H. Qed.

(** A step of a first iteration that nothing interrupts. *)
Lemma firstIteration_step (options : RequiredOptions) (w o : nat) (a : Await) (st : State) :
  firstIteration w o a st ->
  firstIteration w o (snd (resume options a None st)) (fst (resume options a None st)) /\
  rank (snd (resume options a None st)) <= pred (rank a).
Proof.
  assert (T : forall d fh e s,
             firstIteration w o (snd (throwInTry d fh e s)) (fst (throwInTry d fh e s)) /\
             rank (snd (throwInTry d fh e s)) <= 1).
  { intros d fh e s. unfold throwInTry. destruct fh; simpl; auto. }
  assert (L : forall h s,
             buffer s = [] -> writeCalls s = S w -> openCalls s = S o ->
             firstIteration w o (snd (loopTest options (Some h) s))
                                (fst (loopTest options (Some h) s)) /\
             rank (snd (loopTest options (Some h) s)) <= 1).
  { intros h s Hb Hw Ho. unfold loopTest. rewrite Hb.
    destruct (calls_call (CallClose h) s) as (A & B & C). simpl in *.
    repeat split; try assumption; lia. }
  assert (K : forall c s a',
             buffer s = [] -> writeCalls s = w -> openCalls s = S o ->
             (firstIteration w o a' (call c s)
              <-> buffer (call c s) = [] /\
                  writeCalls (call c s) = w + (if isWrite c then 1 else 0) /\
                  openCalls (call c s) = S o) ->
             isOpen c = false ->
             firstIteration w o a' (call c s)).
  { intros c s a' Hb Hw Ho Hiff Hc. apply Hiff.
    destruct (calls_call c s) as (A & B & C). rewrite A, B, C, Hc. repeat split; auto; lia. }
  destruct a as [d [h|]|d h|d h bs rp|d h|d h patch|d h patch|h [e|]|[|e]];
    cbn [resume rank pred firstIteration]; intros H; try contradiction;
    try (cbn [fst snd firstIteration rank]; split; [exact I|lia]; fail).
  - destruct H as (Hb & Hw & Ho).
    destruct (fs_open _ _) as [[f h]|e] eqn:E.
    + apply fs_open_calls in E as (E & _).
      destruct (calls_setFsys f st E) as (A & B & C).
      cbn [fst snd rank]. split; [|lia].
      apply K; try congruence; [|reflexivity]. cbn [firstIteration isWrite].
      rewrite Nat.add_0_r. tauto.
    + destruct (T d None e st). split; [assumption|lia].
  - destruct H as (Hb & Hw & Ho). cbn [fst snd rank]. split; [|lia].
    apply K; try congruence; [|reflexivity]. cbn [firstIteration isWrite].
    rewrite Nat.add_0_r. tauto.
  - destruct H as (Hb & Hw & Ho).
    destruct (isEmpty _ && _).
    + cbn [fst snd rank]. split; [|lia].
      apply K; try congruence; [|reflexivity]. cbn [firstIteration isWrite].
      rewrite Nat.add_1_r. tauto.
    + destruct (_ =? _)%Z.
      * destruct (T d (Some h) NotAJsonArray st). split; [assumption|lia].
      * cbn [fst snd rank]. split; [|lia].
        apply K; try congruence; [|reflexivity]. cbn [firstIteration isWrite].
        rewrite Nat.add_0_r. tauto.
  - destruct H as (Hb & Hw & Ho).
    destruct (fs_write _ _ _) as [f|e] eqn:E.
    + apply fs_write_calls in E as (E & _).
      destruct (calls_setFsys f st E) as (A & B & C).
      destruct (L h (setFsys f st)); try congruence. split; [assumption|lia].
    + destruct (T d (Some h) e st). split; [assumption|lia].
  - destruct H as (Hb & Hw & Ho).
    destruct (calls_setFsys (fs_truncate (truncatePosition patch) (fsys st)) st eq_refl)
      as (A & B & C).
    cbn [fst snd rank]. split; [|lia].
    apply K; try congruence; [|reflexivity]. cbn [firstIteration isWrite].
    rewrite Nat.add_1_r. tauto.
  - destruct H as (Hb & Hw & Ho).
    destruct (fs_write _ _ _) as [f|e] eqn:E.
    + apply fs_write_calls in E as (E & _).
      destruct (calls_setFsys f st E) as (A & B & C).
      destruct (L h (setFsys f st)); try congruence. split; [assumption|lia].
    + destruct (T d (Some h) e st). split; [assumption|lia].
  - destruct H as (Hb & Hw & Ho).
    destruct (calls_setFsys (fs_close h (fsys st)) st eq_refl) as (A & B & C).
    cbn [fst snd rank firstIteration]. repeat split; try congruence. lia.
  - cbn [fst snd rank]. split; [exact H|lia].
Qed.

Lemma firstIteration_setFlushPromise (w o : nat) (a : Await)
      (x : option (Promise * Await)) (st : State) :
  firstIteration w o a st -> firstIteration w o a (setFlushPromise x st).
Proof. destruct a as [? []| | | | | |? []|[]]; simpl; auto. Qed.

(** A first iteration that nothing interrupts returns within as many
    operations as its rank. *)
Lemma settleAll_firstIteration (options : RequiredOptions) (w o : nat) (n : nat) :
  forall (st : State) (p : Promise) (a : Await),
    flushPromise st = Some (p, a) ->
    firstIteration w o a st ->
    rank a <= n ->
    exists r,
      flushPromise (settleAll options n st) = Some (p, Returned r) /\
      firstIteration w o (Returned r) (settleAll options n st).
Proof.
  induction n as [|n IH]; intros st p a Hp Hf Hr.
  - destruct a; simpl in Hr; try lia. exists result. split; assumption.
  - change (settleAll options (S n) st)
      with (settleAll options n (step options st (Settle None))).
    rewrite (step_settle options st p a None Hp).
    destruct (firstIteration_step options w o a st Hf) as [Hf' Hr'].
    apply IH with (a := snd (resume options a None st)).
    + reflexivity.
    + now apply firstIteration_setFlushPromise.
    + lia.
Qed.

(** C3. Two calls of [flush] in immediate succession, nothing being
    appended: the second call returns the promise of the first and leaves the
    writer as the first call left it, so that no second cycle starts; the one
    cycle returns within six file operations, and when it succeeds it has
    opened the file once and called [write] once; a further [flush], the
    queue being empty, makes no call on the file and leaves its content as it
    is.  In general a [flush] during a pending cycle returns the promise of
    that cycle and changes nothing but the latch, and a [flush] on an empty
    queue makes no call on the file. *)
Theorem flush_twice_one_mutation :
  forall (options : RequiredOptions) (st : State),
    flushPromise st = None -> buffer st <> [] ->
    let first := flush options false st in
    let second := flush options false (fst first) in
    let p := snd first in
    let done := step options (settleAll options 6 (fst second)) Reaction in
    (snd second = p /\ fst second = fst first) /\
    (flushPromise done = None /\ exists o, outcomeOf p done = Some o) /\
    (outcomeOf p done = Some Fulfilled ->
       writeCalls done = S (writeCalls st) /\
       openCalls done = S (openCalls st) /\
       buffer done = [] /\
       fsys (fst (flush options false done)) = fsys done) /\
    (forall (pending : State) (q : Promise) (a : Await) (shutdown : bool),
        flushPromise pending = Some (q, a) ->
        flush options shutdown pending
        = (if shutdown then setShutdown true pending else pending, q)) /\
    (forall (idle : State) (shutdown : bool),
        flushPromise idle = None -> buffer idle = [] ->
        fsys (fst (flush options shutdown idle)) = fsys idle /\
        outcomeOf (snd (flush options shutdown idle))
                  (step options (fst (flush options shutdown idle)) Reaction)
        = Some Fulfilled).
Proof.
  intros options st Hidle Hne first second p done.
  assert (E1 : first = _) by (apply flush_idle_nonempty; assumption).
  assert (E2 : second = (fst first, p)).
  { unfold second, p. rewrite E1. reflexivity. }
  split; [now rewrite E2|].
  assert (Hgen2 : forall (idle : State) (shutdown : bool),
             flushPromise idle = None -> buffer idle = [] ->
             fsys (fst (flush options shutdown idle)) = fsys idle /\
             outcomeOf (snd (flush options shutdown idle))
                       (step options (fst (flush options shutdown idle)) Reaction)
             = Some Fulfilled).
  { intros idle shutdown H1 H2. rewrite flush_idle_empty by assumption. simpl.
    split; [reflexivity|]. unfold outcomeOf. simpl. now rewrite Nat.eqb_refl. }
  assert (Hrun : exists r,
             flushPromise (settleAll options 6 (fst second)) = Some (p, Returned r) /\
             firstIteration (writeCalls st) (openCalls st) (Returned r)
                            (settleAll options 6 (fst second))).
  { apply settleAll_firstIteration with (a := AwaitOpen (buffer st) None).
    - rewrite E2. unfold p. rewrite E1. reflexivity.
    - rewrite E2. cbn [fst]. rewrite E1. cbn [fst firstIteration].
      destruct (calls_call (CallOpen (openFlags options)) st) as (_ & B & C).
      unfold writeCalls, openCalls in *. simpl in *. repeat split; lia.
    - simpl. lia. }
  destruct Hrun as (r & Hr & Hfirst).
  assert (Hout : outcomeOf p done = Some r).
  { unfold done, step. rewrite Hr. unfold outcomeOf. simpl. now rewrite Nat.eqb_refl. }
  split; [|split; [|split]].
  - split; [|now exists r]. unfold done, step. now rewrite Hr.
  - rewrite Hout. intros E. injection E as ->. simpl in Hfirst.
    destruct Hfirst as (Hb & Hw & Ho).
    assert (Hd : buffer done = [] /\ fsys done = fsys (settleAll options 6 (fst second)) /\
                 flushPromise done = None).
    { unfold done, step. rewrite Hr. simpl. auto. }
    destruct Hd as (D1 & D2 & D3).
    assert (D4 : fsys (fst (flush options false done)) = fsys done)
      by now apply Hgen2.
    unfold writeCalls, openCalls in *. rewrite D2 in *. repeat split; auto.
  - intros. eapply flush_pending. eassumption.
  - exact Hgen2.
Qed.

(* ------------------------------------------------------------------ *)
(** ** Failure of a cycle *)

(** C2, as stated, fails when [close] alone is rejected: the promise of the
    cycle is rejected, the queue stays empty, and the entry is in the file. *)
Lemma close_failure_keeps_queue_empty :
  outcomeOf 0 closeFailureRun = Some (Rejected (IoError 0)) /\
  buffer closeFailureRun = [] /\
  JSON_parse (bytes (fsys closeFailureRun)) = Some (JArray [sampleEntry "1"]).
Proof. vm_compute. repeat split. Qed.

(** C2, amended.  When a cycle throws inside [try] (the operation it
    awaits - open, stat, read, truncate or write - is rejected, or the tail
    holds no closing bracket), the batch it spliced is back at the front of
    the queue, in its order and ahead of the entries appended meanwhile,
    before the cycle rejects: nothing is lost, nothing is duplicated, and the
    failing step leaves the file as it was.  The cycle then rejects at once,
    or after the [close] of [finally], which leaves the queue alone. *)
Theorem failure_restores_batch :
  forall (options : RequiredOptions) (a : Await) (fault : option Error)
         (st : State) (dataToWrite : list json),
    inTry a = Some dataToWrite ->
    let st' := fst (resume options a fault st) in
    let a' := snd (resume options a fault st) in
    (forall e, fault = Some e -> thrown a' = Some e) /\
    (forall e, thrown a' = Some e ->
       buffer st' = dataToWrite ++ buffer st /\
       content (fsys st') = content (fsys st) /\
       (a' = Returned (Rejected e) \/
        exists h, a' = AwaitClose h (Some e) /\
          forall fault',
            buffer (fst (resume options a' fault' st')) = buffer st' /\
            exists e', snd (resume options a' fault' st') = Returned (Rejected e'))).
Proof.
  intros options a fault st d Hin st' a'.
  assert (T : forall fh e s,
             thrown (snd (throwInTry d fh e s)) = Some e /\
             buffer (fst (throwInTry d fh e s)) = d ++ buffer s /\
             content (fsys (fst (throwInTry d fh e s))) = content (fsys s) /\
             (snd (throwInTry d fh e s) = Returned (Rejected e) \/
              exists h, snd (throwInTry d fh e s) = AwaitClose h (Some e))).
  { intros fh e s. unfold throwInTry. destruct fh; simpl; eauto 10. }
  assert (L : forall fh s, thrown (snd (loopTest options fh s)) = None).
  { intros fh s. unfold loopTest. destruct (buffer s), fh; reflexivity. }
  assert (C : forall h e s fault',
             buffer (fst (resume options (AwaitClose h (Some e)) fault' s)) = buffer s /\
             exists e', snd (resume options (AwaitClose h (Some e)) fault' s)
                        = Returned (Rejected e')).
  { intros h e s [e'|]; simpl; eauto. }
  assert (K : forall fh e s e0,
             thrown (snd (throwInTry d fh e s)) = Some e0 ->
             buffer (fst (throwInTry d fh e s)) = d ++ buffer s /\
             content (fsys (fst (throwInTry d fh e s))) = content (fsys s) /\
             (snd (throwInTry d fh e s) = Returned (Rejected e0) \/
              exists h, snd (throwInTry d fh e s) = AwaitClose h (Some e0) /\
                forall fault',
                  buffer (fst (resume options (snd (throwInTry d fh e s)) fault'
                                      (fst (throwInTry d fh e s))))
                  = buffer (fst (throwInTry d fh e s)) /\
                  exists e', snd (resume options (snd (throwInTry d fh e s)) fault'
                                         (fst (throwInTry d fh e s)))
                             = Returned (Rejected e'))).
  { intros fh e s e0 H. destruct (T fh e s) as (T1 & T2 & T3 & T4).
    rewrite T1 in H. injection H as <-. repeat split; auto.
    destruct T4 as [T4|[h T4]]; [now left|right].
    exists h. split; [exact T4|]. intros fault'. rewrite T4. apply C. }
  unfold st', a'. clear st' a'.
  destruct a; simpl in Hin; try discriminate; injection Hin as ->;
    (split; [intros e ->; cbn [resume]; apply T|]); intros e;
    destruct fault as [e1|]; cbn [resume]; try apply K.
  - destruct (fs_open _ _) as [[f h]|e2]; [cbn; discriminate|apply K].
  - cbn. discriminate.
  - destruct (isEmpty _ && _); [cbn; discriminate|].
    destruct (_ =? _)%Z; [apply K|cbn; discriminate].
  - destruct (fs_write _ _ _) as [f|e2]; [|apply K].
    intros H. now rewrite L in H.
  - cbn. discriminate.
  - destruct (fs_write _ _ _) as [f|e2]; [|apply K].
    intros H. now rewrite L in H.
Qed.

(* ------------------------------------------------------------------ *)
(** ** Entries appended during a cycle *)

(** C4, as stated, fails: one call of [flush], an entry appended while the
    cycle is pending; the cycle opens the file twice and writes twice, the
    queue is empty when it returns and the appended entry is in the file. *)
Lemma flush_drains_appended_entry :
  outcomeOf 0 appendDuringFlushRun = Some Fulfilled /\
  buffer appendDuringFlushRun = [] /\
  openCalls appendDuringFlushRun = 2 /\
  writeCalls appendDuringFlushRun = 2 /\
  JSON_parse (bytes (fsys appendDuringFlushRun))
  = Some (JArray [sampleEntry "1"; sampleEntry "2"]).
Proof. vm_compute. repeat split. Qed.

(** C4, amended.  The cycle loops.  When a write has succeeded and entries
    were appended meanwhile, the same invocation splices them all and opens
    the file again; it goes on to [close] only when the queue is empty at
    that moment.  An [append] during a pending cycle only queues the entry,
    and entries appended while the cycle is closing the file stay queued
    until a later call of [flush]. *)
Theorem flush_loops_until_queue_empty :
  forall (options : RequiredOptions) (st : State) (dataToWrite : list json)
         (h : Handle) (a : Await),
    (a = AwaitWriteInit dataToWrite h \/
     exists patch, a = AwaitWrite dataToWrite h patch) ->
    let st' := fst (resume options a None st) in
    let a' := snd (resume options a None st) in
    (thrown a' = None ->
     (buffer st <> [] ->
        a' = AwaitOpen (buffer st) (Some h) /\ buffer st' = [] /\
        calls (fsys st') = calls (fsys st) ++ [CallOpen (openFlags options)]) /\
     (buffer st = [] -> a' = AwaitClose h None /\ buffer st' = [])) /\
    (forall thrown fault,
        buffer (fst (resume options (AwaitClose h thrown) fault st)) = buffer st) /\
    (forall p newData,
        flushPromise st = Some (p, a) -> isShutdown st = false ->
        fst (append options newData st) = setBuffer (buffer st ++ [newData]) st).
Proof.
  intros options st d h a Ha st' a'.
  assert (L : forall f,
             calls f = calls (fsys st) ->
             let r := loopTest options (Some h) (setFsys f st) in
             (buffer st <> [] ->
                snd r = AwaitOpen (buffer st) (Some h) /\ buffer (fst r) = [] /\
                calls (fsys (fst r)) = calls (fsys st) ++ [CallOpen (openFlags options)]) /\
             (buffer st = [] -> snd r = AwaitClose h None /\ buffer (fst r) = [])).
  { intros f Hf. unfold loopTest. cbn [buffer setFsys].
    destruct (buffer st) eqn:E; cbn.
    - split; [intros H; now destruct H|intros _; now split].
    - split; [intros _; now rewrite Hf|discriminate]. }
  split; [|split].
  - unfold st', a'. destruct Ha as [->|[patch ->]]; cbn [resume];
      (destruct (fs_write _ _ _) as [f|e] eqn:W;
       [intros _; apply L; now apply fs_write_calls in W
       |intros H; unfold throwInTry in H; cbn in H; discriminate]).
  - intros t [e|]; reflexivity.
  - intros p newData Hp Hs. unfold append. rewrite Hs.
    destruct (isFull _ _); [|reflexivity].
    now rewrite (flush_pending options false _ p a).
Qed.

(* ------------------------------------------------------------------ *)
(** ** File handles *)

(** C5: the code leaks a handle.  In the run above the cycle opens the file
    twice; [finally] closes the handle [fileHandle] holds at that moment,
    the second one, and the first one stays open after the promise of the
    cycle is fulfilled. *)
Theorem second_iteration_leaks_handle :
  outcomeOf 0 appendDuringFlushRun = Some Fulfilled /\
  flushPromise appendDuringFlushRun = None /\
  openCalls appendDuringFlushRun = 2 /\
  filter (fun c => match c with CallClose _ => true | _ => false end)
         (calls (fsys appendDuringFlushRun)) = [CallClose 1] /\
  openHandles (fsys appendDuringFlushRun) = [0].
Proof. vm_compute. repeat split. Qed.

(* ------------------------------------------------------------------ *)
(** ** Errors of a threshold-triggered flush *)

(** C6.  The writer does not read [suppressThresholdFlushErrors].  The
    documentation says that with this option set the error of a flush that
    [append] triggers is suppressed and logged.  In the code, whatever the
    options object carries, and in particular with the option set to [true]:
    when [append] triggers a flush, the error of that cycle rejects the
    promise [append] returned, as the error of an explicit [flush] does.  In
    the run of the documentation's example with the threshold at one and
    [open] rejected, [append] returns promise 0, that promise is rejected
    with the error of [open], and nothing else records the error. *)
Theorem suppression_option_is_ignored :
  (forall (options : OptionsObject) (f : FileSystem) (history : list Event)
          (newData : json) (p : Promise),
      suppressThresholdFlushErrors options = Some true ->
      let o := constructorOptions options in
      let st := run o (newWriter f) history in
      snd (append o newData st) = Some p ->
      forall future e future',
        flushPromise (run o (fst (append o newData st)) future)
        = Some (p, Returned (Rejected e)) ->
        outcomeOf p (run o (fst (append o newData st)) (future ++ Reaction :: future'))
        = Some (Rejected e)) /\
  snd (append (constructorOptions fireAndForget) (sampleEntry "1")
              (newWriter (newFileSystem (Some (chars "[]"))))) = Some 0 /\
  outcomeOf 0 fireAndForgetRun = Some (Rejected (IoError 0)) /\
  settled fireAndForgetRun = [(0, Rejected (IoError 0))] /\
  buffer fireAndForgetRun = [sampleEntry "1"].
Proof.
  split; [|vm_compute; repeat split].
  intros options f history newData p _ o st Hp future e future' Hret.
  assert (E : fst (append o newData st) = run o (newWriter f) (history ++ [Append newData])).
  { rewrite run_app. reflexivity. }
  rewrite E in *.
  assert (Ha : exists a, flushPromise (run o (newWriter f) (history ++ [Append newData]))
                         = Some (p, a)).
  { rewrite <- E. unfold append in *. destruct (isShutdown st); [discriminate|].
    destruct (isFull _ _); [|discriminate].
    destruct (flush_flushPromise o false (setBuffer (buffer st ++ [newData]) st)) as [a Ha].
    destruct (flush o false _). simpl in *. injection Hp as <-. now exists a. }
  destruct Ha as [a Ha].
  now apply (promise_delivers o f (history ++ [Append newData]) p a Ha future).
Qed.

(* ------------------------------------------------------------------ *)
(** ** Auto-initialization disabled *)

(** C8, as stated, fails: on an empty file the error is the one of a file
    that holds no JSON array, not the one of a missing file. *)
Lemma empty_file_error_is_not_enoent :
  let done := jappendNoInit {| opt_bufferFlushThreshold := None; opt_pretty := None;
                               opt_indent := None; opt_initArray := None |}
                            (sampleEntry "3") (newFileSystem (Some [])) in
  outcomeOf 0 done = Some (Rejected NotAJsonArray) /\
  outcomeOf 0 done <> Some (Rejected ENOENT).
Proof. vm_compute. split; [reflexivity|discriminate]. Qed.

(** C8, amended.  With auto-initialization disabled, appending an entry
    against an empty file fails with the error 'The file does not contain a
    valid JSON array', and against a missing file with the not-found error of
    [open] itself; in both cases the file is left as it was (empty, or
    missing), the entry is back in the queue and no handle stays open. *)
Theorem no_init_append_fails :
  forall (options : WriterOptions) (newData : json),
    (let done := jappendNoInit options newData (newFileSystem (Some [])) in
     outcomeOf 0 done = Some (Rejected NotAJsonArray) /\
     content (fsys done) = Some [] /\
     buffer done = [newData] /\
     openHandles (fsys done) = [] /\
     writeCalls done = 0) /\
    (let done := jappendNoInit options newData (newFileSystem None) in
     outcomeOf 0 done = Some (Rejected ENOENT) /\
     content (fsys done) = None /\
     buffer done = [newData] /\
     openHandles (fsys done) = [] /\
     calls (fsys done) = [CallOpen (chars "r+")]).
Proof.
  intros options newData. split; vm_compute; repeat split.
Qed.

(* ------------------------------------------------------------------ *)
(** ** The statements at sample inputs *)

Lemma flush_twice_one_mutation_sample :
  flushPromise oneQueued = None /\ buffer oneQueued <> [] /\
  writeCalls flushedTwice = 1 /\ openCalls flushedTwice = 1 /\
  buffer flushedTwice = [] /\
  bytes (fsys flushedTwice) = JSON_stringify (JArray [sampleEntry "1"]) 2.
Proof.
  split; [reflexivity|]. split; [discriminate|].
  pose proof (flush_twice_one_mutation (sampleOptions (Finite 5)) oneQueued eq_refl
                ltac:(discriminate)) as H.
  cbv zeta in H. destruct H as (_ & _ & H & _).
  destruct (H eq_refl) as (H1 & H2 & H3 & _).
  split; [exact H1|]. split; [exact H2|]. split; [exact H3|reflexivity].
Defined.

Lemma failure_restores_batch_sample :
  let st := setBuffer [sampleEntry "2"]
                      (newWriter (newFileSystem (Some (chars "[]")))) in
  let a := AwaitStat [sampleEntry "1"] 0 in
  inTry a = Some [sampleEntry "1"] /\
  buffer (fst (resume (sampleOptions (Finite 5)) a (Some (IoError 7)) st))
  = [sampleEntry "1"; sampleEntry "2"] /\
  snd (resume (sampleOptions (Finite 5)) a (Some (IoError 7)) st)
  = AwaitClose 0 (Some (IoError 7)).
Proof.
  split; [reflexivity|].
  pose proof (failure_restores_batch (sampleOptions (Finite 5))
                (AwaitStat [sampleEntry "1"] 0) (Some (IoError 7))
                (setBuffer [sampleEntry "2"]
                           (newWriter (newFileSystem (Some (chars "[]")))))
                [sampleEntry "1"] eq_refl) as H.
  cbv zeta in H. destruct H as (_ & H).
  destruct (H (IoError 7) eq_refl) as (H1 & _).
  split; [exact H1|reflexivity].
Defined.

Lemma flush_loops_until_queue_empty_sample :
  let st := setBuffer [sampleEntry "2"]
                      (newWriter (newFileSystem (Some (chars "[]")))) in
  let a := AwaitWriteInit [sampleEntry "1"] 0 in
  (a = AwaitWriteInit [sampleEntry "1"] 0 \/
   exists patch, a = AwaitWrite [sampleEntry "1"] 0 patch) /\
  snd (resume (sampleOptions (Finite 5)) a None st)
  = AwaitOpen [sampleEntry "2"] (Some 0) /\
  buffer (fst (resume (sampleOptions (Finite 5)) a None st)) = [].
Proof.
  split; [left; reflexivity|].
  pose proof (flush_loops_until_queue_empty (sampleOptions (Finite 5))
                (setBuffer [sampleEntry "2"]
                           (newWriter (newFileSystem (Some (chars "[]")))))
                [sampleEntry "1"] 0 (AwaitWriteInit [sampleEntry "1"] 0)
                (or_introl eq_refl)) as H.
  cbv zeta in H. destruct H as (H & _).
  destruct (H eq_refl) as (H1 & _).
  destruct (H1 ltac:(discriminate)) as (A & B & _).
  split; [exact A|exact B].
Defined.

(* ================================================================== *)
(** * Lexical facts *)

Ltac each_char c :=
  destruct c as [[] [] [] [] [] [] [] []]; vm_compute; try reflexivity;
  try discriminate; auto.

Lemma jsonWs_isSpace (c : ascii) : isJsonWs c = true -> isSpace c = true.
Proof. each_char c. Qed.

Lemma jsonWs_not_numChar (c : ascii) : isJsonWs c = true -> isNumChar c = false.
Proof. each_char c. Qed.

Lemma numChar_start (c : ascii) :
  isNumChar c = true ->
  notStart c = false /\ (c =? "034") = false /\ (c =? "[") = false /\
  (c =? "{") = false /\ (c =? "t") = false /\ (c =? "f") = false /\
  (c =? "n") = false.
Proof. each_char c; intros; repeat split; discriminate. Qed.

Lemma digit_end (c : ascii) : isDigit c = true -> notEnd c = false.
Proof. each_char c. Qed.

Lemma ws_app (a b : str) : ws (a ++ b) <-> ws a /\ ws b.
Proof. unfold ws. rewrite forallb_app. apply andb_true_iff. Qed.

Lemma ws_nil : ws [].
Proof. reflexivity. Qed.

Lemma ws_cons (c : ascii) (w : str) : ws (c :: w) <-> isJsonWs c = true /\ ws w.
Proof. unfold ws. simpl. apply andb_true_iff. Qed.

Lemma ws_spaces (n : nat) : ws (spaces n).
Proof. induction n; [reflexivity|]. apply ws_cons. now split. Qed.

Lemma skipWs_app (w s : str) : ws w -> stops isJsonWs s -> skipWs (w ++ s) = s.
Proof.
  induction w as [|c w IH]; intros Hw Hs.
  - destruct s as [|c s]; [reflexivity|]. simpl in *. now rewrite Hs.
  - apply ws_cons in Hw as [Hc Hw]. simpl. rewrite Hc. now apply IH.
Qed.

Lemma skipWs_split (s : str) :
  exists w, s = w ++ skipWs s /\ ws w /\ stops isJsonWs (skipWs s).
Proof.
  induction s as [|c s (w & E & Hw & Hs)].
  - exists []. repeat split.
  - simpl. destruct (isJsonWs c) eqn:Hc.
    + exists (c :: w). split; [simpl; f_equal; exact E|].
      split; [|exact Hs]. apply ws_cons. now split.
    + exists []. repeat split. simpl. exact Hc.
Qed.

Lemma skipWs_nil_ws (s : str) : skipWs s = [] <-> ws s.
Proof.
  induction s as [|c s IH]; [now split|]. simpl. rewrite ws_cons.
  destruct (isJsonWs c); [rewrite IH; tauto|]. split; [discriminate|]. now intros [].
Qed.

Lemma expect_cons (c : ascii) (r : str) : expect c (c :: r) = Some r.
Proof. simpl. now rewrite Ascii.eqb_refl. Qed.

Lemma expect_some (c : ascii) (s r : str) : expect c s = Some r -> s = c :: r.
Proof.
  destruct s as [|x s]; [discriminate|]. simpl.
  destruct (x =? c) eqn:E; [|discriminate].
  apply Ascii.eqb_eq in E. now intros [= ->]; subst.
Qed.

Lemma expect_other (c x : ascii) (r : str) : (x =? c) = false -> expect c (x :: r) = None.
Proof. intros H. simpl. now rewrite H. Qed.

Lemma stripPrefix_app (p r : str) : stripPrefix p (p ++ r) = Some r.
Proof.
  induction p as [|a p IH]; [reflexivity|]. simpl. now rewrite Ascii.eqb_refl.
Qed.

Lemma stripPrefix_some (p s r : str) : stripPrefix p s = Some r -> s = p ++ r.
Proof.
  revert s. induction p as [|a p IH]; intros s; simpl.
  - now intros [= ->].
  - destruct s as [|b s]; [discriminate|]. destruct (a =? b) eqn:E; [|discriminate].
    apply Ascii.eqb_eq in E. subst. intros H. now rewrite (IH s H).
Qed.

Lemma span_app (p : ascii -> bool) (a r : str) :
  forallb p a = true -> stops p r -> span p (a ++ r) = (a, r).
Proof.
  induction a as [|c a IH]; intros Ha Hr.
  - destruct r as [|c r]; [reflexivity|]. simpl in *. now rewrite Hr.
  - simpl in Ha. apply andb_true_iff in Ha as [Hc Ha]. simpl. rewrite Hc.
    now rewrite IH.
Qed.

Lemma span_some (p : ascii -> bool) (s a r : str) :
  span p s = (a, r) -> s = a ++ r /\ forallb p a = true /\ stops p r.
Proof.
  revert a. induction s as [|c s IH]; intros a; simpl.
  - intros [= <- <-]. repeat split.
  - destruct (p c) eqn:Hc.
    + destruct (span p s) as [a' r'] eqn:E. intros [= <- <-].
      destruct (IH a' eq_refl) as (-> & Ha & Hr). simpl. rewrite Hc. auto.
    + intros [= <- <-]. repeat split. exact Hc.
Qed.

(* ------------------------------------------------------------------ *)
(** ** Strings *)

Lemma scanString_sound (s : str) :
  forall q b r, scanString q s = Some (b, r) ->
    s = b ++ "034" :: r /\ forall r', scanString q (b ++ "034" :: r') = Some (b, r').
Proof.
  induction s as [|c s IH]; intros q b r; [discriminate|].
  destruct q as [| |k]; simpl.
  - destruct (c =? "034") eqn:E1.
    + apply Ascii.eqb_eq in E1. subst. intros [= <- <-]. split; [reflexivity|].
      intros r'. reflexivity.
    + destruct (c =? "\") eqn:E2.
      * destruct (scanString SEscape s) as [[b' r']|] eqn:E; [|discriminate].
        intros [= <- <-]. destruct (IH _ _ _ E) as [-> H]. split; [reflexivity|].
        intros r0. simpl. now rewrite E1, E2, H.
      * destruct (nat_of_ascii c <? 32)%nat eqn:E3; [discriminate|].
        destruct (scanString SPlain s) as [[b' r']|] eqn:E; [|discriminate].
        intros [= <- <-]. destruct (IH _ _ _ E) as [-> H]. split; [reflexivity|].
        intros r0. simpl. now rewrite E1, E2, E3, H.
  - match goal with |- context [if ?x then _ else _] => destruct x eqn:E1 end.
    + destruct (scanString SPlain s) as [[b' r']|] eqn:E; [|discriminate].
      intros [= <- <-]. destruct (IH _ _ _ E) as [-> H]. split; [reflexivity|].
      intros r0. simpl. now rewrite E1, H.
    + destruct (c =? "u") eqn:E2; [|discriminate].
      destruct (scanString (SHex 3) s) as [[b' r']|] eqn:E; [|discriminate].
      intros [= <- <-]. destruct (IH _ _ _ E) as [-> H]. split; [reflexivity|].
      intros r0. simpl. now rewrite E1, E2, H.
  - destruct (isHex c) eqn:E1; [|discriminate].
    match goal with |- context [scanString ?q' s] =>
      destruct (scanString q' s) as [[b' r']|] eqn:E; [|discriminate] end.
    intros [= <- <-]. destruct (IH _ _ _ E) as [-> H]. split; [reflexivity|].
    intros r0. simpl. now rewrite E1, H.
Qed.

Lemma str_eqb_eq (a b : str) : str_eqb a b = true <-> a = b.
Proof. unfold str_eqb. destruct (list_eq_dec ascii_dec a b); split; congruence. Qed.

Lemma string_ok_scan (body r : str) :
  string_ok body = true -> scanString SPlain (body ++ "034" :: r) = Some (body, r).
Proof.
  unfold string_ok.
  destruct (scanString SPlain (body ++ ["034"])) as [[b [|x r']]|] eqn:E; try discriminate.
  intros H. apply str_eqb_eq in H. subst b.
  now apply scanString_sound in E as [_ E].
Qed.

Lemma scan_string_ok (s b r : str) :
  scanString SPlain s = Some (b, r) -> s = b ++ "034" :: r /\ string_ok b = true.
Proof.
  intros H. apply scanString_sound in H as [-> H]. split; [reflexivity|].
  unfold string_ok. rewrite H. now apply str_eqb_eq.
Qed.

(* ------------------------------------------------------------------ *)
(** ** Numbers *)

Lemma numRun_last (s : str) :
  forall q c, numRun q (s ++ [c]) = true -> isDigit c = true.
Proof.
  induction s as [|x s IH]; intros q c; simpl.
  - destruct (numStep q c) as [q'|] eqn:E; [|discriminate].
    intros F. destruct q; simpl in E;
      repeat match type of E with
             | (if ?b then _ else _) = _ => destruct b eqn:?
             end;
      try discriminate E; injection E as <-; simpl in F; try discriminate F;
      try assumption;
      match goal with H : (c =? "0") = true |- _ =>
        apply Ascii.eqb_eq in H; subst; reflexivity end.
  - destruct (numStep q x) as [q'|]; [apply IH|discriminate].
Qed.

Lemma number_ok_shape (literal : str) :
  number_ok literal = true ->
  forallb isNumChar literal = true /\
  exists c body d, literal = c :: body /\ isNumChar c = true /\
                   literal = removelast literal ++ [d] /\ isDigit d = true.
Proof.
  unfold number_ok. intros H. apply andb_true_iff in H as [H1 H2].
  split; [exact H1|].
  destruct literal as [|c body]; [discriminate|].
  simpl in H1. apply andb_true_iff in H1 as [Hc _].
  assert (E : c :: body <> []) by discriminate.
  pose proof (app_removelast_last "000" E) as L.
  exists c, body, (last (c :: body) "000"). repeat split; auto.
  rewrite L in H2. now apply numRun_last in H2.
Qed.

(* ================================================================== *)
(** * The grammar and the parser *)

Lemma wellEnded_app (a m b : str) : wellEnded a -> wellEnded b -> wellEnded (a ++ m ++ b).
Proof.
  intros [(c & a' & -> & Hc) _] [_ (b' & d & -> & Hd)]. split.
  - exists c, (a' ++ m ++ b' ++ [d]). now split.
  - exists ((c :: a') ++ m ++ b'), d. split; [now rewrite <- !app_assoc|exact Hd].
Qed.

Lemma wellEnded_bracket (o c : ascii) (m : str) :
  notStart o = false -> notEnd c = false -> wellEnded (o :: m ++ [c]).
Proof.
  intros Ho Hc. split.
  - exists o, (m ++ [c]). now split.
  - exists (o :: m), c. now split.
Qed.

Lemma Text_wellEnded :
  (forall t v, Text t v -> wellEnded t) /\
  (forall t vs, Items t vs -> wellEnded t) /\
  (forall t ms, Members t ms -> wellEnded t).
Proof.
  apply Text_Items_Members_ind; intros.
  - now apply (wellEnded_bracket "n" "l" (chars "ul")).
  - now apply (wellEnded_bracket "t" "e" (chars "ru")).
  - now apply (wellEnded_bracket "f" "e" (chars "als")).
  - apply number_ok_shape in H as (_ & c & body & d & E & Hc & L & Hd). split.
    + exists c, body. split; [exact E|]. now apply numChar_start in Hc as [Hc _].
    + exists (removelast literal), d. split; [exact L|]. now apply digit_end.
  - now apply wellEnded_bracket.
  - now apply wellEnded_bracket.
  - replace ("[" :: w1 ++ t ++ w2 ++ ["]"]) with ("[" :: (w1 ++ t ++ w2) ++ ["]"])
      by now rewrite <- !app_assoc.
    now apply wellEnded_bracket.
  - now apply wellEnded_bracket.
  - replace ("{" :: w1 ++ t ++ w2 ++ ["}"]) with ("{" :: (w1 ++ t ++ w2) ++ ["}"])
      by now rewrite <- !app_assoc.
    now apply wellEnded_bracket.
  - assumption.
  - replace (t ++ w1 ++ "," :: w2 ++ ts) with (t ++ (w1 ++ "," :: w2) ++ ts)
      by now rewrite <- !app_assoc.
    now apply wellEnded_app.
  - replace (quote k ++ w1 ++ ":" :: w2 ++ t) with (quote k ++ (w1 ++ ":" :: w2) ++ t)
      by now rewrite <- !app_assoc.
    apply wellEnded_app; [now apply wellEnded_bracket|assumption].
  - replace (quote k ++ w1 ++ ":" :: w2 ++ t ++ w3 ++ "," :: w4 ++ ts)
      with (quote k ++ (w1 ++ ":" :: w2 ++ t ++ w3 ++ "," :: w4) ++ ts)
      by (rewrite <- !app_assoc; simpl; now rewrite <- !app_assoc).
    apply wellEnded_app; [now apply wellEnded_bracket|assumption].
Qed.

Lemma wellEnded_stops (t r : str) (p : ascii -> bool) :
  wellEnded t -> (forall c, notStart c = false -> p c = false) -> stops p (t ++ r).
Proof. intros [(c & t' & -> & Hc) _] H. simpl. now apply H. Qed.

Lemma notStart_not_ws (c : ascii) : notStart c = false -> isJsonWs c = false.
Proof. each_char c. Qed.

Lemma notStart_not (c x : ascii) :
  notStart c = false -> notStart x = true -> (c =? x) = false.
Proof.
  intros Hc Hx. destruct (c =? x) eqn:E; [|reflexivity].
  apply Ascii.eqb_eq in E. subst. congruence.
Qed.

Lemma wellEnded_expect (t r : str) (x : ascii) :
  wellEnded t -> notStart x = true -> expect x (t ++ r) = None.
Proof.
  intros [(c & t' & -> & Hc) _] Hx. simpl. now rewrite (notStart_not c x).
Qed.

Lemma wellEnded_skipWs (w t r : str) : ws w -> wellEnded t -> skipWs (w ++ t ++ r) = t ++ r.
Proof.
  intros Hw Ht. apply skipWs_app; [exact Hw|].
  apply wellEnded_stops; [exact Ht|apply notStart_not_ws].
Qed.

Lemma ws_stops_numChar (w : str) (c : ascii) (r : str) :
  ws w -> isNumChar c = false -> stops isNumChar (w ++ c :: r).
Proof.
  destruct w as [|x w]; simpl; [auto|]. intros H _.
  apply ws_cons in H as [H _]. now apply jsonWs_not_numChar.
Qed.

Lemma skipWs_then (w : str) (c : ascii) (r : str) :
  ws w -> isJsonWs c = false -> skipWs (w ++ c :: r) = c :: r.
Proof. intros Hw Hc. now apply skipWs_app. Qed.

Ltac lengths :=
  do 4 (rewrite ?length_app in *; simpl length in * );
  lia.

Ltac norm := repeat (rewrite <- app_comm_cons || rewrite <- app_assoc); cbn [app].

(** Completeness of the parser: a text of the grammar, followed by anything
    that does not continue a number, is parsed with fuel twice its length. *)
Lemma parse_complete :
  (forall t v, Text t v ->
     forall r n, stops isNumChar r -> 2 * length t <= n ->
       parseValue n (t ++ r) = Some (v, r)) /\
  (forall t vs, Items t vs ->
     forall w r n, ws w -> 2 * length t + 1 <= n ->
       parseElements n (t ++ w ++ "]" :: r) = Some (vs, r)) /\
  (forall t ms, Members t ms ->
     forall w r n, ws w -> 2 * length t + 1 <= n ->
       parseMembers n (t ++ w ++ "}" :: r) = Some (ms, r)).
Proof.
  destruct Text_wellEnded as (WT & WI & WM).
  apply Text_Items_Members_ind.
  - intros r [|n] Hr Hn; [simpl in Hn; lia|]. simpl. reflexivity.
  - intros r [|n] Hr Hn; [simpl in Hn; lia|]. simpl. reflexivity.
  - intros r [|n] Hr Hn; [simpl in Hn; lia|]. simpl. reflexivity.
  - intros literal Hok r n Hr Hn.
    destruct (number_ok_shape literal Hok) as (Hall & c & body & d & E & Hc & _).
    destruct n as [|n]; [subst; simpl in Hn; lia|].
    destruct (numChar_start c Hc) as (_ & N1 & N2 & N3 & N4 & N5 & N6).
    rewrite E at 1. cbn [parseValue app]. rewrite N1, N2, N3, N4, N5, N6, Hc.
    change (c :: body ++ r) with ((c :: body) ++ r). rewrite <- E.
    rewrite span_app by assumption. now rewrite Hok.
  - intros body Hok r [|n] Hr Hn; [simpl in Hn; lia|].
    unfold quote. rewrite <- app_comm_cons, <- app_assoc. cbn [parseValue app].
    rewrite Ascii.eqb_refl. now rewrite string_ok_scan.
  - intros w Hw r [|n] Hr Hn; [simpl in Hn; lia|].
    rewrite <- app_comm_cons, <- app_assoc. cbn [parseValue app].
    change ("[" =? "034") with false. change ("[" =? "[") with true. cbv iota.
    rewrite skipWs_then by auto. now rewrite expect_cons.
  - intros w1 t w2 vs Hw1 Ht IH Hw2 r [|n] Hr Hn; [simpl in Hn; lia|].
    rewrite <- app_comm_cons, <- !app_assoc. cbn [parseValue].
    change ("[" =? "034") with false. change ("[" =? "[") with true. cbv iota.
    rewrite wellEnded_skipWs by eauto.
    rewrite wellEnded_expect by eauto.
    cbn [app]. rewrite IH; [reflexivity|exact Hw2|]. simpl in Hn. lengths.
  - intros w Hw r [|n] Hr Hn; [simpl in Hn; lia|].
    rewrite <- app_comm_cons, <- app_assoc. cbn [parseValue app].
    change ("{" =? "034") with false. change ("{" =? "[") with false.
    change ("{" =? "{") with true. cbv iota.
    rewrite skipWs_then by auto. now rewrite expect_cons.
  - intros w1 t w2 ms Hw1 Ht IH Hw2 r [|n] Hr Hn; [simpl in Hn; lia|].
    rewrite <- app_comm_cons, <- !app_assoc. cbn [parseValue].
    change ("{" =? "034") with false. change ("{" =? "[") with false.
    change ("{" =? "{") with true. cbv iota.
    rewrite wellEnded_skipWs by eauto.
    rewrite wellEnded_expect by eauto.
    cbn [app]. rewrite IH; [reflexivity|exact Hw2|]. simpl in Hn. lengths.
  - intros t v Ht IH w r [|n] Hw Hn; [lia|]. cbn [parseElements].
    rewrite IH; [|now apply ws_stops_numChar|lia].
    rewrite skipWs_then by auto. rewrite expect_other by reflexivity.
    now rewrite expect_cons.
  - intros t v w1 w2 ts vs Ht IHt Hw1 Hw2 Hts IHts w r [|n] Hw Hn; [lia|].
    norm. cbn [parseElements].
    rewrite IHt; [|now apply ws_stops_numChar|lengths].
    rewrite skipWs_then by auto. rewrite expect_cons.
    rewrite wellEnded_skipWs by eauto.
    rewrite IHts; [reflexivity|exact Hw|lengths].
  - intros k w1 w2 t v Hk Hw1 Hw2 Ht IH w r [|n] Hw Hn; [lia|].
    unfold quote. norm. cbn [parseMembers].
    rewrite expect_cons. rewrite string_ok_scan by exact Hk.
    rewrite skipWs_then by auto. rewrite expect_cons.
    rewrite wellEnded_skipWs by eauto.
    rewrite IH; [|now apply ws_stops_numChar|unfold quote in Hn; lengths].
    rewrite skipWs_then by auto. rewrite expect_other by reflexivity.
    now rewrite expect_cons.
  - intros k w1 w2 t v w3 w4 ts ms Hk Hw1 Hw2 Ht IHt Hw3 Hw4 Hts IHts w r [|n] Hw Hn; [lia|].
    unfold quote. norm. cbn [parseMembers].
    rewrite expect_cons. rewrite string_ok_scan by exact Hk.
    rewrite skipWs_then by auto. rewrite expect_cons.
    rewrite wellEnded_skipWs by eauto.
    rewrite IHt; [|now apply ws_stops_numChar|unfold quote in Hn; lengths].
    rewrite skipWs_then by auto. rewrite expect_cons.
    rewrite wellEnded_skipWs by eauto.
    rewrite IHts; [reflexivity|exact Hw|unfold quote in Hn; lengths].
Qed.

Lemma skipWs_expect (c : ascii) (s r : str) :
  expect c (skipWs s) = Some r -> exists w, s = w ++ c :: r /\ ws w.
Proof.
  intros H. apply expect_some in H. destruct (skipWs_split s) as (w & E & Hw & _).
  exists w. split; [congruence|exact Hw].
Qed.

(** Soundness of the parser: what it accepts is a text of the grammar. *)
Lemma parse_sound (n : nat) :
  (forall s v r, parseValue n s = Some (v, r) -> exists t, s = t ++ r /\ Text t v) /\
  (forall s vs r, parseElements n s = Some (vs, r) ->
     exists t w, s = t ++ w ++ "]" :: r /\ Items t vs /\ ws w) /\
  (forall s ms r, parseMembers n s = Some (ms, r) ->
     exists t w, s = t ++ w ++ "}" :: r /\ Members t ms /\ ws w).
Proof.
  induction n as [|n (IHv & IHe & IHm)]; [repeat split; discriminate|].
  split; [|split].
  - intros [|c s] v r; [discriminate|]. cbn [parseValue].
    destruct (c =? "034") eqn:E1.
    { apply Ascii.eqb_eq in E1. subst c.
      destruct (scanString SPlain s) as [[b r']|] eqn:E; [|discriminate].
      intros [= <- <-]. apply scan_string_ok in E as [-> Hb].
      exists (quote b). split; [unfold quote; now norm|now constructor]. }
    destruct (c =? "[") eqn:E2.
    { apply Ascii.eqb_eq in E2. subst c.
      destruct (expect "]" (skipWs s)) as [r'|] eqn:E.
      - intros [= <- <-]. apply skipWs_expect in E as (w & -> & Hw).
        exists ("[" :: w ++ ["]"]). split; [now norm|now constructor].
      - destruct (parseElements n (skipWs s)) as [[vs r']|] eqn:P; [|discriminate].
        intros [= <- <-]. apply IHe in P as (t & w2 & P & Ht & Hw2).
        destruct (skipWs_split s) as (w1 & Es & Hw1 & _). rewrite P in Es.
        exists ("[" :: w1 ++ t ++ w2 ++ ["]"]). split; [rewrite Es; now norm|].
        now constructor. }
    destruct (c =? "{") eqn:E3.
    { apply Ascii.eqb_eq in E3. subst c.
      destruct (expect "}" (skipWs s)) as [r'|] eqn:E.
      - intros [= <- <-]. apply skipWs_expect in E as (w & -> & Hw).
        exists ("{" :: w ++ ["}"]). split; [now norm|now constructor].
      - destruct (parseMembers n (skipWs s)) as [[ms r']|] eqn:P; [|discriminate].
        intros [= <- <-]. apply IHm in P as (t & w2 & P & Ht & Hw2).
        destruct (skipWs_split s) as (w1 & Es & Hw1 & _). rewrite P in Es.
        exists ("{" :: w1 ++ t ++ w2 ++ ["}"]). split; [rewrite Es; now norm|].
        now constructor. }
    destruct (c =? "t") eqn:E4.
    { destruct (stripPrefix (chars "true") (c :: s)) as [r'|] eqn:E; [|discriminate].
      intros [= <- <-]. apply stripPrefix_some in E.
      exists (chars "true"). split; [exact E|constructor]. }
    destruct (c =? "f") eqn:E5.
    { destruct (stripPrefix (chars "false") (c :: s)) as [r'|] eqn:E; [|discriminate].
      intros [= <- <-]. apply stripPrefix_some in E.
      exists (chars "false"). split; [exact E|constructor]. }
    destruct (c =? "n") eqn:E6.
    { destruct (stripPrefix (chars "null") (c :: s)) as [r'|] eqn:E; [|discriminate].
      intros [= <- <-]. apply stripPrefix_some in E.
      exists (chars "null"). split; [exact E|constructor]. }
    destruct (isNumChar c) eqn:E7; [|discriminate].
    destruct (span isNumChar (c :: s)) as [literal r'] eqn:E.
    destruct (number_ok literal) eqn:Hok; [|discriminate].
    intros [= <- <-]. apply span_some in E as (E & _).
    exists literal. split; [exact E|now constructor].
  - intros s vs r. cbn [parseElements].
    destruct (parseValue n s) as [[v r1]|] eqn:P; [|discriminate].
    apply IHv in P as (t & -> & Ht).
    destruct (expect "," (skipWs r1)) as [r2|] eqn:E.
    + destruct (parseElements n (skipWs r2)) as [[vs' r3]|] eqn:P; [|discriminate].
      intros [= <- <-]. apply skipWs_expect in E as (w1 & -> & Hw1).
      apply IHe in P as (ts & w & P & Hts & Hw).
      destruct (skipWs_split r2) as (w2 & E2 & Hw2 & _). rewrite P in E2.
      exists (t ++ w1 ++ "," :: w2 ++ ts), w. split; [rewrite E2; now norm|].
      split; [now constructor|exact Hw].
    + destruct (expect "]" (skipWs r1)) as [r2|] eqn:E'; [|discriminate].
      intros [= <- <-]. apply skipWs_expect in E' as (w & -> & Hw).
      exists t, w. split; [reflexivity|]. split; [now constructor|exact Hw].
  - intros s ms r. cbn [parseMembers].
    destruct (expect "034" s) as [s0|] eqn:Q; [|discriminate].
    apply expect_some in Q. subst s.
    destruct (scanString SPlain s0) as [[k r0]|] eqn:K; [|discriminate].
    apply scan_string_ok in K as [-> Hk].
    destruct (expect ":" (skipWs r0)) as [r1|] eqn:C; [|discriminate].
    apply skipWs_expect in C as (w1 & -> & Hw1).
    destruct (parseValue n (skipWs r1)) as [[v r2]|] eqn:P; [|discriminate].
    apply IHv in P as (t & P & Ht).
    destruct (skipWs_split r1) as (w2 & E1 & Hw2 & _). rewrite P in E1.
    destruct (expect "," (skipWs r2)) as [r3|] eqn:E.
    + destruct (parseMembers n (skipWs r3)) as [[ms' r4]|] eqn:P'; [|discriminate].
      intros [= <- <-]. apply skipWs_expect in E as (w3 & -> & Hw3).
      apply IHm in P' as (ts & w & P' & Hts & Hw).
      destruct (skipWs_split r3) as (w4 & E3 & Hw4 & _). rewrite P' in E3.
      exists (quote k ++ w1 ++ ":" :: w2 ++ t ++ w3 ++ "," :: w4 ++ ts), w.
      split; [rewrite E1, E3; unfold quote; now norm|].
      split; [now constructor|exact Hw].
    + destruct (expect "}" (skipWs r2)) as [r3|] eqn:E'; [|discriminate].
      intros [= <- <-]. apply skipWs_expect in E' as (w & -> & Hw).
      exists (quote k ++ w1 ++ ":" :: w2 ++ t), w.
      split; [rewrite E1; unfold quote; now norm|].
      split; [now constructor|exact Hw].
Qed.

(** [JSON.parse] accepts exactly the documents of the grammar. *)
Lemma JSON_parse_Document (text : str) (v : json) :
  JSON_parse text = Some v <-> Document text v.
Proof.
  unfold JSON_parse, Document. split.
  - destruct (parseValue _ (skipWs text)) as [[v' r]|] eqn:P; [|discriminate].
    destruct (skipWs r) eqn:R; [|discriminate]. intros [= <-].
    apply parse_sound in P as (t & P & Ht).
    destruct (skipWs_split text) as (w1 & E & Hw1 & _). rewrite P in E.
    exists w1, t, r. repeat split; auto. now apply skipWs_nil_ws.
  - intros (w1 & c & w2 & -> & Hw1 & Hc & Hw2).
    destruct Text_wellEnded as (WT & _).
    rewrite wellEnded_skipWs by eauto.
    destruct parse_complete as (PC & _).
    rewrite (PC c v Hc).
    + apply skipWs_nil_ws in Hw2. now rewrite Hw2.
    + destruct w2 as [|x w2]; simpl; [exact I|].
      apply ws_cons in Hw2 as [Hx _]. now apply jsonWs_not_numChar.
    + rewrite !length_app. lia.
Qed.

(* ================================================================== *)
(** * What [JSON.stringify] prints *)

Lemma json_induction (P : json -> Prop) :
  P JNull -> P JTrue -> P JFalse ->
  (forall literal, P (JNumber literal)) ->
  (forall body, P (JString body)) ->
  (forall items, Forall P items -> P (JArray items)) ->
  (forall members, Forall (fun m => P (snd m)) members -> P (JObject members)) ->
  forall v, P v.
Proof.
  intros H1 H2 H3 H4 H5 H6 H7.
  fix IH 1. intros [| | |literal|body|items|members].
  - exact H1.
  - exact H2.
  - exact H3.
  - apply H4.
  - apply H5.
  - apply H6. induction items as [|x items IHi]; constructor.
    + apply IH.
    + exact IHi.
  - apply H7. induction members as [|[k x] members IHm]; constructor.
    + apply IH.
    + exact IHm.
Qed.

Lemma Items_app (t1 t2 w1 w2 : str) (vs1 vs2 : list json) :
  Items t1 vs1 -> Items t2 vs2 -> ws w1 -> ws w2 ->
  Items (t1 ++ w1 ++ "," :: w2 ++ t2) (vs1 ++ vs2).
Proof.
  intros H1 H2 Hw1 Hw2. induction H1 as [t v Ht|t v u1 u2 ts vs Ht Hu1 Hu2 Hts IH].
  - now constructor.
  - replace ((t ++ u1 ++ "," :: u2 ++ ts) ++ w1 ++ "," :: w2 ++ t2)
      with (t ++ u1 ++ "," :: u2 ++ (ts ++ w1 ++ "," :: w2 ++ t2)) by now norm.
    simpl. now constructor.
Qed.

Lemma Items_join (f : json -> str) (w : str) (items : list json) :
  ws w -> items <> [] -> Forall (fun x => Text (f x) x) items ->
  Items (join ("," :: w) (map f items)) items.
Proof.
  intros Hw Hne H. induction H as [|x items Hx H IH]; [contradiction|].
  destruct items as [|y items].
  - simpl. now constructor.
  - change (join ("," :: w) (map f (x :: y :: items)))
      with (f x ++ [] ++ "," :: w ++ join ("," :: w) (map f (y :: items))).
    constructor; auto; [reflexivity|]. apply IH. discriminate.
Qed.

Lemma Members_join (f : json -> str) (sp w : str) (members : list (str * json)) :
  ws sp -> ws w -> members <> [] ->
  Forall (fun m => string_ok (fst m) = true /\ Text (f (snd m)) (snd m)) members ->
  Members (join ("," :: w)
                (map (fun m : str * json =>
                        let (k, x) := m in quote k ++ ":" :: sp ++ f x) members))
          members.
Proof.
  intros Hsp Hw Hne H. induction H as [|[k x] members [Hk Hx] H IH]; [contradiction|].
  destruct members as [|m members].
  - simpl. apply (M_one k [] sp (f x) x); auto. reflexivity.
  - simpl in Hk, Hx.
    assert (IH' := IH ltac:(discriminate)).
    set (g := fun m0 : str * json => let (k0, x0) := m0 in quote k0 ++ ":" :: sp ++ f x0) in *.
    change (join ("," :: w) (map g ((k, x) :: m :: members)))
      with ((quote k ++ ":" :: sp ++ f x) ++ ("," :: w)
              ++ join ("," :: w) (map g (m :: members))).
    set (rest := join ("," :: w) (map g (m :: members))) in *.
    replace ((quote k ++ ":" :: sp ++ f x) ++ ("," :: w) ++ rest)
      with (quote k ++ [] ++ ":" :: sp ++ f x ++ [] ++ "," :: w ++ rest)
      by (unfold quote; now norm).
    constructor; auto; reflexivity.
Qed.

(** A well-formed tree is printed as a text of the grammar. *)
Lemma serialize_Text (v : json) :
  wf_json v = true ->
  forall gap indent, ws gap -> ws indent -> Text (serialize gap indent v) v.
Proof.
  induction v as [| | |literal|body|items IH|members IH] using json_induction;
    intros Hwf gap indent Hgap Hindent.
  - constructor.
  - constructor.
  - constructor.
  - now constructor.
  - now constructor.
  - destruct items as [|x items]; [apply (T_array_empty []); reflexivity|].
    set (l := x :: items) in *.
    assert (Hne : l <> []) by discriminate.
    assert (Hin : ws (indent ++ gap)) by (apply ws_app; now split).
    assert (Hall : Forall (fun y => Text (serialize gap (indent ++ gap) y) y) l).
    { change (forallb wf_json l = true) in Hwf. rewrite forallb_forall in Hwf.
      rewrite Forall_forall in IH |- *. intros y Hy. apply IH; auto. }
    change (serialize gap indent (JArray l))
      with (if isEmpty gap
            then "[" :: join [","] (map (serialize gap (indent ++ gap)) l) ++ ["]"]
            else "[" :: "010" :: (indent ++ gap)
                     ++ join ("," :: "010" :: indent ++ gap)
                          (map (serialize gap (indent ++ gap)) l)
                     ++ "010" :: indent ++ ["]"]).
    destruct (isEmpty gap).
    + apply (T_array [] _ []); try reflexivity. now apply Items_join.
    + apply (T_array ("010" :: indent ++ gap) _ ("010" :: indent)).
      * apply ws_cons. now split.
      * apply Items_join; auto; try (apply ws_cons; now split).
      * apply ws_cons. now split.
  - destruct members as [|m members]; [apply (T_object_empty []); reflexivity|].
    set (l := m :: members) in *.
    assert (Hne : l <> []) by discriminate.
    assert (Hin : ws (indent ++ gap)) by (apply ws_app; now split).
    assert (Hall : Forall (fun y => string_ok (fst y) = true /\
                             Text (serialize gap (indent ++ gap) (snd y)) (snd y)) l).
    { change (forallb (fun m0 : str * json =>
                         let (k, y) := m0 in string_ok k && wf_json y) l = true) in Hwf.
      rewrite forallb_forall in Hwf.
      rewrite Forall_forall in IH |- *. intros [k y] Hy.
      specialize (Hwf _ Hy). simpl in Hwf. apply andb_true_iff in Hwf as [Hk Hy'].
      split; [exact Hk|]. apply (IH _ Hy); auto. }
    set (sp := if isEmpty gap then [] else [" "]).
    assert (Hsp : ws sp) by (unfold sp; now destruct (isEmpty gap)).
    change (serialize gap indent (JObject l))
      with (let partial :=
              map (fun m : str * json =>
                     let (k, y) := m in
                     quote k ++ ":" :: sp ++ serialize gap (indent ++ gap) y) l in
            if isEmpty gap
            then "{" :: join [","] partial ++ ["}"]
            else "{" :: "010" :: (indent ++ gap)
                     ++ join ("," :: "010" :: indent ++ gap) partial
                     ++ "010" :: indent ++ ["}"]).
    cbv zeta. destruct (isEmpty gap).
    + apply (T_object [] _ []); try reflexivity.
      now apply (Members_join (serialize gap (indent ++ gap)) sp []).
    + apply (T_object ("010" :: indent ++ gap) _ ("010" :: indent)).
      * apply ws_cons. now split.
      * apply (Members_join (serialize gap (indent ++ gap)) sp); auto;
          try (apply ws_cons; now split).
      * apply ws_cons. now split.
Qed.

(* ================================================================== *)
(** * The tail of a file *)

Lemma firstn_app_exact {A : Type} (a b : list A) : firstn (length a) (a ++ b) = a.
Proof. rewrite firstn_app, Nat.sub_diag, firstn_all. simpl. apply app_nil_r. Qed.

Lemma skipn_app_exact {A : Type} (a b : list A) : skipn (length a) (a ++ b) = b.
Proof. rewrite skipn_app, Nat.sub_diag, skipn_all. reflexivity. Qed.

(** [read] returns the last [min size 50] bytes of the file. *)
Lemma readFileTail_fileTail (f : FileSystem) :
  let text := bytes f in
  fileTail (readFileTail f) = skipn (length text - Nat.min (length text) 50) text /\
  readPosition (readFileTail f) = length text - Nat.min (length text) 50 /\
  length (fileTail (readFileTail f)) = Nat.min (length text) 50.
Proof.
  intros text. unfold readFileTail, scanTail, fs_read, fs_size, slice. cbn [fileTail readPosition].
  fold text. set (bs := Nat.min (length text) 50). set (rp := length text - bs).
  assert (Hlen : length (skipn rp text) = bs) by (rewrite length_skipn; unfold rp, bs; lia).
  replace (rp + bs - rp) with bs by lia.
  assert (E : firstn bs (skipn rp text) = skipn rp text).
  { rewrite <- Hlen. apply firstn_all. }
  rewrite E.
  assert (F : firstn bs (skipn rp text ++ repeat zero bs) = skipn rp text).
  { rewrite <- Hlen at 1. apply firstn_app_exact. }
  rewrite F. auto.
Qed.

Lemma dropWhile_all (p : ascii -> bool) (a r : str) :
  forallb p a = true -> stops p r -> dropWhile p (a ++ r) = r.
Proof.
  induction a as [|c a IH]; intros Ha Hr.
  - destruct r as [|c r]; [reflexivity|]. simpl in *. now rewrite Hr.
  - simpl in Ha. apply andb_true_iff in Ha as [Hc Ha]. simpl. rewrite Hc. now apply IH.
Qed.

Lemma dropWhile_keeps (p : ascii -> bool) (a : str) (x : ascii) (r : str) :
  p x = false -> exists d, dropWhile p (a ++ x :: r) = d ++ x :: r.
Proof.
  intros Hx. induction a as [|c a [d IH]].
  - exists []. simpl. now rewrite Hx.
  - simpl. destruct (p c); [now exists d|]. now exists (c :: a).
Qed.

Lemma forallb_rev (p : ascii -> bool) (s : str) : forallb p (rev s) = forallb p s.
Proof.
  induction s as [|c s IH]; [reflexivity|]. simpl.
  rewrite forallb_app, IH. simpl. rewrite andb_true_r. apply andb_comm.
Qed.

(** Trimming a text that ends in a closing bracket and white space. *)
Lemma trim_bracket (a m w : str) (x : ascii) :
  isSpace x = false -> forallb isSpace w = true ->
  exists d, trim (a ++ x :: m ++ "]" :: w) = d ++ x :: m ++ ["]"].
Proof.
  intros Hx Hw. unfold trim.
  destruct (dropWhile_keeps isSpace a x (m ++ "]" :: w) Hx) as [d ->].
  exists d.
  replace (d ++ x :: m ++ "]" :: w) with ((d ++ x :: m) ++ "]" :: w) by now norm.
  rewrite rev_app_distr. simpl rev. rewrite <- app_assoc. simpl app.
  rewrite dropWhile_all; [|now rewrite forallb_rev|reflexivity].
  cbn [rev]. rewrite rev_involutive. now norm.
Qed.

Lemma trim_spaces_bracket (a w : str) :
  forallb isSpace a = true -> forallb isSpace w = true ->
  trim (a ++ "]" :: w) = ["]"].
Proof.
  intros Ha Hw. unfold trim. rewrite dropWhile_all by (auto; reflexivity).
  simpl rev. rewrite dropWhile_all; [reflexivity|now rewrite forallb_rev|reflexivity].
Qed.

Lemma trim_spaces (a : str) : forallb isSpace a = true -> trim a = [].
Proof.
  intros Ha. unfold trim. rewrite <- (app_nil_r a).
  rewrite dropWhile_all by (auto; exact I). reflexivity.
Qed.

Lemma lastIndexOf_go_absent (c : ascii) (s : str) :
  forall i acc, forallb (fun x => negb (x =? c)) s = true -> lastIndexOf_go c s i acc = acc.
Proof.
  induction s as [|x s IH]; intros i acc H; [reflexivity|]. simpl in *.
  apply andb_true_iff in H as [Hx H]. apply negb_true_iff in Hx. rewrite Hx. now apply IH.
Qed.

Lemma lastIndexOf_go_last (c : ascii) (a b : str) :
  forallb (fun x => negb (x =? c)) b = true ->
  forall i acc, lastIndexOf_go c (a ++ c :: b) i acc = (i + Z.of_nat (length a))%Z.
Proof.
  intros Hb. induction a as [|x a IH]; intros i acc.
  - simpl. rewrite Ascii.eqb_refl. rewrite lastIndexOf_go_absent by exact Hb. lia.
  - simpl app. cbn [lastIndexOf_go]. rewrite IH. simpl length. lia.
Qed.

Lemma lastIndexOf_last (c : ascii) (a b : str) :
  forallb (fun x => negb (x =? c)) b = true ->
  lastIndexOf c (a ++ c :: b) = Z.of_nat (length a).
Proof. intros Hb. unfold lastIndexOf. now rewrite lastIndexOf_go_last. Qed.

Lemma lastIndexOf_absent (c : ascii) (s : str) :
  forallb (fun x => negb (x =? c)) s = true -> lastIndexOf c s = (-1)%Z.
Proof. intros H. unfold lastIndexOf. now apply lastIndexOf_go_absent. Qed.

Lemma lastIndexOf_range (c : ascii) (s : str) :
  (-1 <= lastIndexOf c s < Z.of_nat (length s))%Z.
Proof.
  unfold lastIndexOf.
  assert (H : forall s i acc, (-1 <= acc < i)%Z \/ (acc = -1 /\ 0 <= i)%Z ->
                (-1 <= lastIndexOf_go c s i acc < i + Z.of_nat (length s))%Z).
  { clear s. induction s as [|x s IH]; intros i acc Hacc.
    - simpl. lia.
    - cbn [lastIndexOf_go]. simpl length.
      specialize (IH (i + 1)%Z (if x =? c then i else acc)).
      destruct (x =? c); lia. }
  specialize (H s 0%Z (-1)%Z). lia.
Qed.

Lemma countLoop_le (fileTail : str) (k : nat) : countLoop fileTail k <= k.
Proof.
  induction k as [|k IH]; [reflexivity|]. simpl.
  destruct (nth_error fileTail k) as [c|]; [|lia]. destruct (isSpace c); lia.
Qed.

Lemma countLoop_stop (a : str) (x : ascii) (r : str) :
  isSpace x = false -> countLoop (a ++ x :: r) (S (length a)) = 0.
Proof.
  intros Hx. simpl. rewrite nth_error_app2 by lia. rewrite Nat.sub_diag. simpl.
  now rewrite Hx.
Qed.

Lemma countLoop_spaces (a w r : str) :
  forallb isSpace w = true ->
  countLoop (a ++ w ++ r) (length a + length w)
  = length w + countLoop (a ++ w ++ r) (length a).
Proof.
  revert r. induction w as [|c w IH] using rev_ind; intros r Hw.
  - simpl. now rewrite Nat.add_0_r.
  - rewrite forallb_app in Hw. apply andb_true_iff in Hw as [Hw Hc].
    simpl in Hc. rewrite andb_true_r in Hc.
    rewrite length_app. simpl length.
    replace (length a + (length w + 1)) with (S (length a + length w)) by lia.
    cbn [countLoop].
    replace (a ++ (w ++ [c]) ++ r) with ((a ++ w) ++ c :: r) by now norm.
    rewrite nth_error_app2 by (rewrite length_app; lia).
    replace (length a + length w - length (a ++ w)) with 0
      by (rewrite length_app; lia).
    cbn [nth_error]. rewrite Hc.
    replace ((a ++ w) ++ c :: r) with (a ++ w ++ (c :: r)) by now norm.
    rewrite (IH (c :: r) Hw). lia.
Qed.

Lemma ws_forallb_isSpace (w : str) : ws w -> forallb isSpace w = true.
Proof.
  unfold ws. induction w as [|c w IH]; [reflexivity|]. simpl.
  intros H. apply andb_true_iff in H as [Hc Hw].
  now rewrite (jsonWs_isSpace c Hc), IH.
Qed.

Lemma ws_no_bracket (w : str) : ws w -> forallb (fun x => negb (x =? "]")) w = true.
Proof.
  unfold ws. induction w as [|c w IH]; [reflexivity|]. simpl.
  intros H. apply andb_true_iff in H as [Hc Hw]. rewrite IH by exact Hw.
  rewrite andb_true_r. revert Hc. each_char c.
Qed.

(* ================================================================== *)
(** * The patch of a JSON array *)

Lemma Items_nonempty (t : str) (vs : list json) : Items t vs -> vs <> [].
Proof. intros H. destruct H; discriminate. Qed.

Lemma notEnd_false (c : ascii) :
  notEnd c = false -> isSpace c = false /\ (c =? "[") = false.
Proof. unfold notEnd. now intros H%orb_false_iff. Qed.

Lemma notStart_isSpace (c : ascii) : notStart c = false -> isSpace c = false.
Proof. unfold notStart. destruct (isSpace c); [discriminate|reflexivity]. Qed.

(** A document that is an array ends in a character [x] that is not white
    space, white space, the closing bracket and white space; [x] is the
    opening bracket exactly when the array is empty, and further items can
    be put after [x]. *)
Lemma array_document_split (content : str) (old : list json) :
  Document content (JArray old) ->
  exists a x wl w3,
    content = a ++ x :: wl ++ "]" :: w3 /\
    isSpace x = false /\ ws wl /\ ws w3 /\
    ((x =? "[") = true <-> old = []) /\
    forall inner batch u1 u2 u3,
      Items inner batch -> ws u1 -> ws u2 -> ws u3 ->
      Document (a ++ x :: u1 ++ (if x =? "[" then [] else [","]) ++ u2
                  ++ inner ++ u3 ++ ["]"])
               (JArray (old ++ batch)).
Proof.
  intros (w0 & c & w3 & -> & Hw0 & Hc & Hw3).
  inversion Hc as [| | | | |w Hw|w1 t w2 vs Hw1 Ht Hw2| |]; subst.
  - exists w0, "[", w, w3. split; [now norm|].
    repeat split; auto.
    intros inner batch u1 u2 u3 Hi H1 H2 H3. cbn [Ascii.eqb Bool.eqb app].
    exists w0, ("[" :: (u1 ++ u2) ++ inner ++ u3 ++ ["]"]), [].
    split; [rewrite app_nil_r; now norm|]. repeat split; auto.
    apply T_array; auto. apply ws_app. now split.
  - destruct Text_wellEnded as (_ & WI & _).
    destruct (WI _ _ Ht) as [_ (t' & d & -> & Hd)].
    apply notEnd_false in Hd as [Hd1 Hd2].
    exists (w0 ++ "[" :: w1 ++ t'), d, w2, w3. split; [now norm|].
    split; [exact Hd1|]. split; [exact Hw2|]. split; [exact Hw3|]. split.
    + rewrite Hd2. split; [discriminate|]. intros ->. now apply Items_nonempty in Ht.
    + intros inner batch u1 u2 u3 Hi H1 H2 H3. rewrite Hd2.
      exists w0, ("[" :: w1 ++ ((t' ++ [d]) ++ u1 ++ "," :: u2 ++ inner) ++ u3 ++ ["]"]), [].
      split; [rewrite app_nil_r; now norm|]. repeat split; auto.
      apply T_array; auto. now apply Items_app.
Qed.

Lemma forallb_skipn (p : ascii -> bool) (k : nat) (s : str) :
  forallb p s = true -> forallb p (skipn k s) = true.
Proof.
  revert s. induction k as [|k IH]; intros [|c s] H; auto.
  simpl in *. apply andb_true_iff in H as [_ H]. now apply IH.
Qed.

(** Two white-space runs that follow a character that is not white space. *)
Lemma space_run_unique (u v a b : str) (x y : ascii) :
  forallb isSpace u = true -> forallb isSpace v = true ->
  isSpace x = false -> isSpace y = false ->
  u ++ x :: a = v ++ y :: b -> u = v /\ x = y /\ a = b.
Proof.
  revert v. induction u as [|c u IH]; intros [|e v] Hu Hv Hx Hy E; simpl in *.
  - injection E as -> ->. auto.
  - injection E as -> _. apply andb_true_iff in Hv as [Hv _]. congruence.
  - injection E as -> _. apply andb_true_iff in Hu as [Hu _]. congruence.
  - injection E as -> E. apply andb_true_iff in Hu as [_ Hu].
    apply andb_true_iff in Hv as [_ Hv].
    destruct (IH v Hu Hv Hx Hy E) as (-> & -> & ->). auto.
Qed.

Lemma shouldInsertComma_tail (d wl : str) (x : ascii) :
  isSpace x = false -> forallb isSpace wl = true ->
  shouldInsertComma (d ++ x :: wl ++ ["]"]) = negb (x =? "[").
Proof.
  intros Hx Hwl. unfold shouldInsertComma.
  destruct (x =? "[") eqn:E; simpl.
  - apply Ascii.eqb_eq in E. subst x.
    destruct (regexTest commaRegex _) eqn:R; [|reflexivity].
    apply regexTest_commaRegex in R as (pre & c & w & R & Hc & Hb & Hw).
    replace (d ++ "[" :: wl ++ ["]"]) with ((d ++ "[" :: wl) ++ ["]"]) in R by now norm.
    replace (pre ++ c :: w ++ ["]"]) with ((pre ++ c :: w) ++ ["]"]) in R by now norm.
    apply app_inj_tail in R as [R _].
    apply (f_equal (@rev ascii)) in R. rewrite !rev_app_distr in R. simpl in R.
    rewrite <- !app_assoc in R. simpl in R.
    apply space_run_unique in R as (_ & R & _);
      rewrite ?forallb_rev; auto. congruence.
  - apply regexTest_commaRegex. exists d, x, wl. repeat split; auto.
    intros ->. discriminate.
Qed.

(** The window of a file that ends in a closing bracket between two runs of
    white space: it reaches the character before the first run when the
    trimmed tail holds more than the bracket, and also when the two runs and
    the two characters fit in fifty bytes. *)
Lemma window_reaches (a wl w3 : str) (x : ascii) :
  let content := a ++ x :: wl ++ "]" :: w3 in
  let scan := readFileTail (fileWith content) in
  ws wl -> ws w3 ->
  2 <= length (trimmedFileTail scan) \/ length wl + length w3 + 2 <= 50 ->
  readPosition scan <= length a.
Proof.
  intros content scan Hwl Hw3 Hlen.
  pose proof (ws_forallb_isSpace wl Hwl) as Swl.
  pose proof (ws_forallb_isSpace w3 Hw3) as Sw3.
  destruct (readFileTail_fileTail (fileWith content)) as (Etail & Erp & _).
  change (bytes (fileWith content)) with content in *. fold scan in Etail, Erp.
  set (rp := readPosition scan) in *.
  assert (Etrim : trimmedFileTail scan = trim (fileTail scan)) by reflexivity.
  destruct Hlen as [Hlen|Hlen].
  2:{ rewrite Erp. unfold content. rewrite !length_app. simpl length.
      rewrite length_app. simpl length. lia. }
  destruct (Nat.le_gt_cases rp (length a)) as [H|H]; [exact H|exfalso].
  rewrite Etrim, Etail, <- Erp in Hlen. unfold content in Hlen.
  rewrite skipn_app in Hlen. rewrite skipn_all2 in Hlen by lia. simpl app in Hlen.
  destruct (rp - length a) as [|k] eqn:K; [lia|]. simpl skipn in Hlen.
  rewrite skipn_app in Hlen.
  destruct (Nat.le_gt_cases k (length wl)) as [H'|H'].
  - replace (k - length wl) with 0 in Hlen by lia. simpl skipn in Hlen.
    rewrite trim_spaces_bracket in Hlen; [simpl in Hlen; lia| |exact Sw3].
    now apply forallb_skipn.
  - rewrite skipn_all2 in Hlen by lia. simpl app in Hlen.
    destruct (k - length wl) as [|j] eqn:J; [lia|]. simpl skipn in Hlen.
    rewrite trim_spaces in Hlen; [simpl in Hlen; lia|].
    now apply forallb_skipn.
Qed.

(** The scan of such a file, when the window reaches the character before
    the white space. *)
Lemma scan_at (options : RequiredOptions) (dataToWrite : list json)
      (a wl w3 : str) (x : ascii) :
  let content := a ++ x :: wl ++ "]" :: w3 in
  let scan := readFileTail (fileWith content) in
  isSpace x = false -> ws wl -> ws w3 ->
  readPosition scan <= length a ->
  shouldInsertComma (trimmedFileTail scan) = negb (x =? "[") /\
  truncatePosition (buildInsertion options dataToWrite scan)
  = Z.of_nat (length a + 1 + (if pretty options then 0 else length wl)) /\
  lastBracketIndex scan <> (-1)%Z /\
  isEmpty (trimmedFileTail scan) = false /\
  2 <= length (trimmedFileTail scan).
Proof.
  intros content scan Hx Hwl Hw3 Hrp.
  pose proof (ws_forallb_isSpace wl Hwl) as Swl.
  pose proof (ws_forallb_isSpace w3 Hw3) as Sw3.
  destruct (readFileTail_fileTail (fileWith content)) as (Etail & Erp & _).
  change (bytes (fileWith content)) with content in *. fold scan in Etail, Erp.
  set (rp := readPosition scan) in *.
  assert (Etrim : trimmedFileTail scan = trim (fileTail scan)) by reflexivity.
  assert (Elbi : lastBracketIndex scan = lastIndexOf "]" (fileTail scan)) by reflexivity.
  set (a' := skipn rp a).
  assert (Ha' : length a' = length a - rp) by (unfold a'; now rewrite length_skipn).
  assert (Et : fileTail scan = a' ++ x :: wl ++ "]" :: w3).
  { rewrite Etail, <- Erp. unfold content. rewrite skipn_app.
    replace (rp - length a) with 0 by lia. reflexivity. }
  destruct (trim_bracket a' wl w3 x Hx Sw3) as [d Ed].
  assert (Hlbi : lastBracketIndex scan = Z.of_nat (length a' + 1 + length wl)).
  { rewrite Elbi, Et.
    replace (a' ++ x :: wl ++ "]" :: w3) with ((a' ++ x :: wl) ++ "]" :: w3) by now norm.
    rewrite lastIndexOf_last by now apply ws_no_bracket.
    rewrite length_app. simpl length. f_equal. lia. }
  assert (Hcount : countLoop (fileTail scan) (length a' + 1 + length wl) = length wl).
  { rewrite Et.
    replace (a' ++ x :: wl ++ "]" :: w3) with ((a' ++ [x]) ++ wl ++ "]" :: w3) by now norm.
    replace (length a' + 1) with (length (a' ++ [x])) by (rewrite length_app; reflexivity).
    rewrite countLoop_spaces by exact Swl.
    replace ((a' ++ [x]) ++ wl ++ "]" :: w3) with (a' ++ x :: wl ++ "]" :: w3) by now norm.
    rewrite length_app. simpl length. rewrite Nat.add_1_r.
    rewrite countLoop_stop by exact Hx. lia. }
  rewrite Etrim, Et, Ed. repeat split.
  - now apply shouldInsertComma_tail.
  - unfold buildInsertion, countNewLinesAndSpacesBeforeLastBracket. cbn [truncatePosition].
    fold rp. rewrite Hlbi. rewrite Nat2Z.id, Hcount.
    destruct (pretty options); lia.
  - rewrite Hlbi. lia.
  - now destruct d.
  - rewrite length_app. simpl length. rewrite length_app. simpl length. lia.
Qed.

Lemma scan_of_array_tail (options : RequiredOptions) (dataToWrite : list json)
      (a wl w3 : str) (x : ascii) :
  let content := a ++ x :: wl ++ "]" :: w3 in
  let scan := readFileTail (fileWith content) in
  isSpace x = false -> ws wl -> ws w3 ->
  2 <= length (trimmedFileTail scan) ->
  shouldInsertComma (trimmedFileTail scan) = negb (x =? "[") /\
  truncatePosition (buildInsertion options dataToWrite scan)
  = Z.of_nat (length a + 1 + (if pretty options then 0 else length wl)) /\
  lastBracketIndex scan <> (-1)%Z /\
  isEmpty (trimmedFileTail scan) = false /\
  readPosition scan <= length a.
Proof.
  intros content scan Hx Hwl Hw3 Hlen.
  assert (Hrp : readPosition scan <= length a)
    by (apply window_reaches; auto).
  destruct (scan_at options dataToWrite a wl w3 x Hx Hwl Hw3 Hrp) as (A & B & C & D & _).
  auto.
Qed.

(* ------------------------------------------------------------------ *)
(** ** The text of the new items *)

Lemma slice_brackets (o c : ascii) (m : str) :
  slice (o :: m ++ [c]) 1 (length (o :: m ++ [c]) - 1) = m.
Proof.
  unfold slice. simpl skipn. simpl length. rewrite length_app. simpl length.
  replace (S (length m + 1) - 1 - 1) with (length m) by lia.
  apply firstn_app_exact.
Qed.

Lemma trim_wellEnded (lead t trail : str) :
  forallb isSpace lead = true -> forallb isSpace trail = true -> wellEnded t ->
  trim (lead ++ t ++ trail) = t.
Proof.
  intros Hl Ht [(c & t1 & E1 & Hc) (t2 & d & E2 & Hd)].
  apply notStart_isSpace in Hc. apply notEnd_false in Hd as [Hd _].
  unfold trim. rewrite dropWhile_all; [|exact Hl|rewrite E1; exact Hc].
  rewrite E2. rewrite rev_app_distr, rev_app_distr. simpl rev at 2. simpl app.
  rewrite dropWhile_all; [|now rewrite forallb_rev|exact Hd].
  change (d :: rev t2) with (rev (t2 ++ [d])) || idtac.
  cbn [rev]. now rewrite rev_involutive.
Qed.

Lemma JSON_stringify_array (indent : nat) (dataToWrite : list json) :
  dataToWrite <> [] ->
  let gap := spaces (Nat.min 10 indent) in
  JSON_stringify (JArray dataToWrite) indent
  = "[" :: (if isEmpty gap then [] else "010" :: gap)
        ++ itemsText indent dataToWrite
        ++ (if isEmpty gap then [] else ["010"]) ++ ["]"].
Proof.
  intros Hne gap. unfold JSON_stringify, itemsText. fold gap.
  destruct dataToWrite as [|x l]; [contradiction|].
  change (serialize gap [] (JArray (x :: l)))
    with (if isEmpty gap
          then "[" :: join [","] (map (serialize gap ([] ++ gap)) (x :: l)) ++ ["]"]
          else "[" :: "010" :: ([] ++ gap)
                   ++ join ("," :: "010" :: [] ++ gap)
                        (map (serialize gap ([] ++ gap)) (x :: l))
                   ++ "010" :: [] ++ ["]"]).
  cbn [app]. destruct (isEmpty gap); reflexivity.
Qed.

Lemma itemsText_Items (indent : nat) (dataToWrite : list json) :
  dataToWrite <> [] -> forallb wf_json dataToWrite = true ->
  Items (itemsText indent dataToWrite) dataToWrite.
Proof.
  intros Hne Hwf. unfold itemsText. set (gap := spaces (Nat.min 10 indent)).
  assert (Hgap : ws gap) by apply ws_spaces.
  assert (Hall : Forall (fun y => Text (serialize gap gap y) y) dataToWrite).
  { rewrite forallb_forall in Hwf. apply Forall_forall. intros y Hy.
    apply serialize_Text; auto. }
  destruct (isEmpty gap).
  - apply Items_join; auto; reflexivity.
  - apply Items_join; auto; apply ws_cons; now split.
Qed.

(** [removeFirstAndLastBrackets] of a serialized array is the text of its
    items, without the brackets and the white space inside them. *)
Lemma jsonString_itemsText (options : RequiredOptions) (dataToWrite : list json) :
  dataToWrite <> [] -> forallb wf_json dataToWrite = true ->
  jsonString options dataToWrite = itemsText (indent options) dataToWrite.
Proof.
  intros Hne Hwf. unfold jsonString, removeFirstAndLastBrackets.
  rewrite JSON_stringify_array by exact Hne.
  set (gap := spaces (Nat.min 10 (indent options))).
  set (t := itemsText (indent options) dataToWrite).
  set (lead := if isEmpty gap then [] else "010" :: gap).
  set (trail := if isEmpty gap then [] else ["010"]).
  replace ("[" :: lead ++ t ++ trail ++ ["]"]) with ("[" :: (lead ++ t ++ trail) ++ ["]"])
    by now norm.
  rewrite slice_brackets.
  destruct Text_wellEnded as (_ & WI & _).
  apply trim_wellEnded.
  - unfold lead. destruct (isEmpty gap); [reflexivity|].
    apply (ws_forallb_isSpace ("010" :: gap)). apply ws_cons. split; [reflexivity|apply ws_spaces].
  - unfold trail. now destruct (isEmpty gap).
  - apply (WI _ dataToWrite). now apply itemsText_Items.
Qed.

(** The pure content of the patch.  On a file that holds a JSON array whose
    closing bracket and the character before it (white space apart) lie in
    the tail window, truncating at [truncatePosition] and writing
    [insertion] there leaves a JSON array: the former items followed by the
    batch in its order.  The bytes before [truncatePosition] are those of the
    former file, and [truncatePosition] lies in the window. *)
Lemma patch_appends (options : RequiredOptions) (batch old : list json) (content : str) :
  Document content (JArray old) ->
  batch <> [] -> forallb wf_json batch = true ->
  2 <= length (trimmedFileTail (readFileTail (fileWith content))) ->
  let patch := buildInsertion options batch (readFileTail (fileWith content)) in
  let position := Z.to_nat (truncatePosition patch) in
  Document (patchedContent options batch content) (JArray (old ++ batch)) /\
  (0 <= truncatePosition patch)%Z /\
  position < length content /\
  length content - position <= 50 /\
  firstn position (patchedContent options batch content) = firstn position content /\
  lastBracketIndex (readFileTail (fileWith content)) <> (-1)%Z /\
  isEmpty (trimmedFileTail (readFileTail (fileWith content))) = false.
Proof.
  intros Hdoc Hne Hwf Hlen patch position.
  destruct (array_document_split content old Hdoc)
    as (a & x & wl & w3 & E & Hx & Hwl & Hw3 & Hold & Hbuild).
  subst content.
  destruct (scan_of_array_tail options batch a wl w3 x Hx Hwl Hw3 Hlen)
    as (Hcomma & Htp & Hlbi & Hempty & Hrp).
  fold patch in Htp.
  assert (Hpos : position = length a + 1 + (if pretty options then 0 else length wl)).
  { unfold position. rewrite Htp. apply Nat2Z.id. }
  assert (Hfirst : firstn position (a ++ x :: wl ++ "]" :: w3)
                   = a ++ x :: (if pretty options then [] else wl)).
  { rewrite Hpos. destruct (pretty options).
    - replace (a ++ x :: wl ++ "]" :: w3) with ((a ++ [x]) ++ wl ++ "]" :: w3) by now norm.
      replace (length a + 1 + 0) with (length (a ++ [x])) by (rewrite length_app; simpl; lia).
      rewrite firstn_app_exact. now norm.
    - replace (a ++ x :: wl ++ "]" :: w3) with ((a ++ x :: wl) ++ "]" :: w3) by now norm.
      replace (length a + 1 + length wl) with (length (a ++ x :: wl))
        by (rewrite length_app; simpl; lia).
      now rewrite firstn_app_exact. }
  assert (Hins : insertion patch
                 = (if x =? "[" then [] else [","])
                     ++ (maybeNewLine options ++ maybeIndentation options)
                     ++ itemsText (indent options) batch ++ maybeNewLine options ++ ["]"]).
  { unfold patch, buildInsertion. cbn [insertion]. rewrite Hcomma.
    rewrite jsonString_itemsText by assumption.
    destruct (x =? "["); simpl negb; cbv iota; now norm. }
  assert (Hpatched : patchedContent options batch (a ++ x :: wl ++ "]" :: w3)
                     = a ++ x :: (if pretty options then [] else wl)
                         ++ (if x =? "[" then [] else [","])
                         ++ (maybeNewLine options ++ maybeIndentation options)
                         ++ itemsText (indent options) batch
                         ++ maybeNewLine options ++ ["]"]).
  { unfold patchedContent. fold patch. fold position. rewrite Hfirst, Hins. now norm. }
  split; [|split; [|split; [|split; [|split; [|split]]]]].
  - rewrite Hpatched. apply Hbuild.
    + now apply itemsText_Items.
    + destruct (pretty options); [reflexivity|exact Hwl].
    + unfold maybeNewLine, maybeIndentation. destruct (pretty options); [|reflexivity].
      apply (ws_cons "010"). split; [reflexivity|apply ws_spaces].
    + unfold maybeNewLine. now destruct (pretty options).
  - rewrite Htp. lia.
  - rewrite Hpos, !length_app. simpl length. rewrite length_app. simpl length.
    destruct (pretty options); lia.
  - destruct (readFileTail_fileTail (fileWith (a ++ x :: wl ++ "]" :: w3))) as (_ & Erp & _).
    change (bytes (fileWith ?t)) with t in Erp. rewrite Erp in Hrp. rewrite Hpos.
    destruct (pretty options); lia.
  - unfold patchedContent. fold patch. fold position.
    rewrite firstn_app.
    assert (Hl : length (firstn position (a ++ x :: wl ++ "]" :: w3)) = position).
    { rewrite Hfirst, Hpos, length_app. simpl length.
      destruct (pretty options); simpl length; lia. }
    rewrite Hl, Nat.sub_diag. simpl firstn. rewrite app_nil_r.
    rewrite <- Hl at 1. apply firstn_all.
  - exact Hlbi.
  - exact Hempty.
Qed.

(* ================================================================== *)
(** * A cycle that nothing interrupts *)

Lemma fs_write_writeText (data : str) (position : option Z) (f : FileSystem) :
  fs_write data position f
  = match writeText data position (bytes f) with
    | inl t => inl (setContent t f)
    | inr e => inr e
    end.
Proof. unfold fs_write, writeText. now destruct (_ || _). Qed.

Lemma fs_read_content (bufferSize readPosition : nat) (f : FileSystem) :
  fs_read bufferSize readPosition f
  = fs_read bufferSize readPosition (newFileSystem (content f)).
Proof. reflexivity. Qed.

(** One operation of a cycle during which nothing is appended. *)
Lemma finish_step (options : RequiredOptions) (a : Await) (st : State) :
  (inTry a <> None -> buffer st = []) ->
  let r := resume options a None st in
  finish options (snd r) (content (fsys (fst r))) (buffer (fst r))
  = finish options a (content (fsys st)) (buffer st) /\
  rank (snd r) <= pred (rank a) /\
  (inTry (snd r) <> None -> buffer (fst r) = []).
Proof.
  intros Hq.
  assert (T : forall d fh e s,
             finish options (snd (throwInTry d fh e s))
                    (content (fsys (fst (throwInTry d fh e s))))
                    (buffer (fst (throwInTry d fh e s)))
             = (Rejected e, content (fsys s), d ++ buffer s) /\
             rank (snd (throwInTry d fh e s)) <= 1 /\
             (inTry (snd (throwInTry d fh e s)) <> None ->
              buffer (fst (throwInTry d fh e s)) = [])).
  { intros d fh e s. unfold throwInTry. destruct fh; cbn; repeat split; auto;
      intros H; now destruct H. }
  assert (L : forall h s,
             buffer s = [] ->
             finish options (snd (loopTest options (Some h) s))
                    (content (fsys (fst (loopTest options (Some h) s))))
                    (buffer (fst (loopTest options (Some h) s)))
             = (Fulfilled, content (fsys s), []) /\
             rank (snd (loopTest options (Some h) s)) <= 1 /\
             (inTry (snd (loopTest options (Some h) s)) <> None ->
              buffer (fst (loopTest options (Some h) s)) = [])).
  { intros h s Hb. unfold loopTest. rewrite Hb. cbn. rewrite Hb.
    repeat split; auto. }
  assert (W : forall d h data position,
             buffer st = [] ->
             let r := match fs_write data position (fsys st) with
                      | inl f => loopTest options (Some h) (setFsys f st)
                      | inr e => throwInTry d (Some h) e st
                      end in
             finish options (snd r) (content (fsys (fst r))) (buffer (fst r))
             = afterWrite d data position (content (fsys st)) (buffer st) /\
             rank (snd r) <= 1 /\ (inTry (snd r) <> None -> buffer (fst r) = [])).
  { intros d h data position Hb. rewrite fs_write_writeText. unfold afterWrite.
    change (bytes (fsys st)) with (orElse (content (fsys st)) []).
    destruct (writeText data position _) as [t|e].
    - destruct (L h (setFsys (setContent t (fsys st)) st) Hb) as (L1 & L2 & L3).
      rewrite Hb. auto.
    - apply T. }
  destruct a as [d prev|d h|d h bs rp|d h|d h patch|d h patch|h [e|]|result];
    cbn [resume rank pred inTry] in *.
  - specialize (Hq ltac:(discriminate)).
    unfold fs_open. cbn [finish]. destruct (content (fsys st)) as [text|] eqn:C.
    + cbn [fst snd call setFsys fsys buffer logCall content finish]. rewrite Hq.
      repeat split; auto; lia.
    + unfold openFlags. destruct (initArray options); cbn [str_eqb].
      * change (str_eqb (chars "a+") (chars "a+")) with true. cbv iota.
        cbn [fst snd call setFsys fsys buffer logCall content finish]. rewrite Hq.
        repeat split; auto; lia.
      * change (str_eqb (chars "r+") (chars "a+")) with false. cbv iota.
        destruct (T d prev ENOENT st) as (T1 & T2 & T3). rewrite T1, C.
        repeat split; auto; lia.
  - specialize (Hq ltac:(discriminate)).
    cbn [fst snd call setFsys fsys buffer logCall content finish]. rewrite Hq.
    repeat split; auto; lia.
  - specialize (Hq ltac:(discriminate)). cbn [finish]. unfold afterRead.
    rewrite (fs_read_content bs rp (fsys st)).
    destruct (isEmpty _ && _).
    + cbn [fst snd call setFsys fsys buffer logCall content finish]. rewrite Hq.
      repeat split; auto; lia.
    + destruct (_ =? _)%Z.
      * destruct (T d (Some h) NotAJsonArray st) as (T1 & T2 & T3). rewrite T1.
        repeat split; auto; lia.
      * cbn [fst snd call setFsys fsys buffer logCall content finish]. rewrite Hq.
        repeat split; auto; lia.
  - specialize (Hq ltac:(discriminate)). cbn [finish].
    destruct (W d h (JSON_stringify (JArray d) (indent options)) None Hq) as (W1 & W2 & W3).
    repeat split; auto; lia.
  - specialize (Hq ltac:(discriminate)).
    cbn [fst snd call setFsys fsys buffer logCall content finish]. rewrite Hq.
    repeat split; auto; lia.
  - specialize (Hq ltac:(discriminate)). cbn [finish].
    destruct (W d h (insertion patch) (Some (truncatePosition patch)) Hq) as (W1 & W2 & W3).
    repeat split; auto; lia.
  - cbn. repeat split; auto; intros H; now destruct H.
  - cbn. repeat split; auto; intros H; now destruct H.
  - cbn. repeat split; auto; intros H; now destruct H.
Qed.

Lemma settleAll_finish (options : RequiredOptions) (n : nat) :
  forall (st : State) (p : Promise) (a : Await),
    flushPromise st = Some (p, a) ->
    (inTry a <> None -> buffer st = []) ->
    rank a <= n ->
    let st' := settleAll options n st in
    exists r,
      flushPromise st' = Some (p, Returned r) /\
      (r, content (fsys st'), buffer st') = finish options a (content (fsys st)) (buffer st) /\
      settled st' = settled st /\ isShutdown st' = isShutdown st.
Proof.
  induction n as [|n IH]; intros st p a Hp Hq Hr.
  - destruct a; simpl in Hr; try lia. exists result. cbn. auto.
  - change (settleAll options (S n) st)
      with (settleAll options n (step options st (Settle None))).
    rewrite (step_settle options st p a None Hp).
    destruct (finish_step options a st Hq) as (F1 & F2 & F3).
    destruct (resume_frame options a None st) as (_ & R2 & R3 & _).
    set (r := resume options a None st) in *.
    destruct (IH (setFlushPromise (Some (p, snd r)) (fst r)) p (snd r))
      as (res & I1 & I2 & I3 & I4); auto; [lia|].
    exists res. cbn in I2, I3, I4. rewrite I1, I2, I3, I4. auto.
Qed.

(** [flush] on an idle writer whose queue is not empty, the cycle left to
    run: what [finish] says of the outcome, the file and the queue. *)
Lemma flushAndSettle_finish (options : RequiredOptions) (st : State) :
  flushPromise st = None -> buffer st <> [] ->
  let done := flushAndSettle options st in
  exists r,
    (r, content (fsys done), buffer done)
    = finish options (AwaitOpen (buffer st) None) (content (fsys st)) [] /\
    outcomeOf (nextPromise st) done = Some r /\
    flushPromise done = None /\
    isShutdown done = isShutdown st.
Proof.
  intros Hidle Hne done. unfold done, flushAndSettle.
  rewrite flush_idle_nonempty by assumption. cbn [fst].
  set (s1 := {| buffer := [] |}).
  destruct (settleAll_finish options 6 s1 (nextPromise st) (AwaitOpen (buffer st) None))
    as (r & R1 & R2 & R3 & R4); auto.
  exists r. unfold step. rewrite R1. cbn [content fsys buffer flushPromise isShutdown].
  repeat split; auto.
  unfold outcomeOf. cbn. now rewrite Nat.eqb_refl.
Qed.

(* ================================================================== *)
(** * What a flush leaves in the file *)

Lemma afterWrite_patch (d : list json) (data : str) (position : Z) (text : str)
      (b : list json) :
  (0 <= position)%Z -> Z.to_nat position <= length text ->
  afterWrite d data (Some position) (Some (truncateText position text)) b
  = (Fulfilled, Some (firstn (Z.to_nat position) text ++ data), b).
Proof.
  intros H0 Hle. unfold afterWrite, writeText, truncateText, fs_truncate. cbn.
  destruct (position <? 0)%Z eqn:E; [apply Z.ltb_lt in E; lia|].
  rewrite length_firstn, Nat.min_l by exact Hle.
  destruct (Z.of_nat (Z.to_nat position) <? position)%Z eqn:E'; [apply Z.ltb_lt in E'; lia|].
  cbn. rewrite firstn_firstn, Nat.min_id.
  rewrite skipn_all2 by (rewrite length_firstn; lia). now rewrite app_nil_r.
Qed.

Lemma afterOpen_scan (options : RequiredOptions) (d : list json) (text : str)
      (b : list json) :
  afterOpen options d (Some text) b
  = let scan := readFileTail (fileWith text) in
    if isEmpty (trimmedFileTail scan) && initArray options then
      afterWrite d (JSON_stringify (JArray d) (indent options)) None (Some text) b
    else if (lastBracketIndex scan =? -1)%Z then (Rejected NotAJsonArray, Some text, d ++ b)
    else
      let patch := buildInsertion options d scan in
      afterWrite d (insertion patch) (Some (truncatePosition patch))
                 (Some (truncateText (truncatePosition patch) text)) b.
Proof. reflexivity. Qed.

Lemma flush_patches (options : RequiredOptions) (st : State) (old : list json)
      (text : str) :
  flushPromise st = None -> buffer st <> [] ->
  forallb wf_json (buffer st) = true ->
  content (fsys st) = Some text ->
  Document text (JArray old) ->
  2 <= length (trimmedFileTail (readFileTail (fileWith text))) ->
  let done := flushAndSettle options st in
  outcomeOf (nextPromise st) done = Some Fulfilled /\
  buffer done = [] /\
  content (fsys done) = Some (patchedContent options (buffer st) text) /\
  flushPromise done = None /\ isShutdown done = isShutdown st.
Proof.
  intros Hidle Hne Hwf Htext Hdoc Hlen done.
  destruct (patch_appends options (buffer st) old text Hdoc Hne Hwf Hlen)
    as (_ & Hpos0 & Hlt & _ & _ & Hlbi & Hempty).
  destruct (flushAndSettle_finish options st Hidle Hne) as (r & Hfin & Hout & Hfp & Hsd).
  fold done in Hfin, Hout, Hfp, Hsd.
  rewrite Htext in Hfin. cbn [finish] in Hfin. rewrite afterOpen_scan in Hfin.
  cbv zeta in Hfin. rewrite Hempty in Hfin. cbn [andb] in Hfin.
  apply Z.eqb_neq in Hlbi. rewrite Hlbi in Hfin.
  rewrite afterWrite_patch in Hfin by lia.
  injection Hfin as -> Hc Hb. auto.
Qed.

(** The flush of a batch into a file that holds a JSON array.  The writer is
    idle, its queue holds a non-empty batch of well-formed entries, the file
    parses as an array, the trimmed tail window holds the closing bracket and
    at least one more character, and the window is 7-bit (byte offsets and
    string indices then coincide).  When every operation succeeds and nothing
    is appended meanwhile, the promise of [flush] is fulfilled, the queue is
    empty, and the file parses as the former array followed by the batch in
    its order; the bytes before the truncate position are unchanged, and that
    position lies in the last fifty bytes. *)
Theorem flush_appends_batch :
  forall (options : RequiredOptions) (st : State) (old : list json) (text : str),
    flushPromise st = None -> buffer st <> [] ->
    forallb wf_json (buffer st) = true ->
    content (fsys st) = Some text ->
    JSON_parse text = Some (JArray old) ->
    2 <= length (trimmedFileTail (readFileTail (fileWith text))) ->
    forallb is7bit (fileTail (readFileTail (fileWith text))) = true ->
    let done := flushAndSettle options st in
    let position :=
      Z.to_nat (truncatePosition
                  (buildInsertion options (buffer st) (readFileTail (fileWith text)))) in
    outcomeOf (nextPromise st) done = Some Fulfilled /\
    buffer done = [] /\
    content (fsys done) = Some (patchedContent options (buffer st) text) /\
    JSON_parse (patchedContent options (buffer st) text)
    = Some (JArray (old ++ buffer st)) /\
    firstn position (patchedContent options (buffer st) text) = firstn position text /\
    length text - position <= 50.
Proof.
  intros options st old text Hidle Hne Hwf Htext Hparse Hlen _ done position.
  apply JSON_parse_Document in Hparse.
  destruct (patch_appends options (buffer st) old text Hparse Hne Hwf Hlen)
    as (Hdoc & _ & _ & Hwin & Hfirst & _).
  destruct (flush_patches options st old text Hidle Hne Hwf Htext Hparse Hlen)
    as (A & B & C & _).
  repeat split; auto.
  now apply JSON_parse_Document.
Qed.

(** The flush of a batch into a file that does not exist or whose tail is
    white space only (7-bit), auto-initialization being enabled: the
    serialized batch is written at the end of the file, whatever the file
    held before; when the file held JSON white space only (nothing, in
    particular) it then parses as the batch. *)
Theorem flush_initializes_file :
  forall (options : RequiredOptions) (st : State),
    flushPromise st = None -> buffer st <> [] ->
    initArray options = true ->
    forallb isSpace (fileTail (readFileTail (fsys st))) = true ->
    forallb is7bit (fileTail (readFileTail (fsys st))) = true ->
    let done := flushAndSettle options st in
    let written := bytes (fsys st) ++ JSON_stringify (JArray (buffer st)) (indent options) in
    outcomeOf (nextPromise st) done = Some Fulfilled /\
    buffer done = [] /\
    content (fsys done) = Some written /\
    (forallb wf_json (buffer st) = true -> ws (bytes (fsys st)) ->
     JSON_parse written = Some (JArray (buffer st))).
Proof.
  intros options st Hidle Hne Hinit Htail _ done written.
  destruct (flushAndSettle_finish options st Hidle Hne) as (r & Hfin & Hout & _).
  fold done in Hfin, Hout.
  assert (E : finish options (AwaitOpen (buffer st) None) (content (fsys st)) []
              = (Fulfilled, Some written, [])).
  { assert (Hscan : forall text,
               forallb isSpace (fileTail (readFileTail (fileWith text))) = true ->
               afterOpen options (buffer st) (Some text) []
               = (Fulfilled,
                  Some (text ++ JSON_stringify (JArray (buffer st)) (indent options)), [])).
    { intros text Ht. rewrite afterOpen_scan. cbv zeta.
      change (trimmedFileTail (readFileTail (fileWith text)))
        with (trim (fileTail (readFileTail (fileWith text)))).
      rewrite trim_spaces by exact Ht. rewrite Hinit. cbn [isEmpty andb].
      unfold afterWrite, writeText. cbn [orElse].
      destruct (Z.of_nat (length text) <? 0)%Z eqn:E1; [apply Z.ltb_lt in E1; lia|].
      rewrite Z.ltb_irrefl. cbn [orb].
      rewrite Nat2Z.id, firstn_all, skipn_all2 by lia. now rewrite app_nil_r. }
    change (readFileTail (fsys st)) with (readFileTail (fileWith (bytes (fsys st)))) in Htail.
    unfold written. unfold bytes in *. cbn [finish].
    destruct (content (fsys st)) as [text|] eqn:C.
    - apply Hscan. exact Htail.
    - rewrite Hinit. apply Hscan. reflexivity. }
  rewrite E in Hfin. injection Hfin as -> Hc Hb.
  repeat split; auto.
  intros Hwf Hws. apply JSON_parse_Document.
  exists (bytes (fsys st)), (JSON_stringify (JArray (buffer st)) (indent options)), [].
  rewrite app_nil_r. repeat split; auto.
  apply serialize_Text; [exact Hwf|apply ws_spaces|reflexivity].
Qed.

(** The flush of a batch into a file whose tail window holds no closing
    bracket (and is not white space only when auto-initialization is
    enabled): the promise is rejected with the error 'The file does not
    contain a valid JSON array', the file is left as it was and the batch is
    back in the queue. *)
Theorem flush_rejects_file_without_bracket :
  forall (options : RequiredOptions) (st : State) (text : str),
    flushPromise st = None -> buffer st <> [] ->
    content (fsys st) = Some text ->
    lastBracketIndex (readFileTail (fileWith text)) = (-1)%Z ->
    isEmpty (trimmedFileTail (readFileTail (fileWith text))) && initArray options = false ->
    forallb is7bit (fileTail (readFileTail (fileWith text))) = true ->
    let done := flushAndSettle options st in
    outcomeOf (nextPromise st) done = Some (Rejected NotAJsonArray) /\
    content (fsys done) = Some text /\
    buffer done = buffer st /\
    flushPromise done = None.
Proof.
  intros options st text Hidle Hne Htext Hlbi Hinit _ done.
  destruct (flushAndSettle_finish options st Hidle Hne) as (r & Hfin & Hout & Hfp & _).
  fold done in Hfin, Hout, Hfp.
  rewrite Htext in Hfin. cbn [finish] in Hfin. rewrite afterOpen_scan in Hfin.
  cbv zeta in Hfin. rewrite Hinit, Hlbi in Hfin. cbn in Hfin.
  rewrite app_nil_r in Hfin. injection Hfin as -> Hc Hb. auto.
Qed.

(* ================================================================== *)
(** * The format of the patched file *)

Lemma patchedContent_shape (options : RequiredOptions) (d : list json)
      (a wl w3 : str) (x : ascii) :
  isSpace x = false -> ws wl -> ws w3 ->
  readPosition (readFileTail (fileWith (a ++ x :: wl ++ "]" :: w3))) <= length a ->
  patchedContent options d (a ++ x :: wl ++ "]" :: w3)
  = a ++ x :: (if pretty options then [] else wl)
      ++ (if x =? "[" then [] else [","])
      ++ maybeNewLine options ++ maybeIndentation options
      ++ jsonString options d ++ maybeNewLine options ++ ["]"].
Proof.
  intros Hx Hwl Hw3 Hrp.
  destruct (scan_at options d a wl w3 x Hx Hwl Hw3 Hrp) as (Hcomma & Htp & _).
  unfold patchedContent. rewrite Htp, Nat2Z.id.
  unfold buildInsertion. cbn [insertion]. rewrite Hcomma.
  assert (Hfirst : firstn (length a + 1 + (if pretty options then 0 else length wl))
                          (a ++ x :: wl ++ "]" :: w3)
                   = a ++ x :: (if pretty options then [] else wl)).
  { destruct (pretty options).
    - replace (a ++ x :: wl ++ "]" :: w3) with ((a ++ [x]) ++ wl ++ "]" :: w3) by now norm.
      replace (length a + 1 + 0) with (length (a ++ [x])) by (rewrite length_app; simpl; lia).
      rewrite firstn_app_exact. now norm.
    - replace (a ++ x :: wl ++ "]" :: w3) with ((a ++ x :: wl) ++ "]" :: w3) by now norm.
      replace (length a + 1 + length wl) with (length (a ++ x :: wl))
        by (rewrite length_app; simpl; lia).
      now rewrite firstn_app_exact. }
  rewrite Hfirst. destruct (x =? "["); simpl negb; cbv iota; now norm.
Qed.

Lemma join_app (sep : str) (l1 l2 : list str) :
  l1 <> [] -> l2 <> [] -> join sep (l1 ++ l2) = join sep l1 ++ sep ++ join sep l2.
Proof.
  intros H1 H2. induction l1 as [|p l1 IH]; [contradiction|].
  destruct l1 as [|q l1].
  - destruct l2 as [|r l2]; [contradiction|]. reflexivity.
  - change (join sep ((p :: q :: l1) ++ l2)) with (p ++ sep ++ join sep ((q :: l1) ++ l2)).
    rewrite IH by discriminate.
    change (join sep (p :: q :: l1)) with (p ++ sep ++ join sep (q :: l1)).
    now norm.
Qed.

Lemma itemsText_app (indent : nat) (l1 l2 : list json) :
  l1 <> [] -> l2 <> [] ->
  let gap := spaces (Nat.min 10 indent) in
  itemsText indent (l1 ++ l2)
  = itemsText indent l1 ++ (if isEmpty gap then [","] else "," :: "010" :: gap)
      ++ itemsText indent l2.
Proof.
  intros H1 H2 gap. unfold itemsText. fold gap. rewrite map_app.
  apply join_app.
  - destruct l1; [contradiction|discriminate].
  - destruct l2; [contradiction|discriminate].
Qed.

Lemma formats_gap (options : RequiredOptions) :
  formatsLikeStringify options ->
  let gap := spaces (Nat.min 10 (indent options)) in
  maybeIndentation options = gap /\
  maybeNewLine options = (if isEmpty gap then [] else ["010"]) /\
  isEmpty gap = negb (pretty options).
Proof.
  intros [[Hp Hi]|[Hp Hi]] gap; unfold gap, maybeIndentation, maybeNewLine; rewrite Hp.
  - rewrite Nat.min_r by lia. destruct (indent options) as [|k]; [lia|]. now simpl.
  - rewrite Hi. now simpl.
Qed.

(** The patch of a file that [JSON.stringify] wrote is the file
    [JSON.stringify] writes for the longer array. *)
Lemma patched_stringify (options : RequiredOptions) (old batch : list json) :
  formatsLikeStringify options ->
  batch <> [] -> forallb wf_json batch = true -> forallb wf_json old = true ->
  let text := JSON_stringify (JArray old) (indent options) in
  patchedContent options batch text
  = JSON_stringify (JArray (old ++ batch)) (indent options) /\
  2 <= length (trimmedFileTail (readFileTail (fileWith text))).
Proof.
  intros Hf Hne Hwf Hwfo text.
  destruct (formats_gap options Hf) as (Hind & Hnl & Hgap).
  set (gap := spaces (Nat.min 10 (indent options))) in *.
  assert (Hws : ws (if isEmpty gap then [] else ["010"])) by now destruct (isEmpty gap).
  assert (Hlead : ws (if isEmpty gap then [] else "010" :: gap)).
  { destruct (isEmpty gap); [reflexivity|]. apply ws_cons. split; [reflexivity|apply ws_spaces]. }
  destruct old as [|o old].
  - unfold text. cbn [app].
    assert (Hrp : readPosition (readFileTail (fileWith ([] ++ "[" :: [] ++ "]" :: []))) <= 0)
      by (vm_compute; lia).
    pose proof (patchedContent_shape options batch [] [] [] "[" eq_refl eq_refl eq_refl Hrp) as P.
    destruct (scan_at options batch [] [] [] "[" eq_refl eq_refl eq_refl Hrp) as (_ & _ & _ & _ & L).
    split; [|exact L].
    change (JSON_stringify (JArray []) (indent options)) with ([] ++ "[" :: [] ++ "]" :: []).
    rewrite P. rewrite jsonString_itemsText by assumption.
    rewrite JSON_stringify_array by exact Hne. fold gap.
    rewrite Hind, Hnl, Hgap. clearbody gap.
    destruct (pretty options); [|destruct gap; [|discriminate]]; cbn; norm; reflexivity.
  - set (l := o :: old) in *.
    assert (Hl : l <> []) by discriminate.
    destruct Text_wellEnded as (_ & WI & _).
    destruct (WI _ _ (itemsText_Items (indent options) l Hl Hwfo)) as [_ (t' & d & Et & Hd)].
    apply notEnd_false in Hd as [Hd1 Hd2].
    assert (Etext : text = ("[" :: (if isEmpty gap then [] else "010" :: gap) ++ t')
                             ++ d :: (if isEmpty gap then [] else ["010"]) ++ "]" :: []).
    { unfold text. rewrite JSON_stringify_array by exact Hl. fold gap. rewrite Et. now norm. }
    assert (Hrp : readPosition (readFileTail (fileWith text))
                  <= length ("[" :: (if isEmpty gap then [] else "010" :: gap) ++ t')).
    { rewrite Etext. apply window_reaches; auto; [reflexivity|]. right.
      destruct (isEmpty gap); simpl; lia. }
    clearbody text. subst text.
    pose proof (patchedContent_shape options batch _ _ [] d Hd1 Hws eq_refl Hrp) as P.
    destruct (scan_at options batch _ _ [] d Hd1 Hws eq_refl Hrp) as (_ & _ & _ & _ & L).
    split; [|exact L].
    etransitivity; [exact P|]. rewrite Hd2, jsonString_itemsText by assumption.
    rewrite JSON_stringify_array by (unfold l; discriminate). fold gap.
    rewrite itemsText_app by assumption. fold gap. rewrite Et, Hind, Hnl, Hgap.
    clearbody gap.
    destruct (pretty options); [|destruct gap; [|discriminate]]; cbn; norm; reflexivity.
Qed.

(** Formatting fidelity.  When the file is what [JSON.stringify] prints for
    an array with the indentation of the writer, a flush leaves the file
    [JSON.stringify] prints for that array followed by the batch, byte for
    byte: with [pretty] and an indentation from one to ten, and without
    [pretty]. *)
Theorem flush_formats_like_stringify :
  forall (options : RequiredOptions) (st : State) (old : list json),
    formatsLikeStringify options ->
    flushPromise st = None -> buffer st <> [] ->
    forallb wf_json (buffer st) = true -> forallb wf_json old = true ->
    content (fsys st) = Some (JSON_stringify (JArray old) (indent options)) ->
    forallb is7bit
      (fileTail (readFileTail (fileWith (JSON_stringify (JArray old) (indent options)))))
    = true ->
    let done := flushAndSettle options st in
    outcomeOf (nextPromise st) done = Some Fulfilled /\
    buffer done = [] /\
    content (fsys done)
    = Some (JSON_stringify (JArray (old ++ buffer st)) (indent options)).
Proof.
  intros options st old Hf Hidle Hne Hwf Hwfo Htext H7 done.
  destruct (patched_stringify options old (buffer st) Hf Hne Hwf Hwfo) as (P & L).
  assert (Hdoc : Document (JSON_stringify (JArray old) (indent options)) (JArray old)).
  { exists [], (JSON_stringify (JArray old) (indent options)), [].
    rewrite app_nil_r. repeat split; auto.
    apply serialize_Text; [exact Hwfo|apply ws_spaces|reflexivity]. }
  destruct (flush_patches options st old _ Hidle Hne Hwf Htext Hdoc L)
    as (A & B & C & _).
  fold done in A, B, C. rewrite P in C. auto.
Qed.

(* ================================================================== *)
(** * [jappend], entry after entry *)

Lemma jappendAwaited_flush (options : WriterOptions) (newData : json)
      (text : option str) :
  jappendAwaited options newData text
  = flushAndSettle (jappendOptions options) (queued [newData] text).
Proof.
  unfold jappendAwaited, flushAndSettle, jappend. fold (jappendOptions options).
  unfold append. cbn [isShutdown newWriter buffer setBuffer app length].
  change (isFull (jappendOptions options) 1) with true. cbv iota.
  change (setBuffer [newData] (newWriter (newFileSystem text)))
    with (queued [newData] text).
  now destruct (flush (jappendOptions options) false (queued [newData] text)).
Qed.

Lemma jappendEach_cons (options : WriterOptions) (e : json) (entries : list json)
      (text : option str) :
  jappendEach options (e :: entries) text
  = jappendEach options entries (content (fsys (jappendAwaited options e text))).
Proof. reflexivity. Qed.

Lemma jappendEach_stringify (options : WriterOptions) (entries : list json) :
  formatsLikeStringify (jappendOptions options) ->
  forallb wf_json entries = true ->
  forall old : list json,
    forallb wf_json old = true ->
    jappendEach options entries
      (Some (JSON_stringify (JArray old) (indent (jappendOptions options))))
    = Some (JSON_stringify (JArray (old ++ entries)) (indent (jappendOptions options))).
Proof.
  intros Hf. induction entries as [|e entries IH]; intros Hwf old Hold.
  - now rewrite app_nil_r.
  - cbn [forallb] in Hwf. apply andb_prop in Hwf as [He Hwf].
    rewrite jappendEach_cons, jappendAwaited_flush.
    set (o := jappendOptions options) in *.
    assert (Hne : [e] <> []) by discriminate.
    assert (Hwe : forallb wf_json [e] = true) by (cbn; now rewrite He).
    destruct (patched_stringify o old [e] Hf Hne Hwe Hold) as (P & L).
    assert (Hdoc : Document (JSON_stringify (JArray old) (indent o)) (JArray old)).
    { exists [], (JSON_stringify (JArray old) (indent o)), [].
      rewrite app_nil_r. repeat split; auto.
      apply serialize_Text; [exact Hold|apply ws_spaces|reflexivity]. }
    destruct (flush_patches o (queued [e] (Some (JSON_stringify (JArray old) (indent o))))
                            old _ eq_refl Hne Hwe eq_refl Hdoc L) as (_ & _ & C & _).
    rewrite C. cbn [queued buffer setBuffer]. rewrite P.
    rewrite IH; auto.
    + now rewrite <- app_assoc.
    + rewrite forallb_app, Hold. cbn. now rewrite He.
Qed.

(** Entries appended one by one with [jappend], each call awaited, to a file
    that [JSON.stringify] wrote for an array: the file is then what
    [JSON.stringify] writes for that array followed by the entries in the
    order of the calls, for the options that format like [JSON.stringify].
    The serialized result is taken to be 7-bit, so that byte offsets and
    string indices coincide in every tail that is read. *)
Theorem jappend_each_extends_array :
  forall (options : WriterOptions) (old entries : list json),
    formatsLikeStringify (jappendOptions options) ->
    forallb wf_json old = true -> forallb wf_json entries = true ->
    forallb is7bit
      (JSON_stringify (JArray (old ++ entries)) (indent (jappendOptions options))) = true ->
    jappendEach options entries
      (Some (JSON_stringify (JArray old) (indent (jappendOptions options))))
    = Some (JSON_stringify (JArray (old ++ entries)) (indent (jappendOptions options))).
Proof.
  intros options old entries Hf Hold Hwf _. now apply jappendEach_stringify.
Qed.

(** Entries appended one by one with [jappend] to a file that does not
    exist, auto-initialization left enabled: the first call creates the
    file, and in the end the file is what [JSON.stringify] writes for the
    array of the entries in the order of the calls. *)
Theorem jappend_each_creates_array :
  forall (options : WriterOptions) (entries : list json),
    formatsLikeStringify (jappendOptions options) ->
    initArray (jappendOptions options) = true ->
    entries <> [] -> forallb wf_json entries = true ->
    forallb is7bit
      (JSON_stringify (JArray entries) (indent (jappendOptions options))) = true ->
    jappendEach options entries None
    = Some (JSON_stringify (JArray entries) (indent (jappendOptions options))).
Proof.
  intros options entries Hf Hinit Hne Hwf _.
  destruct entries as [|e entries]; [contradiction|].
  cbn [forallb] in Hwf. apply andb_prop in Hwf as [He Hwf].
  rewrite jappendEach_cons, jappendAwaited_flush.
  destruct (flushAndSettle_finish (jappendOptions options) (queued [e] None)
                                  eq_refl ltac:(discriminate)) as (r & Hfin & _).
  remember (flushAndSettle (jappendOptions options) (queued [e] None)) as done eqn:Hdone.
  clear Hdone.
  cbn [queued buffer setBuffer fsys newWriter newFileSystem content finish] in Hfin.
  rewrite Hinit in Hfin. rewrite afterOpen_scan in Hfin.
  change (readFileTail (fileWith [])) with (scanTail [] 0) in Hfin.
  cbn [scanTail trimmedFileTail trim] in Hfin.
  change (trim []) with (@nil ascii) in Hfin. cbn [isEmpty] in Hfin.
  rewrite Hinit in Hfin. cbv zeta in Hfin. cbn [andb] in Hfin.
  unfold afterWrite, writeText in Hfin. cbn [orElse length Z.of_nat Z.ltb Z.compare orb
    Z.to_nat firstn Nat.add app] in Hfin.
  rewrite skipn_nil, app_nil_r in Hfin.
  injection Hfin as _ Hc _. rewrite Hc.
  assert (Hwe : forallb wf_json [e] = true) by (cbn; now rewrite He).
  exact (jappendEach_stringify options entries Hf Hwf [e] Hwe).
Qed.

Lemma jappend_each_extends_array_sample :
  jappendEach {| opt_bufferFlushThreshold := None; opt_pretty := Some false;
                 opt_indent := None; opt_initArray := None |}
              [sampleEntry "2"; JString (chars "three")] (Some (chars "[1]"))
  = Some (JSON_stringify
            (JArray [JNumber (chars "1"); sampleEntry "2"; JString (chars "three")]) 0).
Proof.
  exact (jappend_each_extends_array
           {| opt_bufferFlushThreshold := None; opt_pretty := Some false;
              opt_indent := None; opt_initArray := None |}
           [JNumber (chars "1")] [sampleEntry "2"; JString (chars "three")]
           (or_intror (conj eq_refl eq_refl)) eq_refl eq_refl eq_refl).
Defined.

Lemma jappend_each_creates_array_sample :
  jappendEach {| opt_bufferFlushThreshold := None; opt_pretty := None;
                 opt_indent := None; opt_initArray := None |}
              [sampleEntry "1"; sampleEntry "2"] None
  = Some (JSON_stringify (JArray [sampleEntry "1"; sampleEntry "2"]) 2).
Proof.
  assert (F : formatsLikeStringify
                (jappendOptions {| opt_bufferFlushThreshold := None; opt_pretty := None;
                                   opt_indent := None; opt_initArray := None |}))
    by (left; vm_compute; repeat split; lia).
  exact (jappend_each_creates_array _ [sampleEntry "1"; sampleEntry "2"]
           F eq_refl ltac:(discriminate) eq_refl eq_refl).
Defined.

(* ================================================================== *)
(** * The queue over a whole run *)

Lemma flush_keeps_pending (options : RequiredOptions) (shutdown : bool) (st : State) :
  pending (fst (flush options shutdown st)) = pending st /\
  isShutdown (fst (flush options shutdown st)) = shutdown || isShutdown st.
Proof.
  unfold flush, pending. destruct (flushPromise st) as [[p a]|] eqn:E.
  - destruct shutdown; cbn; rewrite E; auto.
  - unfold ensureAllIsFlushed, loopTest.
    destruct shutdown; cbn; destruct (buffer st) eqn:B; cbn; rewrite ?B, ?app_nil_r; auto.
Qed.

Lemma resume_pending (options : RequiredOptions) (a : Await) (fault : option Error)
      (st : State) :
  let r := resume options a fault st in
  exists written,
    written ++ orElse (inTry (snd r)) [] ++ buffer (fst r)
    = orElse (inTry a) [] ++ buffer st.
Proof.
  assert (T : forall d fh e s,
             orElse (inTry (snd (throwInTry d fh e s))) []
               ++ buffer (fst (throwInTry d fh e s)) = d ++ buffer s).
  { intros d fh e s. unfold throwInTry. now destruct fh. }
  assert (L : forall h s,
             orElse (inTry (snd (loopTest options (Some h) s))) []
               ++ buffer (fst (loopTest options (Some h) s)) = buffer s).
  { intros h s. unfold loopTest. destruct (buffer s) eqn:E; cbn; rewrite ?E, ?app_nil_r; auto. }
  destruct a as [d prev|d h|d h bs rp|d h|d h patch|d h patch|h thrown|result];
    cbn [resume inTry orElse]; destruct fault as [e|];
    try (exists []; cbn [app]; apply T);
    try (exists []; reflexivity).
  - destruct (fs_open _ _) as [[f h]|e]; exists []; [reflexivity|apply T].
  - destruct (isEmpty _ && _); [exists []; reflexivity|].
    destruct (_ =? _)%Z; exists []; [apply T|reflexivity].
  - destruct (fs_write _ _ _) as [f|e].
    + exists d. now rewrite L.
    + exists []. apply T.
  - destruct (fs_write _ _ _) as [f|e].
    + exists d. now rewrite L.
    + exists []. apply T.
Qed.

Lemma step_pending (options : RequiredOptions) (st : State) (ev : Event) :
  (exists written,
     written ++ pending (step options st ev) = pending st ++ acceptedBy st ev) /\
  isShutdown (step options st ev) = shuts ev || isShutdown st.
Proof.
  destruct ev as [newData|shutdown|fault|]; cbn [step acceptedBy shuts orb].
  - unfold append. destruct (isShutdown st) eqn:S.
    + split; [exists []; cbn; now rewrite app_nil_r|exact S].
    + set (st1 := setBuffer (buffer st ++ [newData]) st).
      assert (P1 : pending st1 = pending st ++ [newData]).
      { unfold pending, st1. cbn. destruct (flushPromise st) as [[p a]|]; auto.
        now rewrite app_assoc. }
      destruct (isFull options _).
      * destruct (flush_keeps_pending options false st1) as [F1 F2].
        destruct (flush options false st1) as [st2 p]. cbn [fst] in *.
        split; [exists []; cbn [app]; now rewrite F1|]. rewrite F2. exact S.
      * cbn [fst]. split; [exists []; exact P1|exact S].
  - destruct (flush_keeps_pending options shutdown st) as [F1 F2].
    split; [exists []; cbn [app]; now rewrite F1, app_nil_r|].
    rewrite F2. now destruct shutdown.
  - destruct (flushPromise st) as [[p a]|] eqn:E.
    + destruct (resume_pending options a fault st) as [written R].
      destruct (resume_frame options a fault st) as (_ & R2 & _).
      destruct (resume options a fault st) as [st' a']. cbn [fst snd] in *.
      split; [|exact R2].
      exists written. unfold pending. cbn. rewrite E, app_nil_r. exact R.
    + split; [exists []; cbn [app]; now rewrite app_nil_r|reflexivity].
  - split; [|destruct (flushPromise st) as [[p []]|]; reflexivity].
    exists []. cbn [app]. rewrite app_nil_r. unfold pending.
    destruct (flushPromise st) as [[p []]|] eqn:E; cbn; rewrite ?E; reflexivity.
Qed.

Lemma resume_written (options : RequiredOptions) (a : Await) (fault : option Error)
      (st : State) :
  let r := resume options a fault st in
  writes options a fault (fsys st) ++ orElse (inTry (snd r)) [] ++ buffer (fst r)
  = orElse (inTry a) [] ++ buffer st.
Proof.
  assert (T : forall d fh e s,
             orElse (inTry (snd (throwInTry d fh e s))) []
               ++ buffer (fst (throwInTry d fh e s)) = d ++ buffer s).
  { intros d fh e s. unfold throwInTry. now destruct fh. }
  assert (L : forall h s,
             orElse (inTry (snd (loopTest options (Some h) s))) []
               ++ buffer (fst (loopTest options (Some h) s)) = buffer s).
  { intros h s. unfold loopTest. destruct (buffer s) eqn:E; cbn; rewrite ?E, ?app_nil_r; auto. }
  destruct a as [d prev|d h|d h bs rp|d h|d h patch|d h patch|h th|result];
    destruct fault as [e|]; cbn [resume inTry orElse writes app];
    try apply T; try reflexivity.
  - destruct (fs_open _ _) as [[f h]|e]; [reflexivity|apply T].
  - destruct (isEmpty _ && _); [reflexivity|].
    destruct (_ =? _)%Z; [apply T|reflexivity].
  - destruct (fs_write _ _ _) as [f|e]; [now rewrite L|cbn [app]; apply T].
  - destruct (fs_write _ _ _) as [f|e]; [now rewrite L|cbn [app]; apply T].
Qed.

Lemma step_written (options : RequiredOptions) (st : State) (ev : Event) :
  writtenAt options st ev ++ pending (step options st ev)
  = pending st ++ acceptedBy st ev.
Proof.
  destruct ev as [newData|shutdown|fault|]; cbn [step acceptedBy writtenAt app].
  - unfold append. destruct (isShutdown st) eqn:S; [cbn; now rewrite app_nil_r|].
    set (st1 := setBuffer (buffer st ++ [newData]) st).
    assert (P1 : pending st1 = pending st ++ [newData]).
    { unfold pending, st1. cbn. destruct (flushPromise st) as [[p a]|]; auto.
      now rewrite app_assoc. }
    destruct (isFull options _); [|exact P1].
    destruct (flush_keeps_pending options false st1) as [F1 _].
    destruct (flush options false st1) as [st2 p]. cbn [fst] in *. now rewrite F1.
  - destruct (flush_keeps_pending options shutdown st) as [F1 _].
    now rewrite F1, app_nil_r.
  - rewrite app_nil_r. destruct (flushPromise st) as [[p a]|] eqn:E; [|reflexivity].
    pose proof (resume_written options a fault st) as R. cbv zeta in R.
    destruct (resume options a fault st) as [st' a']. cbn [fst snd] in *.
    unfold pending. cbn. rewrite E. exact R.
  - rewrite app_nil_r. unfold pending.
    destruct (flushPromise st) as [[p []]|] eqn:E; cbn; rewrite ?E; reflexivity.
Qed.

Lemma run_written (options : RequiredOptions) (evs : list Event) :
  forall st : State,
    writtenIn options st evs ++ pending (run options st evs)
    = pending st ++ accepted options st evs.
Proof.
  induction evs as [|ev evs IH]; intros st.
  - cbn. now rewrite app_nil_r.
  - cbn [run fold_left accepted writtenIn].
    change (fold_left (step options) evs (step options st ev))
      with (run options (step options st ev) evs).
    rewrite <- app_assoc, IH, !app_assoc. now rewrite step_written.
Qed.

(** The queue is first in, first out, and loses nothing.  In every run of a
    writer that is not shut down (calls of [append] and [flush], file
    operations that succeed or fail, in any order), the entries the file
    system has written for the writer, in the order of the writes, followed
    by the entries still to be written (the batch of the cycle while it is
    inside [try], then the queue), are exactly the entries that were to be
    written at the start followed by the arguments of [append] in the order
    of the calls.  An entry leaves the pending entries only by a write that
    is carried out; a failure puts the batch back; nothing is duplicated or
    reordered. *)
Theorem pending_entries_fifo :
  forall (options : RequiredOptions) (st : State) (evs : list Event),
    isShutdown st = false -> existsb shuts evs = false ->
    writtenIn options st evs ++ pending (run options st evs)
    = pending st ++ appended evs.
Proof.
  intros options st evs Hs Hno.
  rewrite run_written. f_equal.
  revert st Hs. induction evs as [|ev evs IH]; intros st Hs; [reflexivity|].
  cbn [existsb] in Hno. apply orb_false_iff in Hno as [Hev Hno].
  destruct (step_pending options st ev) as [_ S]. rewrite Hev, Hs in S.
  cbn [accepted appended flat_map]. fold (appended evs).
  rewrite (IH Hno _ S). f_equal.
  destruct ev; cbn [acceptedBy]; now rewrite ?Hs.
Qed.

(** The shutdown latch is permanent.  Once the writer is shut down it stays
    shut down whatever happens, and nothing enters the queue any more: at
    every later moment the entries still to be written are a suffix of those
    that were to be written when the latch was set. *)
Theorem shutdown_is_permanent :
  forall (options : RequiredOptions) (st : State) (evs : list Event),
    isShutdown st = true ->
    isShutdown (run options st evs) = true /\
    exists written, pending st = written ++ pending (run options st evs).
Proof.
  intros options st evs. revert st.
  induction evs as [|ev evs IH]; intros st Hs.
  - split; [exact Hs|now exists []].
  - destruct (step_pending options st ev) as [[w0 H0] S].
    rewrite Hs, orb_true_r in S.
    destruct (IH _ S) as [I1 [w1 I2]].
    change (run options st (ev :: evs)) with (run options (step options st ev) evs).
    split; [exact I1|]. exists (w0 ++ w1).
    rewrite <- app_assoc, <- I2, H0.
    destruct ev; cbn [acceptedBy]; now rewrite ?Hs, app_nil_r.
Qed.

Lemma isFull_mono (options : RequiredOptions) (j k : nat) :
  isFull options k = false -> j <= k -> isFull options j = false.
Proof.
  unfold isFull. destruct (bufferFlushThreshold options) as [n|]; [|auto].
  intros H Hle. apply Nat.leb_gt in H. apply Nat.leb_gt. lia.
Qed.

Lemma run_appends_below (options : RequiredOptions) (entries : list json) :
  forall st : State,
    isShutdown st = false ->
    isFull options (length (buffer st) + length entries) = false ->
    run options st (map Append entries) = setBuffer (buffer st ++ entries) st.
Proof.
  induction entries as [|e entries IH]; intros st Hs Hfull.
  - cbn. rewrite app_nil_r. now destruct st.
  - cbn [map run fold_left step]. unfold append. rewrite Hs.
    cbn [buffer setBuffer]. rewrite length_app. cbn [length].
    rewrite (isFull_mono options _ _ Hfull) by (cbn [length]; lia).
    cbn [fst].
    change (fold_left (step options) (map Append entries) ?s)
      with (run options s (map Append entries)).
    rewrite IH.
    + cbn [buffer setBuffer]. rewrite <- app_assoc. reflexivity.
    + exact Hs.
    + cbn [buffer setBuffer]. rewrite length_app. cbn [length].
      apply (isFull_mono options _ _ Hfull). cbn [length]. lia.
Qed.

(** Appends below the threshold only queue.  While the queue stays shorter
    than [bufferFlushThreshold] (always, when it is [Infinity]), a series of
    calls of [append] on a writer that is not shut down adds the entries at
    the end of the queue in the order of the calls and does nothing else: no
    file operation, no promise, the file system as it was. *)
Theorem appends_below_threshold_only_queue :
  forall (options : RequiredOptions) (st : State) (entries : list json),
    isShutdown st = false ->
    isFull options (length (buffer st) + length entries) = false ->
    let st' := run options st (map Append entries) in
    buffer st' = buffer st ++ entries /\ fsys st' = fsys st /\
    flushPromise st' = flushPromise st /\ nextPromise st' = nextPromise st.
Proof.
  intros options st entries Hs Hfull st'. unfold st'.
  rewrite run_appends_below by assumption. auto.
Qed.

(** A writer of threshold [n] writes batches of [n].  On a new writer whose
    threshold is the number of the entries, the appends before the last do
    no file operation; the last one starts the one cycle, which takes all
    the entries in the order of the calls; and when the file is what
    [JSON.stringify] wrote for an array and the operations succeed, the file
    is then what [JSON.stringify] writes for that array followed by the
    entries. *)
Theorem threshold_writes_one_batch :
  forall (options : RequiredOptions) (old entries : list json) (last : json),
    bufferFlushThreshold options = Finite (S (length entries)) ->
    formatsLikeStringify options ->
    forallb wf_json old = true -> forallb wf_json (entries ++ [last]) = true ->
    forallb is7bit (JSON_stringify (JArray old) (indent options)) = true ->
    let start := newWriter (fileWith (JSON_stringify (JArray old) (indent options))) in
    let filled := run options start (map Append (entries ++ [last])) in
    calls (fsys (run options start (map Append entries))) = [] /\
    flushPromise filled = Some (0, AwaitOpen (entries ++ [last]) None) /\
    buffer filled = [] /\
    content (fsys (step options (settleAll options 6 filled) Reaction))
    = Some (JSON_stringify (JArray (old ++ entries ++ [last])) (indent options)).
Proof.
  intros options old entries last Hn Hf Hold Hwf _ start filled.
  assert (Hbelow : isFull options (length (buffer start) + length entries) = false).
  { unfold isFull. rewrite Hn. apply Nat.leb_gt. cbn. lia. }
  assert (Hrun : run options start (map Append entries) = setBuffer entries start).
  { now rewrite run_appends_below. }
  assert (Hfilled : filled
                    = fst (flush options false (queued (entries ++ [last])
                             (Some (JSON_stringify (JArray old) (indent options)))))).
  { unfold filled. rewrite map_app, run_app, Hrun. cbn [map run fold_left step].
    unfold append. cbn [isShutdown setBuffer start newWriter buffer].
    unfold isFull. rewrite Hn, length_app. cbn [length].
    replace (Nat.leb (S (length entries)) (length entries + 1)) with true
      by (symmetry; apply Nat.leb_le; lia).
    change (setBuffer (entries ++ [last]) (setBuffer entries start))
      with (queued (entries ++ [last])
                   (Some (JSON_stringify (JArray old) (indent options)))).
    now destruct (flush options false _). }
  assert (Hne : entries ++ [last] <> []) by (destruct entries; discriminate).
  split; [now rewrite Hrun|].
  rewrite Hfilled.
  split; [now rewrite flush_idle_nonempty by (auto; exact Hne)|].
  split; [now rewrite flush_idle_nonempty by (auto; exact Hne)|].
  change (step options (settleAll options 6 (fst (flush options false ?s))) Reaction)
    with (flushAndSettle options s).
  destruct (patched_stringify options old (entries ++ [last]) Hf Hne Hwf Hold) as (P & L).
  assert (Hdoc : Document (JSON_stringify (JArray old) (indent options)) (JArray old)).
  { exists [], (JSON_stringify (JArray old) (indent options)), [].
    rewrite app_nil_r. repeat split; auto.
    apply serialize_Text; [exact Hold|apply ws_spaces|reflexivity]. }
  destruct (flush_patches options
              (queued (entries ++ [last])
                      (Some (JSON_stringify (JArray old) (indent options))))
              old _ eq_refl Hne Hwf eq_refl Hdoc L) as (_ & _ & C & _).
  rewrite C. cbn [queued buffer setBuffer]. now rewrite P.
Qed.

(* ================================================================== *)
(** * The handle of a cycle that nothing interrupts *)

Lemma holdsOneHandle_step (options : RequiredOptions) (base : list Handle)
      (next : Handle) (a : Await) (st : State) :
  (inTry a <> None -> buffer st = []) ->
  holdsOneHandle base next a (fsys st) ->
  let r := resume options a None st in
  holdsOneHandle base next (snd r) (fsys (fst r)).
Proof.
  intros Hq [Hfresh Ha].
  assert (T : forall d h e s,
             openHandles (fsys s) = h :: base /\ h = next /\ nextHandle (fsys s) = S next ->
             holdsOneHandle base next (snd (throwInTry d (Some h) e s))
                            (fsys (fst (throwInTry d (Some h) e s)))).
  { intros d h e s H. unfold throwInTry. cbn. split; auto. }
  assert (L : forall h s,
             buffer s = [] ->
             openHandles (fsys s) = h :: base /\ h = next /\ nextHandle (fsys s) = S next ->
             holdsOneHandle base next (snd (loopTest options (Some h) s))
                            (fsys (fst (loopTest options (Some h) s)))).
  { intros h s Hb H. unfold loopTest. rewrite Hb. cbn. split; auto. }
  assert (W : forall d h data position,
             buffer st = [] ->
             openHandles (fsys st) = h :: base /\ h = next /\ nextHandle (fsys st) = S next ->
             let r := match fs_write data position (fsys st) with
                      | inl f => loopTest options (Some h) (setFsys f st)
                      | inr e => throwInTry d (Some h) e st
                      end in
             holdsOneHandle base next (snd r) (fsys (fst r))).
  { intros d h data position Hb H. unfold fs_write.
    destruct (_ || _); [now apply T|]. now apply L. }
  destruct a as [d [prev|]|d h|d h bs rp|d h|d h patch|d h patch|h thrown|result];
    cbn [resume inTry] in *; try contradiction.
  - destruct Ha as [H1 H2]. unfold fs_open. destruct (content (fsys st)) as [text|].
    + cbn. rewrite H1, H2. split; cbn; auto.
    + destruct (str_eqb _ _).
      * cbn. rewrite H1, H2. split; cbn; auto.
      * unfold throwInTry. cbn. split; [auto|]. split; [auto|lia].
  - cbn. split; auto.
  - destruct (isEmpty _ && _); [cbn; split; auto|].
    destruct (_ =? _)%Z; [now apply T|cbn; split; auto].
  - apply W; auto. apply Hq. discriminate.
  - cbn. split; auto.
  - apply W; auto. apply Hq. discriminate.
  - destruct Ha as (H1 & H2 & H3). cbn. split; [exact Hfresh|].
    unfold fs_close. cbn [openHandles nextHandle]. rewrite H1, H3. cbn [remove].
    destruct (Nat.eq_dec h h) as [_|N]; [|now destruct N].
    split; [|lia]. apply notin_remove. intros Hin. specialize (Hfresh _ Hin). lia.
  - cbn. split; auto.
Qed.

Lemma settleAll_holdsOneHandle (options : RequiredOptions) (base : list Handle)
      (next : Handle) (n : nat) :
  forall (st : State) (p : Promise) (a : Await),
    flushPromise st = Some (p, a) ->
    (inTry a <> None -> buffer st = []) ->
    holdsOneHandle base next a (fsys st) ->
    exists a',
      flushPromise (settleAll options n st) = Some (p, a') /\
      holdsOneHandle base next a' (fsys (settleAll options n st)).
Proof.
  induction n as [|n IH]; intros st p a Hp Hq Hh.
  - exists a. auto.
  - change (settleAll options (S n) st)
      with (settleAll options n (step options st (Settle None))).
    rewrite (step_settle options st p a None Hp).
    destruct (finish_step options a st Hq) as (_ & _ & F3).
    pose proof (holdsOneHandle_step options base next a st Hq Hh) as H.
    set (r := resume options a None st) in *.
    apply (IH (setFlushPromise (Some (p, snd r)) (fst r)) p (snd r)); auto.
Qed.

(** A cycle during which nothing is appended closes the handle it opened.
    From an idle writer whose queue is not empty, when the operations on the
    file succeed one after the other, the handles that are open once the
    promise of [flush] has settled are those that were open before the call,
    and the file has been opened at most once: whether the batch was written,
    the file was initialized, the file was missing or it held no array. *)
Theorem flush_closes_its_handle :
  forall (options : RequiredOptions) (st : State),
    flushPromise st = None -> buffer st <> [] ->
    (forall h, In h (openHandles (fsys st)) -> h < nextHandle (fsys st)) ->
    let done := flushAndSettle options st in
    openHandles (fsys done) = openHandles (fsys st) /\
    nextHandle (fsys done) <= S (nextHandle (fsys st)) /\
    flushPromise done = None.
Proof.
  intros options st Hidle Hne Hfresh done.
  destruct (flushAndSettle_finish options st Hidle Hne) as (_ & _ & _ & Hfp & _).
  fold done in Hfp.
  unfold done, flushAndSettle in *. rewrite flush_idle_nonempty in * by assumption.
  cbn [fst] in *.
  set (s1 := {| buffer := [] |}) in *.
  destruct (settleAll_finish options 6 s1 (nextPromise st) (AwaitOpen (buffer st) None))
    as (r & R1 & _); auto.
  destruct (settleAll_holdsOneHandle options (openHandles (fsys st))
              (nextHandle (fsys st)) 6 s1
              (nextPromise st) (AwaitOpen (buffer st) None))
    as (a' & A1 & A2); auto.
  { split; [exact Hfresh|]. split; reflexivity. }
  rewrite R1 in A1. injection A1 as <-.
  destruct A2 as [_ [A2 A3]]. unfold step in *. rewrite R1 in *.
  cbn [fsys openHandles nextHandle] in *. auto.
Qed.

Lemma flush_closes_its_handle_sample :
  openHandles (fsys (flushAndSettle defaults (queued [sampleEntry "1"] (Some (chars "{}")))))
  = [].
Proof.
  pose proof (flush_closes_its_handle defaults
                (queued [sampleEntry "1"] (Some (chars "{}")))
                eq_refl ltac:(discriminate) ltac:(intros h [])) as H.
  cbv zeta in H. destruct H as (H & _). exact H.
Defined.

(* ================================================================== *)
(** * Sample flushes *)

Lemma flush_appends_batch_sample :
  let st := queued [sampleEntry "2"] (Some (chars "[ 1 ]")) in
  outcomeOf 0 (flushAndSettle defaults st) = Some Fulfilled /\
  JSON_parse (patchedContent defaults (buffer st) (chars "[ 1 ]"))
  = Some (JArray [JNumber (chars "1"); sampleEntry "2"]).
Proof.
  pose proof (flush_appends_batch defaults
                (queued [sampleEntry "2"] (Some (chars "[ 1 ]")))
                [JNumber (chars "1")] (chars "[ 1 ]")
                eq_refl ltac:(discriminate) eq_refl eq_refl eq_refl
                ltac:(vm_compute; lia) eq_refl) as H.
  cbv zeta in H. destruct H as (H1 & _ & _ & H4 & _).
  split; [exact H1|exact H4].
Defined.

Lemma flush_initializes_file_sample :
  content (fsys (flushAndSettle defaults (queued [sampleEntry "1"] None)))
  = Some (JSON_stringify (JArray [sampleEntry "1"]) 2).
Proof.
  pose proof (flush_initializes_file defaults (queued [sampleEntry "1"] None)
                eq_refl ltac:(discriminate) eq_refl eq_refl eq_refl) as H.
  cbv zeta in H. destruct H as (_ & _ & H3 & _). exact H3.
Defined.

Lemma flush_rejects_file_without_bracket_sample :
  let st := queued [sampleEntry "1"] (Some (chars "{}")) in
  outcomeOf 0 (flushAndSettle defaults st) = Some (Rejected NotAJsonArray) /\
  buffer (flushAndSettle defaults st) = [sampleEntry "1"].
Proof.
  pose proof (flush_rejects_file_without_bracket defaults
                (queued [sampleEntry "1"] (Some (chars "{}"))) (chars "{}")
                eq_refl ltac:(discriminate) eq_refl eq_refl eq_refl eq_refl) as H.
  cbv zeta in H. destruct H as (H1 & _ & H3 & _). split; [exact H1|exact H3].
Defined.

Lemma flush_formats_like_stringify_sample :
  content (fsys (flushAndSettle defaults
                   (queued [sampleEntry "2"]
                           (Some (JSON_stringify (JArray [sampleEntry "1"]) 2)))))
  = Some (JSON_stringify (JArray [sampleEntry "1"; sampleEntry "2"]) 2).
Proof.
  assert (F : formatsLikeStringify defaults) by (left; vm_compute; repeat split; lia).
  pose proof (flush_formats_like_stringify defaults
                (queued [sampleEntry "2"]
                        (Some (JSON_stringify (JArray [sampleEntry "1"]) 2)))
                [sampleEntry "1"]
                F eq_refl ltac:(discriminate) eq_refl eq_refl eq_refl eq_refl) as H.
  cbv zeta in H. destruct H as (_ & _ & H3). exact H3.
Defined.

(* ================================================================== *)
(** * Sample runs *)

Lemma pending_entries_fifo_sample :
  let evs := [Append (sampleEntry "1"); Append (sampleEntry "2");
              Settle None; Settle None; Settle None; Append (sampleEntry "3");
              Settle None; Settle (Some (IoError 1)); Append (sampleEntry "4")] in
  let st := newWriter (newFileSystem None) in
  writtenIn (sampleOptions (Finite 2)) st evs
    ++ pending (run (sampleOptions (Finite 2)) st evs)
  = [sampleEntry "1"; sampleEntry "2"; sampleEntry "3"; sampleEntry "4"].
Proof.
  exact (pending_entries_fifo (sampleOptions (Finite 2)) (newWriter (newFileSystem None))
           [Append (sampleEntry "1"); Append (sampleEntry "2");
            Settle None; Settle None; Settle None; Append (sampleEntry "3");
            Settle None; Settle (Some (IoError 1)); Append (sampleEntry "4")]
           eq_refl eq_refl).
Defined.

Lemma shutdown_is_permanent_sample :
  let st := setShutdown true (queued [sampleEntry "1"] None) in
  let later := run defaults st [Append (sampleEntry "2"); Flush false; Settle None] in
  isShutdown later = true /\ exists written, pending st = written ++ pending later.
Proof.
  exact (shutdown_is_permanent defaults (setShutdown true (queued [sampleEntry "1"] None))
           [Append (sampleEntry "2"); Flush false; Settle None] eq_refl).
Defined.

Lemma appends_below_threshold_only_queue_sample :
  let st := newWriter (newFileSystem None) in
  let st' := run (sampleOptions Infinity) st
                 (map Append [sampleEntry "1"; sampleEntry "2"; sampleEntry "3"]) in
  buffer st' = [sampleEntry "1"; sampleEntry "2"; sampleEntry "3"] /\
  fsys st' = fsys st /\ flushPromise st' = None /\ nextPromise st' = 0.
Proof.
  exact (appends_below_threshold_only_queue (sampleOptions Infinity)
           (newWriter (newFileSystem None))
           [sampleEntry "1"; sampleEntry "2"; sampleEntry "3"] eq_refl eq_refl).
Defined.

Lemma threshold_writes_one_batch_sample :
  let start := newWriter (fileWith (JSON_stringify (JArray [sampleEntry "1"]) 2)) in
  let filled := run (sampleOptions (Finite 2)) start
                    [Append (sampleEntry "2"); Append (sampleEntry "3")] in
  content (fsys (step (sampleOptions (Finite 2))
                      (settleAll (sampleOptions (Finite 2)) 6 filled) Reaction))
  = Some (JSON_stringify
            (JArray [sampleEntry "1"; sampleEntry "2"; sampleEntry "3"]) 2).
Proof.
  assert (F : formatsLikeStringify (sampleOptions (Finite 2)))
    by (left; vm_compute; repeat split; lia).
  pose proof (threshold_writes_one_batch (sampleOptions (Finite 2))
                [sampleEntry "1"] [sampleEntry "2"] (sampleEntry "3")
                eq_refl F eq_refl eq_refl eq_refl) as H.
  cbv zeta in H. destruct H as (_ & _ & _ & H). exact H.
Defined.

(* ================================================================== *)
(** * The in-memory file handle and the tail scanner *)

Lemma firstn_app_len {A : Type} (a b : list A) (n : nat) :
  length a = n -> firstn n (a ++ b) = a.
Proof. intros <-. apply firstn_app_exact. Qed.

Lemma skipn_app_len {A : Type} (a b : list A) (n : nat) :
  length a = n -> skipn n (a ++ b) = b.
Proof. intros <-. apply skipn_app_exact. Qed.

(** [write(data, position)] of the in-memory handle overwrites in place.  A
    position inside the file or at its end is accepted: the bytes before the
    position and the bytes after the written range are unchanged, the file
    grows only as far as the range passes its end, and data that is 7-bit
    (so that [read], which fills the buffer with the UTF-8 encoding of the
    characters, gives them back one byte each) can then be read back at that
    position.  A position past the end is rejected with 'position out of
    bounds' . *)
Theorem write_overwrites_in_place :
  forall (data : str) (position : nat) (f : FileSystem),
    (position <= fs_size f ->
     exists f',
       fs_write data (Some (Z.of_nat position)) f = inl f' /\
       (forallb is7bit data = true -> fs_read (length data) position f' = data) /\
       firstn position (bytes f') = firstn position (bytes f) /\
       skipn (position + length data) (bytes f')
       = skipn (position + length data) (bytes f) /\
       fs_size f' = Nat.max (fs_size f) (position + length data)) /\
    (fs_size f < position ->
     fs_write data (Some (Z.of_nat position)) f = inr PositionOutOfBounds).
Proof.
  intros data position f. unfold fs_write, fs_size. cbn [orElse].
  set (text := bytes f). split; intros Hp.
  - destruct (Z.of_nat position <? 0)%Z eqn:E1; [apply Z.ltb_lt in E1; lia|].
    destruct (Z.of_nat (length text) <? Z.of_nat position)%Z eqn:E2;
      [apply Z.ltb_lt in E2; lia|].
    cbn [orb]. rewrite Nat2Z.id. eexists. split; [reflexivity|].
    assert (Hl : length (firstn position text) = position)
      by (rewrite length_firstn; lia).
    unfold fs_read, slice. cbn [bytes setContent content orElse].
    repeat split.
    + intros _. rewrite skipn_app_len by exact Hl.
      replace (position + length data - position) with (length data) by lia.
      rewrite firstn_app_exact. apply firstn_app_exact.
    + now rewrite firstn_app_len by exact Hl.
    + rewrite app_assoc. apply skipn_app_len. rewrite length_app. lia.
    + rewrite !length_app, length_skipn, Hl. lia.
  - destruct (Z.of_nat position <? 0)%Z; [reflexivity|].
    destruct (Z.of_nat (length text) <? Z.of_nat position)%Z eqn:E2; [reflexivity|].
    apply Z.ltb_ge in E2. lia.
Qed.

(** [truncate(position)] followed by [write(data, position)], which is how
    the writer patches the file: the file is then its first [position]
    bytes followed by the data, whatever stood after the position. *)
Theorem truncate_then_write_replaces_tail :
  forall (data : str) (position : nat) (f : FileSystem),
    position <= fs_size f ->
    exists f',
      fs_write data (Some (Z.of_nat position)) (fs_truncate (Z.of_nat position) f)
      = inl f' /\
      bytes f' = firstn position (bytes f) ++ data /\
      openHandles f' = openHandles f.
Proof.
  intros data position f Hp. unfold fs_size in Hp.
  unfold fs_write, fs_truncate. cbn [orElse bytes setContent content].
  fold (bytes f). set (text := bytes f) in *.
  destruct (Z.of_nat position <? 0)%Z eqn:E1; [apply Z.ltb_lt in E1; lia|].
  rewrite Nat2Z.id, length_firstn, Nat.min_l by exact Hp.
  rewrite Z.ltb_irrefl. cbn [orb]. eexists. split; [reflexivity|].
  cbn [content orElse openHandles setContent]. split; [|reflexivity].
  rewrite firstn_firstn, Nat.min_id.
  rewrite skipn_all2 by (rewrite length_firstn; lia). now rewrite app_nil_r.
Qed.

Lemma truncate_then_write_replaces_tail_sample :
  exists f',
    fs_write (chars ",2]") (Some 2%Z) (fs_truncate 2 (fileWith (chars "[1]  "))) = inl f' /\
    bytes f' = chars "[1,2]" /\ openHandles f' = [].
Proof.
  exact (truncate_then_write_replaces_tail (chars ",2]") 2 (fileWith (chars "[1]  "))
           ltac:(vm_compute; lia)).
Defined.

Lemma lastIndexOf_cases (c : ascii) (s : str) :
  (lastIndexOf c s = (-1)%Z /\ forallb (fun x => negb (x =? c)) s = true) \/
  (exists a b, s = a ++ c :: b /\ forallb (fun x => negb (x =? c)) b = true /\
               lastIndexOf c s = Z.of_nat (length a)).
Proof.
  induction s as [|x s IH].
  - left. split; reflexivity.
  - destruct IH as [[_ Habs]|(a & b & -> & Hb & _)].
    + destruct (x =? c) eqn:E.
      * right. apply Ascii.eqb_eq in E. subst x. exists [], s.
        repeat split; auto. now apply (lastIndexOf_last c []).
      * left. assert (H : forallb (fun x => negb (x =? c)) (x :: s) = true)
          by (cbn; now rewrite E, Habs).
        split; [now apply lastIndexOf_absent|exact H].
    + right. exists (x :: a), b. repeat split; auto.
      now apply (lastIndexOf_last c (x :: a)).
Qed.

(** What [readFileTail] returns when the last fifty bytes of the file are
    7-bit (bytes and characters of the decoded window then coincide): those
    bytes (all the bytes of a shorter file), the position they were read
    from, and the index among them of the last closing bracket, [-1] when
    they hold none. *)
Theorem readFileTail_scans_last_bytes :
  forall f : FileSystem,
    forallb is7bit (skipn (fs_size f - 50) (bytes f)) = true ->
    let scan := readFileTail f in
    fileTail scan = skipn (fs_size f - 50) (bytes f) /\
    readPosition scan = fs_size f - 50 /\
    length (fileTail scan) = Nat.min (fs_size f) 50 /\
    trimmedFileTail scan = trim (fileTail scan) /\
    ((lastBracketIndex scan = (-1)%Z /\
      forallb (fun x => negb (x =? "]")) (fileTail scan) = true) \/
     (exists a b, fileTail scan = a ++ "]" :: b /\
                  forallb (fun x => negb (x =? "]")) b = true /\
                  lastBracketIndex scan = Z.of_nat (length a))).
Proof.
  intros f _ scan. destruct (readFileTail_fileTail f) as (H1 & H2 & H3).
  fold scan in H1, H2, H3. unfold fs_size.
  replace (length (bytes f) - 50)
    with (length (bytes f) - Nat.min (length (bytes f)) 50) by lia.
  repeat split; auto.
  exact (lastIndexOf_cases "]" (fileTail scan)).
Qed.

Lemma readFileTail_scans_last_bytes_sample :
  let scan := readFileTail (fileWith (chars "[1, 2]  ")) in
  fileTail scan = chars "[1, 2]  " /\ readPosition scan = 0 /\
  trimmedFileTail scan = chars "[1, 2]" /\ lastBracketIndex scan = 5%Z.
Proof.
  pose proof (readFileTail_scans_last_bytes (fileWith (chars "[1, 2]  ")) eq_refl) as H.
  cbv zeta in H. destruct H as (H1 & H2 & _ & H4 & _).
  split; [exact H1|]. split; [exact H2|]. split; [exact H4|reflexivity].
Defined.

(** [countNewLinesAndSpacesBeforeLastBracket] with [pretty]: the number it
    returns is the length of the run of white space that ends just before
    the bracket: the characters it counts are white space, and the run is
    maximal (it reaches the start of the tail or a character that is not
    white space).  Without [pretty] the number is zero. *)
Theorem count_is_the_white_space_run :
  forall (fileTail : str) (lastBracketIndex : nat),
    lastBracketIndex <= length fileTail ->
    countNewLinesAndSpacesBeforeLastBracket fileTail (Z.of_nat lastBracketIndex) false
    = 0%Z /\
    exists n,
      countNewLinesAndSpacesBeforeLastBracket fileTail (Z.of_nat lastBracketIndex) true
      = Z.of_nat n /\
      n <= lastBracketIndex /\
      forallb isSpace (slice fileTail (lastBracketIndex - n) lastBracketIndex) = true /\
      (n = lastBracketIndex \/
       exists x, nth_error fileTail (lastBracketIndex - n - 1) = Some x /\
                 isSpace x = false).
Proof.
  intros fileTail k Hk. split; [reflexivity|].
  unfold countNewLinesAndSpacesBeforeLastBracket. rewrite Nat2Z.id.
  exists (countLoop fileTail k). split; [reflexivity|].
  split; [apply countLoop_le|].
  induction k as [|k IH].
  - cbn. split; [|now left]. unfold slice. reflexivity.
  - specialize (IH ltac:(lia)). destruct IH as [IH1 IH2].
    cbn [countLoop].
    destruct (nth_error fileTail k) as [c|] eqn:E;
      [|apply nth_error_None in E; lia].
    destruct (isSpace c) eqn:Ec.
    + pose proof (countLoop_le fileTail k) as Hle.
      replace (S k - S (countLoop fileTail k)) with (k - countLoop fileTail k) by lia.
      split.
      * unfold slice in *.
        replace (S k - (k - countLoop fileTail k)) with (S (countLoop fileTail k)) by lia.
        replace (k - (k - countLoop fileTail k)) with (countLoop fileTail k) in IH1 by lia.
        set (n := countLoop fileTail k) in *.
        assert (Hs : nth_error (skipn (k - n) fileTail) n = Some c).
        { rewrite nth_error_skipn. now replace (k - n + n) with k by lia. }
        apply nth_error_split in Hs as (l1 & l2 & Hs & Hl).
        rewrite Hs in IH1 |- *.
        replace (S n) with (length (l1 ++ [c])) by (rewrite length_app; cbn; lia).
        replace (l1 ++ c :: l2) with ((l1 ++ [c]) ++ l2) by now rewrite <- app_assoc.
        rewrite firstn_app_exact. rewrite <- Hl, firstn_app_exact in IH1.
        rewrite forallb_app, IH1. cbn. now rewrite Ec.
      * destruct IH2 as [IH2|(x & Hx1 & Hx2)]; [left; lia|].
        right. exists x. split; [|exact Hx2].
        now replace (S k - S (countLoop fileTail k) - 1)
          with (k - countLoop fileTail k - 1) by lia.
    + split.
      * unfold slice. now replace (S k - (S k - 0)) with 0 by lia.
      * right. exists c. replace (S k - 0 - 1) with k by lia. auto.
Qed.

Lemma count_is_the_white_space_run_sample :
  countNewLinesAndSpacesBeforeLastBracket (chars "[1  ]") 4 false = 0%Z /\
  exists n,
    countNewLinesAndSpacesBeforeLastBracket (chars "[1  ]") 4 true = Z.of_nat n /\
    n <= 4 /\
    forallb isSpace (slice (chars "[1  ]") (4 - n) 4) = true /\
    (n = 4 \/ exists x, nth_error (chars "[1  ]") (4 - n - 1) = Some x /\ isSpace x = false).
Proof.
  exact (count_is_the_white_space_run (chars "[1  ]") 4 ltac:(vm_compute; lia)).
Defined.

(* ================================================================== *)
(** * A write that is rejected *)

Lemma cut_before_bracket_not_json (p w r : str) (v : json) :
  JSON_parse (p ++ w ++ "]" :: r) = Some v -> ws w -> JSON_parse p = None.
Proof.
  intros Hv Hw. destruct (JSON_parse p) as [v'|] eqn:E; [exfalso|reflexivity].
  apply JSON_parse_Document in E. destruct E as (w1 & t & w2 & -> & Hw1 & Ht & Hw2).
  destruct Text_wellEnded as (WT & _). destruct parse_complete as (PC & _).
  unfold JSON_parse in Hv. rewrite <- !app_assoc in Hv.
  rewrite wellEnded_skipWs in Hv by eauto.
  rewrite (PC t v' Ht) in Hv.
  - rewrite app_assoc, skipWs_then in Hv; [discriminate| |reflexivity].
    apply ws_app. now split.
  - rewrite app_assoc. apply ws_stops_numChar; [|reflexivity]. apply ws_app. now split.
  - lengths.
Qed.

Lemma settle_facts (options : RequiredOptions) (s : State) (p : Promise) (a : Await)
      (fault : option Error) :
  flushPromise s = Some (p, a) ->
  let s' := step options s (Settle fault) in
  let r := resume options a fault s in
  flushPromise s' = Some (p, snd r) /\ buffer s' = buffer (fst r) /\
  fsys s' = fsys (fst r) /\
  (settled s' = settled s /\ isShutdown s' = isShutdown s).
Proof.
  intros H s' r. unfold s'. rewrite (step_settle options s p a fault H). fold r.
  destruct (resume_frame options a fault s) as (_ & R2 & R3 & _). fold r in R2, R3.
  cbn. auto.
Qed.

(** The cycle of an idle writer on a file that holds an array, up to the
    moment it awaits the write of its patch. *)
Lemma settle_to_write (options : RequiredOptions) (st : State) (text : str) :
  flushPromise st = None -> buffer st <> [] ->
  content (fsys st) = Some text ->
  isEmpty (trimmedFileTail (readFileTail (fileWith text))) = false ->
  lastBracketIndex (readFileTail (fileWith text)) <> (-1)%Z ->
  let patch := buildInsertion options (buffer st) (readFileTail (fileWith text)) in
  let s := settleAll options 4 (fst (flush options false st)) in
  flushPromise s
  = Some (nextPromise st, AwaitWrite (buffer st) (nextHandle (fsys st)) patch) /\
  buffer s = [] /\
  content (fsys s) = Some (truncateText (truncatePosition patch) text) /\
  (settled s = settled st /\ isShutdown s = isShutdown st).
Proof.
  intros Hidle Hne Htext Hempty Hlbi patch s. unfold s, settleAll.
  rewrite flush_idle_nonempty by assumption. cbn [fst repeat run fold_left].
  set (d := buffer st) in *. set (p := nextPromise st). set (h := nextHandle (fsys st)).
  set (s0 := {| buffer := [] |}).
  (* open *)
  destruct (settle_facts options s0 p (AwaitOpen d None) None eq_refl)
    as (A1 & B1 & C1 & D1).
  set (s1 := step options s0 (Settle None)) in *. clearbody s1.
  cbn [resume] in A1, B1, C1. unfold fs_open, s0 in A1, B1, C1.
  cbn [fsys content logCall] in A1, B1, C1. rewrite Htext in A1, B1, C1.
  cbn in A1, B1. apply (f_equal content) in C1. cbn in C1.
  unfold s0 in D1. cbn [settled isShutdown orb] in D1. clear s0.
  (* stat *)
  destruct (settle_facts options s1 p _ None A1) as (A2 & B2 & C2 & D2).
  set (s2 := step options s1 (Settle None)) in *. clearbody s2.
  cbn [resume fst snd call buffer setFsys fsys] in A2, B2, C2.
  apply (f_equal content) in C2. cbn [content logCall] in C2.
  unfold fs_size, bytes in A2. rewrite C1 in A2, C2. cbn [orElse] in A2.
  (* read *)
  destruct (settle_facts options s2 p _ None A2) as (A3 & B3 & C3 & D3).
  set (s3 := step options s2 (Settle None)) in *. clearbody s3.
  cbn [resume] in A3, B3, C3.
  rewrite (fs_read_content _ _ (fsys s2)), C2 in A3, B3, C3.
  change (scanTail (fs_read _ _ (newFileSystem (Some text))) _)
    with (readFileTail (fileWith text)) in A3, B3, C3.
  apply Z.eqb_neq in Hlbi. rewrite Hempty, Hlbi in A3, B3, C3.
  cbn [andb fst snd call buffer setFsys fsys] in A3, B3, C3.
  apply (f_equal content) in C3. cbn [content logCall] in C3. rewrite C2 in C3.
  (* truncate *)
  destruct (settle_facts options s3 p _ None A3) as (A4 & B4 & C4 & D4).
  set (s4 := step options s3 (Settle None)) in *. clearbody s4.
  cbn [resume fst snd call buffer setFsys fsys] in A4, B4, C4.
  apply (f_equal content) in C4. cbn [content logCall] in C4.
  repeat split.
  - exact A4.
  - now rewrite B4, B3, B2, B1.
  - rewrite C4. unfold truncateText, fs_truncate, bytes. cbn [content setContent fileWith newFileSystem].
    now rewrite C3.
  - destruct D1 as [D1 _], D2 as [D2 _], D3 as [D3 _], D4 as [D4 _].
    now rewrite D4, D3, D2, D1.
  - destruct D1 as [_ D1], D2 as [_ D2], D3 as [_ D3], D4 as [_ D4].
    now rewrite D4, D3, D2, D1.
Qed.

(** A rejected write leaves the file truncated.  The writer patches the file
    in two operations, [truncate] then [write]; when the write of the patch
    is rejected, the promise of [flush] is rejected with that error and the
    batch is back in the queue, but the file has been cut at the truncate
    position: it has lost its closing bracket and is no longer a JSON
    document. *)
Theorem rejected_write_leaves_file_truncated :
  forall (options : RequiredOptions) (st : State) (old : list json) (text : str)
         (e : Error),
    flushPromise st = None -> buffer st <> [] ->
    content (fsys st) = Some text ->
    JSON_parse text = Some (JArray old) ->
    2 <= length (trimmedFileTail (readFileTail (fileWith text))) ->
    forallb is7bit (fileTail (readFileTail (fileWith text))) = true ->
    let done := writeRejected options e st in
    let position :=
      Z.to_nat (truncatePosition
                  (buildInsertion options (buffer st) (readFileTail (fileWith text)))) in
    outcomeOf (nextPromise st) done = Some (Rejected e) /\
    buffer done = buffer st /\
    flushPromise done = None /\
    content (fsys done) = Some (firstn position text) /\
    position < length text /\
    JSON_parse (firstn position text) = None.
Proof.
  intros options st old text e Hidle Hne Htext Hparse Hlen _ done position.
  pose proof Hparse as Hdoc. apply JSON_parse_Document in Hdoc.
  destruct (array_document_split text old Hdoc) as (a & x & wl & w3 & E & Hx & Hwl & Hw3 & _).
  assert (Hscan := scan_of_array_tail options (buffer st) a wl w3 x Hx Hwl Hw3).
  cbv zeta in Hscan. rewrite <- E in Hscan.
  destruct (Hscan Hlen) as (_ & Htp & Hlbi & Hempty & _). clear Hscan.
  assert (Hpos : position = length a + 1 + (if pretty options then 0 else length wl))
    by (unfold position; rewrite Htp; apply Nat2Z.id).
  assert (Hcut : text = (a ++ x :: (if pretty options then [] else wl))
                          ++ (if pretty options then wl else []) ++ "]" :: w3).
  { rewrite E. destruct (pretty options); now norm. }
  assert (Hfirst : firstn position text = a ++ x :: (if pretty options then [] else wl)).
  { rewrite Hcut at 1. apply firstn_app_len. rewrite Hpos, length_app. cbn [length].
    destruct (pretty options); cbn [length]; lia. }
  destruct (settle_to_write options st text Hidle Hne Htext Hempty Hlbi)
    as (A & B & C & D & _).
  unfold done, writeRejected.
  set (s4 := settleAll options 4 (fst (flush options false st))) in *. clearbody s4.
  cbn [run fold_left].
  destruct (settle_facts options s4 _ _ (Some e) A) as (A5 & B5 & C5 & D5).
  set (s5 := step options s4 (Settle (Some e))) in *. clearbody s5.
  cbn [resume throwInTry fst snd call buffer setBuffer setFsys fsys] in A5, B5, C5.
  apply (f_equal content) in C5. cbn [content logCall] in C5.
  destruct (settle_facts options s5 _ _ None A5) as (A6 & B6 & C6 & D6).
  set (s6 := step options s5 (Settle None)) in *. clearbody s6.
  cbn [resume fst snd buffer setFsys fsys] in A6, B6, C6.
  apply (f_equal content) in C6. cbn [content fs_close] in C6.
  unfold step. rewrite A6. cbn [buffer fsys flushPromise].
  unfold outcomeOf. cbn [settled find fst]. rewrite Nat.eqb_refl.
  repeat split.
  - now rewrite B6, B5, B, app_nil_r.
  - rewrite C6, C5, C. unfold truncateText, fs_truncate, bytes.
    cbn [content setContent fileWith newFileSystem orElse].
    fold position. destruct (truncatePosition _ <? 0)%Z eqn:N; [|reflexivity].
    apply Z.ltb_lt in N. rewrite Htp in N. lia.
  - rewrite Hpos, E. rewrite length_app. cbn [length]. rewrite length_app. cbn [length].
    destruct (pretty options); lia.
  - rewrite Hfirst. rewrite Hcut in Hparse.
    apply (cut_before_bracket_not_json _ _ _ _ Hparse).
    destruct (pretty options); [exact Hwl|reflexivity].
Qed.

Lemma rejected_write_leaves_file_truncated_sample :
  let st := queued [sampleEntry "2"] (Some (chars "[1]")) in
  outcomeOf 0 (writeRejected defaults (IoError 5) st) = Some (Rejected (IoError 5)) /\
  buffer (writeRejected defaults (IoError 5) st) = [sampleEntry "2"] /\
  content (fsys (writeRejected defaults (IoError 5) st)) = Some (chars "[1") /\
  JSON_parse (chars "[1") = None.
Proof.
  pose proof (rejected_write_leaves_file_truncated defaults
                (queued [sampleEntry "2"] (Some (chars "[1]")))
                [JNumber (chars "1")] (chars "[1]") (IoError 5)
                eq_refl ltac:(discriminate) eq_refl eq_refl
                ltac:(vm_compute; lia) eq_refl) as H.
  cbv zeta in H. destruct H as (H1 & H2 & _ & H4 & _ & H6).
  split; [exact H1|]. split; [exact H2|]. split; [exact H4|exact H6].
Defined.

(* ================================================================== *)
(** * A closing bracket the tail window shows alone *)

(** More fuel does not change a result of the parser. *)
Lemma parse_fuel_mono (n : nat) :
  (forall m s x, n <= m -> parseValue n s = Some x -> parseValue m s = Some x) /\
  (forall m s x, n <= m -> parseElements n s = Some x -> parseElements m s = Some x) /\
  (forall m s x, n <= m -> parseMembers n s = Some x -> parseMembers m s = Some x).
Proof.
  induction n as [|n (IHv & IHe & IHm)]; [repeat split; discriminate|].
  split; [|split]; intros [|m] s x Hle H; try lia.
  - destruct s as [|c r]; [discriminate|]. cbn [parseValue] in *.
    destruct (c =? "034"); [exact H|].
    destruct (c =? "[").
    { destruct (expect "]" (skipWs r)); [exact H|].
      destruct (parseElements n (skipWs r)) as [[vs r']|] eqn:E; [|discriminate].
      now rewrite (IHe m _ _ ltac:(lia) E). }
    destruct (c =? "{"); [|exact H].
    destruct (expect "}" (skipWs r)); [exact H|].
    destruct (parseMembers n (skipWs r)) as [[ms r']|] eqn:E; [|discriminate].
    now rewrite (IHm m _ _ ltac:(lia) E).
  - cbn [parseElements] in *.
    destruct (parseValue n s) as [[v r]|] eqn:E; [|discriminate].
    rewrite (IHv m _ _ ltac:(lia) E).
    destruct (expect "," (skipWs r)) as [r1|]; [|exact H].
    destruct (parseElements n (skipWs r1)) as [[vs r2]|] eqn:E2; [|discriminate].
    now rewrite (IHe m _ _ ltac:(lia) E2).
  - cbn [parseMembers] in *.
    destruct (expect "034" s) as [s0|]; [|discriminate].
    destruct (scanString SPlain s0) as [[k r0]|]; [|discriminate].
    destruct (expect ":" (skipWs r0)) as [r1|]; [|discriminate].
    destruct (parseValue n (skipWs r1)) as [[v r]|] eqn:E; [|discriminate].
    rewrite (IHv m _ _ ltac:(lia) E).
    destruct (expect "," (skipWs r)) as [r2|]; [|exact H].
    destruct (parseMembers n (skipWs r2)) as [[ms r3]|] eqn:E2; [|discriminate].
    now rewrite (IHm m _ _ ltac:(lia) E2).
Qed.

(** What the parser returns for a text of the grammar when it returns. *)
Lemma parseValue_prefix (t r : str) (v : json) (n : nat) :
  Text t v -> stops isNumChar r ->
  parseValue n (t ++ r) = None \/ parseValue n (t ++ r) = Some (v, r).
Proof.
  intros Ht Hr. destruct (parseValue n (t ++ r)) as [x|] eqn:E; [right|now left].
  destruct (parse_fuel_mono n) as (M & _).
  destruct parse_complete as (PC & _).
  specialize (M (Nat.max n (2 * length t)) _ _ ltac:(lia) E).
  rewrite (PC t v Ht r _ Hr) in M by lia. now injection M as <-.
Qed.

(** Items followed by white space and something that is neither a comma nor
    the closing bracket are not the elements of an array. *)
Lemma parseElements_missing_comma :
  forall t vs, Items t vs ->
    forall n u c r,
      ws u -> u <> [] -> isJsonWs c = false ->
      (c =? ",") = false -> (c =? "]") = false ->
      parseElements n (t ++ u ++ c :: r) = None.
Proof.
  destruct Text_wellEnded as (_ & WI & _).
  induction 1 as [t v Ht|t v w1 w2 ts vs Ht Hw1 Hw2 Hts IH];
    intros [|n] u c r Hu Hne Hc H1 H2; try reflexivity; cbn [parseElements].
  - assert (Hstop : stops isNumChar (u ++ c :: r)).
    { destruct u as [|y u]; [contradiction|]. apply ws_cons in Hu as [Hy _].
      cbn. now apply jsonWs_not_numChar. }
    destruct (parseValue_prefix t (u ++ c :: r) v n Ht Hstop) as [-> | ->]; [reflexivity|].
    rewrite skipWs_then by assumption. cbn [expect]. now rewrite H1, H2.
  - rewrite <- !app_assoc. cbn [app].
    assert (Hstop : stops isNumChar (w1 ++ "," :: w2 ++ ts ++ u ++ c :: r))
      by (apply ws_stops_numChar; [exact Hw1|reflexivity]).
    rewrite <- app_assoc.
    destruct (parseValue_prefix t _ v n Ht Hstop) as [-> | ->]; [reflexivity|].
    rewrite skipWs_then by (auto; reflexivity). rewrite expect_cons.
    rewrite wellEnded_skipWs by eauto.
    now rewrite IH.
Qed.

(** The scan of a file whose last fifty bytes are white space around a
    closing bracket. *)
Lemma scan_wide_gap (options : RequiredOptions) (d : list json) (A w2 w3 : str) :
  ws w2 -> ws w3 -> length w3 < 50 -> 49 <= length w2 + length w3 ->
  let text := A ++ w2 ++ "]" :: w3 in
  let scan := readFileTail (fileWith text) in
  let k := 49 - length w3 in
  trimmedFileTail scan = ["]"] /\
  lastBracketIndex scan = Z.of_nat k /\
  truncatePosition (buildInsertion options d scan)
  = Z.of_nat (length A + length w2 - (if pretty options then k else 0)).
Proof.
  intros Hw2 Hw3 H3 H49 text scan k.
  pose proof (ws_forallb_isSpace w2 Hw2) as S2.
  pose proof (ws_forallb_isSpace w3 Hw3) as S3.
  destruct (readFileTail_fileTail (fileWith text)) as (Etail & Erp & _).
  change (bytes (fileWith text)) with text in *. fold scan in Etail, Erp.
  assert (Etrim : trimmedFileTail scan = trim (fileTail scan)) by reflexivity.
  assert (Elbi : lastBracketIndex scan = lastIndexOf "]" (fileTail scan)) by reflexivity.
  assert (Hlen : length text = length A + length w2 + 1 + length w3).
  { unfold text. rewrite !length_app. cbn [length]. lia. }
  set (j := length w2 - k).
  assert (Hrp : readPosition scan = length A + j) by (rewrite Erp, Hlen; unfold j, k; lia).
  assert (Htail : fileTail scan = skipn j w2 ++ "]" :: w3).
  { rewrite Etail, <- Erp, Hrp. unfold text.
    rewrite skipn_app, skipn_all2 by lia. cbn [app].
    replace (length A + j - length A) with j by lia.
    rewrite skipn_app. replace (j - length w2) with 0 by (unfold j; lia). reflexivity. }
  set (w2' := skipn j w2) in *.
  assert (Hk : length w2' = k) by (unfold w2'; rewrite length_skipn; unfold j, k; lia).
  assert (S2' : forallb isSpace w2' = true) by now apply forallb_skipn.
  split; [|split].
  - rewrite Etrim, Htail. now apply trim_spaces_bracket.
  - rewrite Elbi, Htail, lastIndexOf_last by now apply ws_no_bracket. now rewrite Hk.
  - unfold buildInsertion. cbn [truncatePosition].
    rewrite Elbi, Htail, lastIndexOf_last by now apply ws_no_bracket.
    rewrite Hrp, Hk. unfold countNewLinesAndSpacesBeforeLastBracket.
    destruct (pretty options); [|unfold j, k; lia].
    rewrite Nat2Z.id.
    pose proof (countLoop_spaces [] w2' ("]" :: w3) S2') as C.
    cbn [app length Nat.add countLoop] in C. rewrite Hk in C. rewrite C.
    unfold j, k. lia.
Qed.

(** A valid array the writer breaks.  The file holds a JSON array that is
    not empty, written so that its closing bracket and the white space
    around it fill the last fifty bytes (forty-nine bytes of white space or
    more, fewer than fifty after the bracket).  The tail window then shows
    the bracket alone: [buildInsertion] takes the array for an empty one and
    writes no comma.  The flush is fulfilled and the queue is empty, but
    what is left in the file is not a JSON document. *)
Theorem wide_gap_loses_comma :
  forall (options : RequiredOptions) (st : State) (old : list json)
         (w0 w1 t w2 w3 : str),
    let text := w0 ++ "[" :: w1 ++ t ++ w2 ++ "]" :: w3 in
    ws w0 -> ws w1 -> Items t old -> ws w2 -> ws w3 ->
    length w3 < 50 -> 49 <= length w2 + length w3 ->
    pretty options = true \/ w2 <> [] ->
    flushPromise st = None -> buffer st <> [] ->
    forallb wf_json (buffer st) = true ->
    content (fsys st) = Some text ->
    let done := flushAndSettle options st in
    JSON_parse text = Some (JArray old) /\
    outcomeOf (nextPromise st) done = Some Fulfilled /\
    buffer done = [] /\
    content (fsys done) = Some (patchedContent options (buffer st) text) /\
    JSON_parse (patchedContent options (buffer st) text) = None.
Proof.
  intros options st old w0 w1 t w2 w3 text Hw0 Hw1 Ht Hw2 Hw3 H3 H49 Hsep
         Hidle Hne Hwf Htext done.
  destruct Text_wellEnded as (_ & WI & _).
  set (d := buffer st) in *.
  set (A := w0 ++ "[" :: w1 ++ t).
  assert (EA : text = A ++ w2 ++ "]" :: w3) by (unfold text, A; now norm).
  destruct (scan_wide_gap options d A w2 w3 Hw2 Hw3 H3 H49) as (Htrim & Hlbi & Htp).
  rewrite <- EA in Htrim, Hlbi, Htp.
  set (k := 49 - length w3) in *.
  set (position := length A + length w2 - (if pretty options then k else 0)) in *.
  set (scan := readFileTail (fileWith text)) in *.
  assert (Hpatched : patchedContent options d text
                     = firstn position text
                         ++ maybeNewLine options ++ maybeIndentation options
                         ++ itemsText (indent options) d ++ maybeNewLine options ++ ["]"]).
  { unfold patchedContent. fold scan. rewrite Htp, Nat2Z.id.
    unfold buildInsertion. cbn [insertion]. rewrite Htrim.
    change (shouldInsertComma ["]"]) with false. cbv iota. cbn [app].
    now rewrite jsonString_itemsText by assumption. }
  split; [|split; [|split; [|split]]].
  - apply JSON_parse_Document. exists w0, ("[" :: w1 ++ t ++ w2 ++ ["]"]), w3.
    split; [unfold text; now norm|]. repeat split; auto. now apply T_array.
  - destruct (flushAndSettle_finish options st Hidle Hne) as (r & Hfin & Hout & _).
    fold done d in Hfin, Hout. rewrite Htext in Hfin. cbn [finish] in Hfin.
    rewrite afterOpen_scan in Hfin. cbv zeta in Hfin. fold scan in Hfin.
    rewrite Htrim, Hlbi in Hfin. cbn [isEmpty andb] in Hfin.
    replace (Z.of_nat k =? -1)%Z with false in Hfin by (symmetry; apply Z.eqb_neq; lia).
    rewrite afterWrite_patch in Hfin.
    + injection Hfin as -> _ _. exact Hout.
    + rewrite Htp. lia.
    + rewrite Htp, Nat2Z.id, EA, !length_app. cbn [length]. unfold position. lia.
  - destruct (flushAndSettle_finish options st Hidle Hne) as (r & Hfin & Hout & _).
    fold done d in Hfin, Hout. rewrite Htext in Hfin. cbn [finish] in Hfin.
    rewrite afterOpen_scan in Hfin. cbv zeta in Hfin. fold scan in Hfin.
    rewrite Htrim, Hlbi in Hfin. cbn [isEmpty andb] in Hfin.
    replace (Z.of_nat k =? -1)%Z with false in Hfin by (symmetry; apply Z.eqb_neq; lia).
    rewrite afterWrite_patch in Hfin.
    + now injection Hfin as _ _ ->.
    + rewrite Htp. lia.
    + rewrite Htp, Nat2Z.id, EA, !length_app. cbn [length]. unfold position. lia.
  - destruct (flushAndSettle_finish options st Hidle Hne) as (r & Hfin & Hout & _).
    fold done d in Hfin, Hout. rewrite Htext in Hfin. cbn [finish] in Hfin.
    rewrite afterOpen_scan in Hfin. cbv zeta in Hfin. fold scan in Hfin.
    rewrite Htrim, Hlbi in Hfin. cbn [isEmpty andb] in Hfin.
    replace (Z.of_nat k =? -1)%Z with false in Hfin by (symmetry; apply Z.eqb_neq; lia).
    rewrite afterWrite_patch in Hfin.
    + injection Hfin as _ -> _. unfold patchedContent. fold scan. reflexivity.
    + rewrite Htp. lia.
    + rewrite Htp, Nat2Z.id, EA, !length_app. cbn [length]. unfold position. lia.
  - rewrite Hpatched.
    assert (Hk : k <= length w2) by (unfold k; lia).
    set (m := if pretty options then k else 0) in *.
    assert (Hm : m <= length w2) by (unfold m; destruct (pretty options); lia).
    set (u0 := firstn (length w2 - m) w2).
    assert (Hfirst : firstn position text = A ++ u0).
    { rewrite EA. unfold position, u0. rewrite firstn_app.
      rewrite firstn_all2 by lia. f_equal.
      replace (length A + length w2 - m - length A) with (length w2 - m) by lia.
      rewrite firstn_app.
      replace (length w2 - m - length w2) with 0 by lia.
      cbn [firstn]. now rewrite app_nil_r. }
    rewrite Hfirst.
    assert (Hu0 : ws u0).
    { unfold u0. rewrite <- (firstn_skipn (length w2 - m) w2) in Hw2.
      apply ws_app in Hw2 as [Hw2 _]. exact Hw2. }
    set (u := u0 ++ maybeNewLine options ++ maybeIndentation options).
    assert (Hu : ws u).
    { unfold u, maybeNewLine, maybeIndentation. apply ws_app. split; [exact Hu0|].
      destruct (pretty options); [|reflexivity].
      apply (ws_cons "010"). split; [reflexivity|apply ws_spaces]. }
    assert (Hune : u <> []).
    { unfold u, u0, m, maybeNewLine, maybeIndentation.
      destruct Hsep as [Hp|Hsep]; [rewrite Hp; intros N; now apply app_eq_nil in N as [_ N]|].
      destruct (pretty options); [intros N; now apply app_eq_nil in N as [_ N]|].
      rewrite Nat.sub_0_r, firstn_all. cbn [app]. rewrite app_nil_r. exact Hsep. }
    destruct (WI _ _ (itemsText_Items (indent options) d Hne Hwf))
      as [(c & t' & Ec & Hc) _].
    replace ((A ++ u0) ++ maybeNewLine options ++ maybeIndentation options
               ++ itemsText (indent options) d ++ maybeNewLine options ++ ["]"])
      with (w0 ++ "[" :: w1 ++ t ++ u ++ c :: t' ++ maybeNewLine options ++ ["]"])
      by (unfold A, u; rewrite Ec; now norm).
    unfold JSON_parse. rewrite skipWs_then by (auto; reflexivity).
    match goal with |- context [parseValue ?fuel _] => generalize fuel end.
    intros [|n]; [reflexivity|].
    cbn [parseValue].
    change ("[" =? "034") with false. change ("[" =? "[") with true. cbv iota.
    rewrite wellEnded_skipWs by eauto.
    rewrite wellEnded_expect by eauto.
    rewrite (parseElements_missing_comma t old Ht n u c); auto.
    + now apply notStart_not_ws.
    + now apply (notStart_not c ",").
    + now apply (notStart_not c "]").
Qed.

Lemma wide_gap_loses_comma_sample :
  let text := chars "[1" ++ spaces 49 ++ chars "]" in
  let st := queued [sampleEntry "2"] (Some text) in
  JSON_parse text = Some (JArray [JNumber (chars "1")]) /\
  outcomeOf 0 (flushAndSettle defaults st) = Some Fulfilled /\
  JSON_parse (patchedContent defaults [sampleEntry "2"] text) = None.
Proof.
  pose proof (wide_gap_loses_comma defaults
                (queued [sampleEntry "2"] (Some (chars "[1" ++ spaces 49 ++ chars "]")))
                [JNumber (chars "1")] [] [] (chars "1") (spaces 49) []
                eq_refl eq_refl (I_one _ _ (T_number (chars "1") eq_refl)) eq_refl eq_refl
                ltac:(vm_compute; lia) ltac:(vm_compute; lia) (or_introl eq_refl)
                eq_refl ltac:(discriminate) eq_refl eq_refl) as H.
  cbv zeta in H. destruct H as (H1 & H2 & _ & _ & H5).
  split; [exact H1|]. split; [exact H2|exact H5].
Defined.

Lemma second_document_not_json (text : str) (v : json) (c : ascii) (r : str) :
  JSON_parse text = Some v -> isJsonWs c = false -> isNumChar c = false ->
  JSON_parse (text ++ c :: r) = None.
Proof.
  intros Hv Hc Hn. apply JSON_parse_Document in Hv.
  destruct Hv as (w1 & t & w2 & -> & Hw1 & Ht & Hw2).
  destruct Text_wellEnded as (WT & _). destruct parse_complete as (PC & _).
  unfold JSON_parse. rewrite <- !app_assoc.
  rewrite wellEnded_skipWs by eauto.
  rewrite (PC t v Ht).
  - now rewrite skipWs_then.
  - now apply ws_stops_numChar.
  - lengths.
Qed.

(** White space after the array hides it.  The file holds a JSON document
    followed by fifty bytes of white space or more, and auto-initialization
    is enabled: the tail window is blank, the writer takes the file for an
    empty one and writes the serialized batch at its end.  The flush is
    fulfilled, but the file then holds two documents one after the other,
    which is not JSON. *)
Theorem trailing_white_space_hides_array :
  forall (options : RequiredOptions) (st : State) (v : json) (body w3 : str),
    flushPromise st = None -> buffer st <> [] ->
    initArray options = true ->
    content (fsys st) = Some (body ++ w3) ->
    JSON_parse (body ++ w3) = Some v ->
    ws w3 -> 50 <= length w3 ->
    let done := flushAndSettle options st in
    let written := (body ++ w3) ++ JSON_stringify (JArray (buffer st)) (indent options) in
    outcomeOf (nextPromise st) done = Some Fulfilled /\
    buffer done = [] /\
    content (fsys done) = Some written /\
    JSON_parse written = None.
Proof.
  intros options st v body w3 Hidle Hne Hinit Htext Hv Hw3 H50 done written.
  assert (Htail : forallb isSpace (fileTail (readFileTail (fileWith (body ++ w3)))) = true).
  { destruct (readFileTail_fileTail (fileWith (body ++ w3))) as (E & _).
    change (bytes (fileWith (body ++ w3))) with (body ++ w3) in E. rewrite E.
    rewrite length_app, Nat.min_r by lia.
    rewrite skipn_app, skipn_all2 by lia. cbn [app].
    apply forallb_skipn. now apply ws_forallb_isSpace. }
  destruct (flushAndSettle_finish options st Hidle Hne) as (r & Hfin & Hout & _).
  fold done in Hfin, Hout.
  rewrite Htext in Hfin. cbn [finish] in Hfin. rewrite afterOpen_scan in Hfin.
  cbv zeta in Hfin.
  change (trimmedFileTail (readFileTail (fileWith (body ++ w3))))
    with (trim (fileTail (readFileTail (fileWith (body ++ w3))))) in Hfin.
  rewrite trim_spaces, Hinit in Hfin by exact Htail. cbn [isEmpty andb] in Hfin.
  unfold afterWrite, writeText in Hfin. cbn [orElse] in Hfin.
  destruct (Z.of_nat (length (body ++ w3)) <? 0)%Z eqn:E1; [apply Z.ltb_lt in E1; lia|].
  rewrite Z.ltb_irrefl in Hfin. cbn [orb] in Hfin.
  rewrite Nat2Z.id, firstn_all, skipn_all2, app_nil_r in Hfin by lia.
  injection Hfin as -> Hc Hb. fold written in Hc.
  repeat split; auto.
  unfold written. rewrite JSON_stringify_array by exact Hne.
  now apply (second_document_not_json _ v).
Qed.

Lemma trailing_white_space_hides_array_sample :
  let text := chars "[1]" ++ spaces 50 in
  let done := flushAndSettle defaults (queued [sampleEntry "2"] (Some text)) in
  outcomeOf 0 done = Some Fulfilled /\
  content (fsys done) = Some (text ++ JSON_stringify (JArray [sampleEntry "2"]) 2) /\
  JSON_parse (text ++ JSON_stringify (JArray [sampleEntry "2"]) 2) = None.
Proof.
  pose proof (trailing_white_space_hides_array defaults
                (queued [sampleEntry "2"] (Some (chars "[1]" ++ spaces 50)))
                (JArray [JNumber (chars "1")]) (chars "[1]") (spaces 50)
                eq_refl ltac:(discriminate) eq_refl eq_refl eq_refl eq_refl
                ltac:(vm_compute; lia)) as H.
  cbv zeta in H. destruct H as (H1 & _ & H3 & H4).
  split; [exact H1|]. split; [exact H3|exact H4].
Defined.

(* ================================================================== *)
(** * An entry appended during the cycle *)

Lemma finish_patches (options : RequiredOptions) (batch old : list json) (text : str)
      (previous : option Handle) :
  Document text (JArray old) ->
  batch <> [] -> forallb wf_json batch = true ->
  2 <= length (trimmedFileTail (readFileTail (fileWith text))) ->
  finish options (AwaitOpen batch previous) (Some text) []
  = (Fulfilled, Some (patchedContent options batch text), []).
Proof.
  intros Hdoc Hne Hwf Hlen.
  destruct (patch_appends options batch old text Hdoc Hne Hwf Hlen)
    as (_ & Hpos0 & Hlt & _ & _ & Hlbi & Hempty).
  cbn [finish]. rewrite afterOpen_scan. cbv zeta.
  rewrite Hempty. cbn [andb]. apply Z.eqb_neq in Hlbi. rewrite Hlbi.
  rewrite afterWrite_patch by lia. reflexivity.
Qed.

Lemma append_during_cycle (options : RequiredOptions) (newData : json) (s : State)
      (p : Promise) (a : Await) :
  flushPromise s = Some (p, a) -> isShutdown s = false ->
  fst (append options newData s) = setBuffer (buffer s ++ [newData]) s.
Proof.
  intros Hp Hs. unfold append. rewrite Hs.
  destruct (isFull options _); [|reflexivity].
  rewrite (flush_pending options false _ p a) by exact Hp. reflexivity.
Qed.

Lemma writeText_patch (data : str) (position : Z) (text : str) :
  (0 <= position)%Z -> Z.to_nat position <= length text ->
  writeText data (Some position) (truncateText position text)
  = inl (firstn (Z.to_nat position) text ++ data).
Proof.
  intros H0 Hle.
  pose proof (afterWrite_patch [] data position text [] H0 Hle) as H.
  unfold afterWrite in H. cbn [orElse] in H.
  destruct (writeText data (Some position) (truncateText position text)) as [t|e];
    [|discriminate].
  now injection H as ->.
Qed.

(** An entry appended while the cycle is writing is written by the same
    cycle.  The file is what [JSON.stringify] wrote for an array, the options
    format like [JSON.stringify], [flush] is called on an idle writer that is
    not shut down, and [append] is called while the write of the patch is
    pending.  When the operations succeed, the one promise of [flush] is
    fulfilled after a second round of the loop, the queue is empty, and the
    file is what [JSON.stringify] writes for the array followed by the batch
    and then the appended entry. *)
Theorem appended_during_write_is_written :
  forall (options : RequiredOptions) (st : State) (old : list json) (newData : json),
    formatsLikeStringify options ->
    flushPromise st = None -> isShutdown st = false -> buffer st <> [] ->
    forallb wf_json old = true -> forallb wf_json (buffer st) = true ->
    wf_json newData = true ->
    content (fsys st) = Some (JSON_stringify (JArray old) (indent options)) ->
    forallb is7bit
      (JSON_stringify (JArray (old ++ buffer st)) (indent options)) = true ->
    let done := appendDuringWrite options newData st in
    outcomeOf (nextPromise st) done = Some Fulfilled /\
    buffer done = [] /\ flushPromise done = None /\
    content (fsys done)
    = Some (JSON_stringify (JArray (old ++ buffer st ++ [newData])) (indent options)).
Proof.
  intros options st old newData Hf Hidle Hs Hne Hold Hwf Hnew Htext _ done.
  set (text := JSON_stringify (JArray old) (indent options)) in *.
  assert (Hdoc : forall l, forallb wf_json l = true ->
                   Document (JSON_stringify (JArray l) (indent options)) (JArray l)).
  { intros l Hl. exists [], (JSON_stringify (JArray l) (indent options)), [].
    rewrite app_nil_r. repeat split; auto.
    apply serialize_Text; [exact Hl|apply ws_spaces|reflexivity]. }
  destruct (patched_stringify options old (buffer st) Hf Hne Hwf Hold) as (P1 & L1).
  fold text in P1, L1.
  destruct (patch_appends options (buffer st) old text (Hdoc old Hold) Hne Hwf L1)
    as (_ & Hpos0 & Hlt & _ & _ & Hlbi & Hempty).
  destruct (settle_to_write options st text Hidle Hne Htext Hempty Hlbi)
    as (A & B & C & D & S).
  unfold done, appendDuringWrite. cbv zeta.
  set (s4 := settleAll options 4 (fst (flush options false st))) in *. clearbody s4.
  rewrite (append_during_cycle options newData s4 _ _ A) by now rewrite S.
  rewrite B. cbn [app].
  set (s4' := setBuffer [newData] s4).
  assert (A' : flushPromise s4' = flushPromise s4) by reflexivity. rewrite A in A'.
  destruct (settle_facts options s4' _ _ None A') as (A5 & B5 & C5 & D5 & S5).
  set (s5 := step options s4' (Settle None)) in *. clearbody s5.
  cbn [resume] in A5, B5, C5. rewrite fs_write_writeText in A5, B5, C5.
  unfold bytes in A5, B5, C5. cbn [s4' setBuffer fsys] in A5, B5, C5.
  rewrite C in A5, B5, C5. cbn [orElse] in A5, B5, C5.
  rewrite writeText_patch in A5, B5, C5 by lia.
  change (firstn _ text ++ insertion _) with (patchedContent options (buffer st) text) in A5, B5, C5.
  rewrite P1 in A5, B5, C5.
  unfold loopTest, s4' in A5, B5, C5. cbn [buffer setFsys setBuffer fst snd call fsys] in A5, B5, C5.
  apply (f_equal content) in C5. cbn [content logCall setContent] in C5.
  assert (Hnew1 : forallb wf_json [newData] = true) by (cbn; now rewrite Hnew).
  assert (Hod : forallb wf_json (old ++ (buffer st)) = true) by now rewrite forallb_app, Hold, Hwf.
  destruct (patched_stringify options (old ++ (buffer st)) [newData] Hf ltac:(discriminate) Hnew1 Hod)
    as (P2 & L2).
  destruct (settleAll_finish options 6 s5 _ _ A5) as (r & R1 & R2 & R3 & _).
  { intros _. exact B5. }
  { cbn. lia. }
  rewrite C5, B5 in R2.
  rewrite (finish_patches options [newData] (old ++ (buffer st)) _
             (Some (nextHandle (fsys st))) (Hdoc _ Hod)
             ltac:(discriminate) Hnew1 L2) in R2.
  injection R2 as -> Rc Rb.
  unfold step. rewrite R1. cbn [buffer fsys flushPromise].
  unfold outcomeOf. cbn [settled find fst]. rewrite Nat.eqb_refl.
  repeat split; auto.
  rewrite Rc, P2. now rewrite <- app_assoc.
Qed.

Lemma appended_during_write_is_written_sample :
  content (fsys (appendDuringWrite (sampleOptions (Finite 5)) (sampleEntry "3")
                   (queued [sampleEntry "2"]
                           (Some (JSON_stringify (JArray [sampleEntry "1"]) 2)))))
  = Some (JSON_stringify
            (JArray [sampleEntry "1"; sampleEntry "2"; sampleEntry "3"]) 2).
Proof.
  assert (F : formatsLikeStringify (sampleOptions (Finite 5)))
    by (left; vm_compute; repeat split; lia).
  pose proof (appended_during_write_is_written (sampleOptions (Finite 5))
                (queued [sampleEntry "2"]
                        (Some (JSON_stringify (JArray [sampleEntry "1"]) 2)))
                [sampleEntry "1"] (sampleEntry "3")
                F eq_refl eq_refl ltac:(discriminate) eq_refl eq_refl eq_refl
                eq_refl eq_refl) as H.
  cbv zeta in H. destruct H as (_ & _ & _ & H). exact H.
Defined.

(* ================================================================== *)
(** * A cycle that fails before it writes *)

Lemma resume_untouched (options : RequiredOptions) (d : list json) (text : str)
      (j : nat) (a : Await) (fault : option Error) (s : State) :
  untouched d text j a s ->
  (j <= 2 \/ (j <= 3 /\ fault <> None)) ->
  let r := resume options a fault s in
  untouched d text (S j) (snd r) (fst r) /\
  (fault <> None -> thrown (snd r) <> None) /\
  (thrown a <> None -> fault = None -> exists err, snd r = Returned (Rejected err)).
Proof.
  intros [Hb H] Hj.
  assert (T : forall fh e,
             buffer s = [] ->
             untouched d text (S j) (snd (throwInTry d fh e s))
                       (fst (throwInTry d fh e s)) /\
             thrown (snd (throwInTry d fh e s)) <> None).
  { intros fh e Hq. unfold throwInTry, untouched. rewrite Hq, app_nil_r.
    destruct fh; cbn; (split; [split; [exact Hb|right; split; [discriminate|reflexivity]]
                              |discriminate]). }
  destruct H as [(Hin & Hq & Hd)|(Hth & Hq)].
  - destruct a as [d' prev|d' h|d' h bs rp|d' h|d' h patch|d' h patch|h th|result];
      cbn [inTry depth thrown] in *; try discriminate; injection Hin as ->;
      cbn [resume]; (split; [|split; [|intros N; now destruct N]]).
    all: destruct fault as [e|];
      try (intros _; now apply T); try (now apply T); try (intros N; now destruct N);
      try (exfalso; destruct Hj as [Hj|[Hj N]]; [lia|try lia; now destruct N]).
    + unfold fs_open. unfold bytes in Hb.
      destruct (content (fsys s)) as [t|] eqn:C; cbn [orElse] in Hb.
      * split; [cbn; now rewrite Hb|]. left. cbn. repeat split; auto; lia.
      * destruct (str_eqb _ _); [|now apply T].
        split; [cbn; exact Hb|]. left. cbn. repeat split; auto; lia.
    + split; [exact Hb|]. left. cbn. repeat split; auto; lia.
    + destruct (isEmpty _ && _).
      * split; [exact Hb|]. left. cbn. repeat split; auto; lia.
      * destruct (_ =? _)%Z; [now apply T|].
        split; [exact Hb|]. left. cbn. repeat split; auto; lia.
  - destruct a as [d' prev|d' h|d' h bs rp|d' h|d' h patch|d' h patch|h [err|]|[|err]];
      cbn [thrown] in Hth; try (now destruct Hth); cbn [resume];
      destruct fault as [e|]; cbn [fst snd thrown];
      (split; [split; [try exact Hb|right; split; [discriminate|exact Hq]]
              |split; [intros _; discriminate|]]);
      try (intros _ N; discriminate); intros _ _; eauto.
Qed.

Lemma settleAll_untouched (options : RequiredOptions) (d : list json) (text : str)
      (k : nat) :
  forall (j : nat) (s : State) (p : Promise) (a : Await),
    j + k <= 3 ->
    flushPromise s = Some (p, a) -> untouched d text j a s ->
    exists a',
      flushPromise (settleAll options k s) = Some (p, a') /\
      untouched d text (j + k) a' (settleAll options k s) /\
      settled (settleAll options k s) = settled s.
Proof.
  induction k as [|k IH]; intros j s p a Hj Hp Hu.
  - exists a. rewrite Nat.add_0_r. auto.
  - change (settleAll options (S k) s)
      with (settleAll options k (step options s (Settle None))).
    destruct (settle_facts options s p a None Hp) as (A & B & C & D & _).
    destruct (resume_untouched options d text j a None s Hu ltac:(left; lia)) as (U & _).
    destruct (IH (S j) (step options s (Settle None)) p _ ltac:(lia) A) as (a' & I1 & I2 & I3).
    { destruct U as [U1 U2]. split; [now rewrite C|]. now rewrite B. }
    exists a'. replace (j + S k) with (S j + k) by lia.
    repeat split; auto; try apply I2. now rewrite I3.
Qed.

(** A cycle that fails before its write leaves the file as it was.  When one
    of the first four operations of a cycle is rejected ([open], [stat],
    [read], or [truncate], or the first write of a file being initialized),
    or the cycle gives up by itself before that (no file, no closing
    bracket), the promise of [flush] is rejected, the batch is back in the
    queue and the bytes of the file are those it held before the call. *)
Theorem early_failure_leaves_file_untouched :
  forall (options : RequiredOptions) (st : State) (k : nat) (e : Error),
    k <= 3 -> flushPromise st = None -> buffer st <> [] ->
    let done := rejectedAfter options k e st in
    bytes (fsys done) = bytes (fsys st) /\
    buffer done = buffer st /\
    flushPromise done = None /\
    exists err, outcomeOf (nextPromise st) done = Some (Rejected err).
Proof.
  intros options st k e Hk Hidle Hne done. unfold done, rejectedAfter.
  rewrite flush_idle_nonempty by assumption. cbn [fst].
  set (s0 := {| buffer := [] |}).
  destruct (settleAll_untouched options (buffer st) (bytes (fsys st)) k 0 s0
              (nextPromise st) (AwaitOpen (buffer st) None) ltac:(lia) eq_refl)
    as (a & A & U & _).
  { split; [reflexivity|]. left. cbn. auto. }
  set (sk := settleAll options k s0) in *. clearbody sk. cbn [Nat.add] in U.
  cbn [run fold_left].
  destruct (settle_facts options sk _ a (Some e) A) as (A1 & B1 & C1 & _).
  destruct (resume_untouched options _ _ k a (Some e) sk U
              ltac:(right; split; [lia|discriminate])) as (U1 & T1 & _).
  set (s1 := step options sk (Settle (Some e))) in *. clearbody s1.
  specialize (T1 ltac:(discriminate)).
  assert (U1' : untouched (buffer st) (bytes (fsys st)) (S k)
                          (snd (resume options a (Some e) sk)) s1).
  { destruct U1 as [U1 U2]. split; [now rewrite C1|]. now rewrite B1. }
  clear U1 B1 C1.
  destruct (settle_facts options s1 _ _ None A1) as (A2 & B2 & C2 & _).
  destruct U1' as [Ub [(Hin & _)|(_ & Hq)]].
  { destruct (snd (resume options a (Some e) sk)); cbn in Hin, T1;
      try discriminate; now destruct T1. }
  pose proof (resume_untouched options (buffer st) (bytes (fsys st)) 0 _ None s1
                (conj Ub (or_intror (conj T1 Hq))) ltac:(left; lia)) as (U2 & _ & R2).
  destruct (R2 T1 eq_refl) as (err & R). rewrite R in A2, U2.
  set (s2 := step options s1 (Settle None)) in *. clearbody s2.
  destruct U2 as [Ub2 [(Hin & _)|(_ & Hq2)]]; [discriminate|].
  unfold step. rewrite A2. cbn [buffer fsys flushPromise].
  rewrite C2, Ub2, B2, Hq2. repeat split; auto.
  exists err. unfold outcomeOf. cbn [settled find fst]. now rewrite Nat.eqb_refl.
Qed.

Lemma early_failure_leaves_file_untouched_sample :
  let st := queued [sampleEntry "2"] (Some (chars "[1]")) in
  let done := rejectedAfter defaults 3 (IoError 7) st in
  bytes (fsys done) = chars "[1]" /\ buffer done = [sampleEntry "2"] /\
  flushPromise done = None /\
  exists err, outcomeOf 0 done = Some (Rejected err).
Proof.
  exact (early_failure_leaves_file_untouched defaults
           (queued [sampleEntry "2"] (Some (chars "[1]"))) 3 (IoError 7)
           (le_n 3) eq_refl ltac:(discriminate)).
Defined.

(* ================================================================== *)
(** * The shutdown latch *)

Lemma finish_creates (options : RequiredOptions) (d : list json)
      (previous : option Handle) :
  initArray options = true ->
  finish options (AwaitOpen d previous) None []
  = (Fulfilled, Some (JSON_stringify (JArray d) (indent options)), []).
Proof.
  intros Hinit. cbn [finish]. rewrite Hinit, afterOpen_scan.
  change (readFileTail (fileWith [])) with (scanTail [] 0).
  cbn [scanTail trimmedFileTail]. change (trim []) with (@nil ascii).
  cbv zeta. cbn [isEmpty]. rewrite Hinit. cbn [andb].
  unfold afterWrite, writeText.
  cbn [orElse length Z.of_nat Z.ltb Z.compare orb Z.to_nat firstn Nat.add app].
  now rewrite skipn_nil, app_nil_r.
Qed.

(** C10. The latch gates [append] and nothing else.  Once it is set,
    [append] returns [undefined] and leaves the writer as it is: the entry is
    not queued.  [flush], the completion of a file operation and the callback
    of [flush] act on a latched writer as on the writer without the latch.
    A later [flush] still drains the entries queued before the shutdown and
    writes them: it splices the queue and opens the file; when the file holds
    a JSON array (closing bracket and one more character in the 7-bit tail
    window) and the operations succeed, the promise is fulfilled, the queue
    is empty and the file parses as the former array followed by the queued
    entries; when there is no file and auto-initialization is enabled, the
    file is created with the serialized entries.  A [flush] on an empty queue
    returns without any call on the file. *)
Theorem shutdown_gates_append_only :
  forall (options : RequiredOptions) (st : State),
    let latched := setShutdown true st in
    (forall newData, append options newData latched = (latched, None)) /\
    (forall shutdown,
        flush options shutdown latched
        = (setShutdown true (fst (flush options shutdown st)),
           snd (flush options shutdown st))) /\
    (forall evs,
        forallb (fun ev => negb (isAppend ev)) evs = true ->
        run options latched evs = setShutdown true (run options st evs)) /\
    (forall shutdown,
        flushPromise st = None -> buffer st <> [] ->
        let st' := fst (flush options shutdown latched) in
        buffer st' = [] /\
        flushPromise st' = Some (nextPromise st, AwaitOpen (buffer st) None) /\
        calls (fsys st') = calls (fsys st) ++ [CallOpen (openFlags options)]) /\
    (forall old text,
        flushPromise st = None -> buffer st <> [] ->
        forallb wf_json (buffer st) = true ->
        content (fsys st) = Some text ->
        JSON_parse text = Some (JArray old) ->
        2 <= length (trimmedFileTail (readFileTail (fileWith text))) ->
        forallb is7bit (fileTail (readFileTail (fileWith text))) = true ->
        let done := flushAndSettle options latched in
        outcomeOf (nextPromise st) done = Some Fulfilled /\
        buffer done = [] /\ flushPromise done = None /\ isShutdown done = true /\
        content (fsys done) = Some (patchedContent options (buffer st) text) /\
        JSON_parse (patchedContent options (buffer st) text)
        = Some (JArray (old ++ buffer st))) /\
    (flushPromise st = None -> buffer st <> [] ->
     forallb wf_json (buffer st) = true ->
     content (fsys st) = None -> initArray options = true ->
     let done := flushAndSettle options latched in
     outcomeOf (nextPromise st) done = Some Fulfilled /\
     buffer done = [] /\ flushPromise done = None /\ isShutdown done = true /\
     content (fsys done) = Some (JSON_stringify (JArray (buffer st)) (indent options)) /\
     JSON_parse (JSON_stringify (JArray (buffer st)) (indent options))
     = Some (JArray (buffer st))) /\
    (forall shutdown,
        flushPromise st = None -> buffer st = [] ->
        let st' := fst (flush options shutdown latched) in
        fsys st' = fsys st /\
        flushPromise st' = Some (nextPromise st, Returned Fulfilled) /\
        outcomeOf (nextPromise st) (step options st' Reaction) = Some Fulfilled).
Proof.
  intros options st latched.
  split; [reflexivity|]. split; [intros shutdown; apply flush_latch|].
  split.
  { intros evs. revert st latched. induction evs as [|ev evs IH]; intros st latched H.
    + reflexivity.
    + simpl in H. apply andb_true_iff in H as [H1 H2]. apply negb_true_iff in H1.
      simpl. unfold latched. rewrite step_latch by exact H1. now apply IH. }
  split.
  { intros shutdown H1 H2. unfold latched. rewrite flush_idle_nonempty; auto. }
  split.
  { intros old text Hidle Hne Hwf Htext Hparse Hlen _ done.
    pose proof Hparse as Hdoc. apply JSON_parse_Document in Hdoc.
    destruct (patch_appends options (buffer st) old text Hdoc Hne Hwf Hlen) as (Hnew & _).
    destruct (flush_patches options latched old text Hidle Hne Hwf Htext Hdoc Hlen)
      as (A & B & C & D & E).
    fold done in A, B, C, D, E. repeat split; auto.
    now apply JSON_parse_Document. }
  split.
  { intros Hidle Hne Hwf Htext Hinit done.
    destruct (flushAndSettle_finish options latched Hidle Hne) as (r & Hfin & Hout & Hfp & Hsd).
    fold done in Hfin, Hout, Hfp, Hsd.
    change (content (fsys latched)) with (content (fsys st)) in Hfin.
    change (buffer latched) with (buffer st) in Hfin.
    rewrite Htext, finish_creates in Hfin by exact Hinit.
    injection Hfin as -> Hc Hb. repeat split; auto.
    apply JSON_parse_Document.
    exists [], (JSON_stringify (JArray (buffer st)) (indent options)), [].
    rewrite app_nil_r. repeat split; auto.
    apply serialize_Text; [exact Hwf|apply ws_spaces|reflexivity]. }
  intros shutdown H1 H2. unfold latched. rewrite flush_idle_empty by auto.
  repeat split. unfold outcomeOf; simpl; now rewrite Nat.eqb_refl.
Qed.

Lemma shutdown_gates_append_only_sample :
  let latched := setShutdown true (queued [sampleEntry "2"] (Some (chars "[ 1 ]"))) in
  append defaults (sampleEntry "3") latched = (latched, None) /\
  outcomeOf 0 (flushAndSettle defaults latched) = Some Fulfilled /\
  buffer (flushAndSettle defaults latched) = [] /\
  JSON_parse (bytes (fsys (flushAndSettle defaults latched)))
  = Some (JArray [JNumber (chars "1"); sampleEntry "2"]).
Proof.
  pose proof (shutdown_gates_append_only defaults
                (queued [sampleEntry "2"] (Some (chars "[ 1 ]")))) as H.
  cbv zeta in H. destruct H as (H1 & _ & _ & _ & H5 & _).
  specialize (H5 [JNumber (chars "1")] (chars "[ 1 ]") eq_refl ltac:(discriminate)
                 eq_refl eq_refl eq_refl ltac:(vm_compute; lia) eq_refl).
  destruct H5 as (A & B & _ & _ & C & D).
  split; [apply H1|]. split; [exact A|]. split; [exact B|].
  unfold bytes. rewrite C. exact D.
Defined.
